(** * Elevator demand, regime classification and parking evaluation

    A shallow embedding of the numeric core of the repository:
    - [szeto_model_2026/src/task3_parking.py]      (modules [Task3Parking]
                                                    and [Task3ParkingFloat])
    - [szeto_model_2026/src/task2_classifier.py]   (module [Task2Classifier])
    - [project/beifen/route_b/task1_model.py]      (module [Task1Model])
    - [project/beifen/common/make_report_tables_v2.py] (module [ReportTables])
    - [project/beifen/common/task3_evaluator_simple.py] (module [EvaluatorSimple])
    - [project/situ_model_2026/scripts/task3_evaluator_parking.py]
                                                   (module [EvaluatorParking])
    - [project/scripts/run_stress_tests.py]        (module [StressTests])

    Numbers.  Python [int] is [Z].  Python/NumPy [float] is modelled by the
    exact rationals [Q]: the statements proved on this model are about
    integers, comparisons and orderings that the arithmetic the source
    writes down fixes, not about the last bit of a sum.  Where the result
    itself depends on IEEE rounding (the shares and the allocation of
    [task3_parking.py]) the functions are given a second time on binary64
    ([Task3ParkingFloat]), and the facts about them are proved there.
    Timestamps are seconds since the epoch, also in [Q] (pandas keeps
    whole nanoseconds; the model keeps the sums exact).  A float that may
    be NaN is a [metric].  A function that can raise returns a
    [result]. *)

From Stdlib Require Import ZArith QArith Qround Qabs List Bool String Lia Lqa.
From Stdlib Require Import Sorting.Sorted Sorting.Permutation.
From Corelib Require PrimFloat FloatClass FloatOps SpecFloat.
Import ListNotations.

Set Implicit Arguments.

Local Open Scope Z_scope.

(** ** Python-level conventions shared by all modules *)

(** The exceptions the embedded code can raise. *)
Inductive exn : Type :=
| IndexError
| KeyError
| ValueError (msg : string)
| TypeError
| ZeroDivision
| OverflowError.

(** A computation that either returns or raises. *)
Inductive result (A : Type) : Type :=
| Ok (a : A)
| Raise (e : exn).

Arguments Ok {A} a.
Arguments Raise {A} e.

Definition bind {A B : Type} (m : result A) (k : A -> result B) : result B :=
  match m with
  | Ok a => k a
  | Raise e => Raise e
  end.

Notation "x <- m ;; k" := (bind m (fun x => k))
  (at level 61, m at next level, right associativity).

(** The loop [[f(x) for x in l]] when [f] may raise. *)
Fixpoint mapM {A B : Type} (f : A -> result B) (l : list A) : result (list B) :=
  match l with
  | [] => Ok []
  | x :: l' => y <- f x ;; ys <- mapM f l' ;; Ok (y :: ys)
  end.

(** A float that may be NaN ([np.nan], [float("nan")]). *)
Inductive metric : Type :=
| NaN
| Val (q : Q).

(** [int(x)] on a float: truncation toward zero. *)
Definition Qtrunc (q : Q) : Z := Z.quot (Qnum q) (Zpos (Qden q)).

(** [[x] * n] on a Python list: no element when [n <= 0]. *)
Definition py_repeat {A : Type} (x : A) (n : Z) : list A := repeat x (Z.to_nat n).

(** [range(n)] as integers. *)
Definition py_range (n : Z) : list Z := map Z.of_nat (seq 0 (Z.to_nat n)).

Definition Zsum (l : list Z) : Z := fold_right Z.add 0 l.
Definition Qsum (l : list Q) : Q := fold_right Qplus (0#1)%Q l.

(** [sorted(l, key=...)] / [np.sort]: a stable insertion sort driven by the
    boolean "not after" test [leb].  Where the source sorts with an
    unstable algorithm and the keys can tie on distinct rows, the sort is a
    parameter of the model instead (see [StressTests]). *)
Section Sorting.
Variable A : Type.
Variable leb : A -> A -> bool.

Fixpoint insert_sorted (x : A) (l : list A) : list A :=
  match l with
  | [] => [x]
  | y :: l' => if leb x y then x :: y :: l' else y :: insert_sorted x l'
  end.

Fixpoint sort_by (l : list A) : list A :=
  match l with
  | [] => []
  | x :: l' => insert_sorted x (sort_by l')
  end.
End Sorting.

Definition Qleb (a b : Q) : bool := Qle_bool a b.
Definition Qltb (a b : Q) : bool := negb (Qle_bool b a).
Definition Qeqb (a b : Q) : bool := Qeq_bool a b.

(** A float division; the zero denominator, which NumPy answers with a
    warning and [nan] or [inf], is reported as [ZeroDivision]. *)
Definition checked_div (a b : Q) : result Q :=
  if Qeqb b (0#1) then Raise ZeroDivision else Ok (a / b)%Q.

(** [np.argmin(l)] / [np.argmax(l)]: position of the first extremum. *)
Fixpoint argbest_from (better : Q -> Q -> bool) (l : list Q) (i : nat)
         (best_i : nat) (best : Q) : nat :=
  match l with
  | [] => best_i
  | x :: l' =>
      if better x best then argbest_from better l' (S i) i x
      else argbest_from better l' (S i) best_i best
  end.

Definition argmax (l : list Q) : nat :=
  match l with
  | [] => O
  | x :: l' => argbest_from (fun a b => Qltb b a) l' 1 0 x
  end.

(** [np.percentile(x, q)] with the default linear interpolation, for a
    non-empty sample [x] and [0 <= q <= 100]; [Series.quantile(q/100)] is
    the same computation. *)
Definition percentile (x : list Q) (q : Q) : Q :=
  let s := sort_by Qleb x in
  let n := Z.of_nat (List.length s) in
  let vi := (inject_Z (n - 1) * q / inject_Z 100)%Q in
  let lo := Qfloor vi in
  let hi := Z.min (lo + 1) (n - 1) in
  let g := (vi - inject_Z lo)%Q in
  let a := nth (Z.to_nat lo) s (0#1)%Q in
  let b := nth (Z.to_nat hi) s (0#1)%Q in
  (a + (b - a) * g)%Q.

(** [np.mean] of a non-empty sample. *)
Definition mean (x : list Q) : Q :=
  (Qsum x / inject_Z (Z.of_nat (List.length x)))%Q.

(** [np.median] of a non-empty integer array. *)
Definition median (x : list Z) : Q :=
  let s := sort_by Z.leb x in
  let n := List.length s in
  if Nat.even n
  then ((inject_Z (nth (n / 2 - 1)%nat s 0%Z)
         + inject_Z (nth (n / 2)%nat s 0%Z)) / inject_Z 2)%Q
  else inject_Z (nth (n / 2)%nat s 0%Z).

(** Python's one-argument [round]: to the nearest integer, ties to even. *)
Definition py_round (q : Q) : Z :=
  let f := Qfloor q in
  let r := (q - inject_Z f)%Q in
  if Qltb r (1#2) then f
  else if Qltb (1#2) r then f + 1
  else if Z.even f then f else f + 1.

(** *** Timestamps

    A timestamp is a number of seconds since 1970-01-01T00:00, a Thursday. *)
Definition FIVE_MIN : Z := 300.

(** [t.floor("5min")], as whole seconds. *)
Definition floor_5min (t : Q) : Z := FIVE_MIN * Qfloor (t / inject_Z FIVE_MIN).

(** [t.ceil("5min")], as whole seconds. *)
Definition ceil_5min (t : Q) : Z := FIVE_MIN * Qceiling (t / inject_Z FIVE_MIN).

(** [t.hour] *)
Definition hour_of (t : Q) : Z := (Qfloor t mod 86400) / 3600.

(** [t.minute] *)
Definition minute_of (t : Q) : Z := (Qfloor t mod 3600) / 60.

(** [t.weekday()], Monday = 0. *)
Definition weekday_of (t : Q) : Z := (Qfloor t / 86400 + 3) mod 7.

(** [pd.date_range(start, end, freq="5min")] on slot boundaries. *)
Definition date_range_5min (start_ end_ : Z) : list Z :=
  if end_ <? start_ then []
  else map (fun i => start_ + FIVE_MIN * Z.of_nat i)
           (seq 0 (S (Z.to_nat ((end_ - start_) / FIVE_MIN)))).

(** A hall call as the cleaned CSV delivers it. *)
Record HallCall : Type := mkHallCall {
  Time : Q;
  Floor : Z;
  Direction : string
}.

Fixpoint Zlist_min (x : Z) (l : list Z) : Z :=
  match l with
  | [] => x
  | y :: l' => Zlist_min (Z.min x y) l'
  end.

Fixpoint Zlist_max (x : Z) (l : list Z) : Z :=
  match l with
  | [] => x
  | y :: l' => Zlist_max (Z.max x y) l'
  end.

(** ** szeto_model_2026/src/task3_parking.py *)
Module Task3Parking.

Local Open Scope Q_scope.

(** The three zone names of [ZONES = ["Lobby", "Mid", "Upper"]]. *)
Inductive Zone : Type := Lobby | Mid | Upper.

Definition ZONES : list Zone := [Lobby; Mid; Upper].

Definition zone_eqb (a b : Zone) : bool :=
  match a, b with
  | Lobby, Lobby | Mid, Mid | Upper, Upper => true
  | _, _ => false
  end.

(** [ZONES.index(z)] *)
Definition zone_index (z : Zone) : Z :=
  match z with Lobby => 0%Z | Mid => 1%Z | Upper => 2%Z end.

(** A dict keyed by the zone names, read with [d[z]] or [d.get(z, 0)]. *)
Definition zdict (A : Type) : Type := Zone -> A.

Definition mk_zdict {A : Type} (l m u : A) : zdict A :=
  fun z => match z with Lobby => l | Mid => m | Upper => u end.

Definition zupd {A : Type} (d : zdict A) (z : Zone) (v : A) : zdict A :=
  fun z' => if zone_eqb z z' then v else d z'.

Definition zvalues {A : Type} (d : zdict A) : list A := map d ZONES.

(** [sum(d.values())] on car counts. *)
Definition zsum (d : zdict Z) : Z := Zsum (zvalues d).

(** The [templates] table. *)
Definition templates : list (string * zdict Q) :=
  [ ("Morning Up-Peak"%string,    mk_zdict (7#10) (25#100) (5#100));
    ("Lunch Down-Peak"%string,    mk_zdict (2#10) (6#10) (2#10));
    ("Evening Down-Peak"%string,  mk_zdict (5#100) (25#100) (7#10));
    ("Afternoon Mixed"%string,    mk_zdict (33#100) (34#100) (33#100));
    ("Night Idle"%string,         mk_zdict (6#10) (2#10) (2#10));
    ("Weekend Low-Demand"%string, mk_zdict (5#10) (3#10) (2#10)) ].

Definition afternoon_mixed : zdict Q := mk_zdict (33#100) (34#100) (33#100).

(** [templates.get(state, templates['Afternoon Mixed'])] *)
Fixpoint templates_get (tbl : list (string * zdict Q)) (state : string) : zdict Q :=
  match tbl with
  | [] => afternoon_mixed
  | (name, tpl) :: tbl' =>
      if String.eqb name state then tpl else templates_get tbl' state
  end.

(** [max(tpl, key=tpl.get)]: the first zone, in dict order, whose share is
    not exceeded by a later one. *)
Definition primary_zone (tpl : zdict Q) : Zone :=
  let best := Lobby in
  let best := if Qltb (tpl best) (tpl Mid) then Mid else best in
  let best := if Qltb (tpl best) (tpl Upper) then Upper else best in
  best.

Definition _proportions_from_state (state : string) (y_hat : Q) : zdict Q :=
  let tpl := templates_get templates state in
  let adj : zdict Q :=
    if Qleb y_hat 1 then
      fun z => if zone_eqb z Lobby then tpl z + (4#10) else tpl z * (4#10)
    else if Qleb 10 y_hat then
      let primary := primary_zone tpl in
      fun z => if zone_eqb z primary
               then tpl z + (10#100) * tpl primary
               else tpl z - (5#100) * tpl primary
    else tpl in
  let total := Qsum (zvalues adj) in
  fun z => adj z / total.

(** The sort key [(-x[1], ZONES.index(x[0]))] of [fracs]. *)
Definition frac_leb (a b : Zone * Q) : bool :=
  Qltb (snd b) (snd a)
  || (Qeqb (snd a) (snd b) && (zone_index (fst a) <=? zone_index (fst b))%Z).

(** [for i in range(remaining): z = fracs[i][0]; floored[z] += 1] *)
Fixpoint bump_first (idxs : list Z) (fracs : list (Zone * Q)) (floored : zdict Z)
  : result (zdict Z) :=
  match idxs with
  | [] => Ok floored
  | i :: idxs' =>
      match nth_error fracs (Z.to_nat i) with
      | None => Raise IndexError
      | Some (z, _) => bump_first idxs' fracs (zupd floored z (floored z + 1)%Z)
      end
  end.

Definition compute_desired_allocation (state : string) (y_hat : Q) (n_elevators : Z)
  : result (zdict Z) :=
  let props := _proportions_from_state state y_hat in
  let raw : zdict Q := fun z => props z * inject_Z n_elevators in
  let floored : zdict Z := fun z => Qtrunc (raw z) in
  let remaining := (n_elevators - Zsum (zvalues floored))%Z in
  let fracs :=
    sort_by frac_leb (map (fun z => (z, raw z - inject_Z (floored z))) ZONES) in
  bump_first (py_range remaining) fracs floored.

(** *** [compute_reposition_moves] *)

(** Number of elevators of [l] parked in zone [z]. *)
Definition count_zone (l : list Zone) (z : Zone) : Z :=
  Z.of_nat (List.length (filter (zone_eqb z) l)).

(** [[z] * diff] for the zones with a surplus, in [ZONES] order. *)
Definition surplus_zones (curr_counts desired_alloc : zdict Z) : list Zone :=
  flat_map (fun z =>
              let diff := (curr_counts z - desired_alloc z)%Z in
              if (0 <? diff)%Z then py_repeat z diff else []) ZONES.

Definition deficit_zones (curr_counts desired_alloc : zdict Z) : list Zone :=
  flat_map (fun z =>
              let diff := (curr_counts z - desired_alloc z)%Z in
              if (0 <? diff)%Z then []
              else if (diff <? 0)%Z then py_repeat z (- diff) else []) ZONES.

Definition zone_in (z : Zone) (l : list Zone) : bool := existsb (zone_eqb z) l.

(** [enumerate(current_alloc_list)] *)
Definition enumerate {A : Type} (l : list A) : list (Z * A) :=
  combine (map Z.of_nat (seq 0 (List.length l))) l.

(** The candidate lists [indices_by_zone], filled in index order. *)
Definition indices_by_zone (current_alloc_list : list Zone)
           (surplus : list Zone) (curr_counts desired_alloc : zdict Z)
  : zdict (list Z) :=
  fold_left
    (fun (acc : zdict (list Z)) (iz : Z * Zone) =>
       let (i, z) := iz in
       if zone_in z surplus || (desired_alloc z <? curr_counts z)%Z
       then zupd acc z (acc z ++ [i])
       else acc)
    (enumerate current_alloc_list)
    (fun _ => []).

(** The first zone of [ZONES] that still has a candidate. *)
Definition pick_src (ibz : zdict (list Z)) : option Zone :=
  find (fun z => match ibz z with [] => false | _ :: _ => true end) ZONES.

(** [list.pop()]: the last element and the rest. *)
Definition pop_last {A : Type} (l : list A) : option (A * list A) :=
  match rev l with
  | [] => None
  | x :: r => Some (x, rev r)
  end.

(** The pairing loop over [deficit_zones]; [break] ends it. *)
Fixpoint pair_moves (deficits : list Zone) (ibz : zdict (list Z))
         (curr_counts : zdict Z) (moves : list (Z * Zone)) : list (Z * Zone) :=
  match deficits with
  | [] => moves
  | target_zone :: rest =>
      match pick_src ibz with
      | None => moves
      | Some src =>
          match pop_last (ibz src) with
          | None => moves
          | Some (idx, remaining_idx) =>
              let ibz' := zupd ibz src remaining_idx in
              let cc := zupd curr_counts src (curr_counts src - 1)%Z in
              let cc := zupd cc target_zone (cc target_zone + 1)%Z in
              pair_moves rest ibz' cc (moves ++ [(idx, target_zone)])
          end
      end
  end.

Definition compute_reposition_moves (current_alloc_list : list Zone)
           (desired_alloc : zdict Z) : list (Z * Zone) :=
  let curr_counts : zdict Z := count_zone current_alloc_list in
  let surplus := surplus_zones curr_counts desired_alloc in
  let deficits := deficit_zones curr_counts desired_alloc in
  let ibz := indices_by_zone current_alloc_list surplus curr_counts desired_alloc in
  pair_moves deficits ibz curr_counts [].

(** Carrying out a plan: elevator [idx] goes to its target zone. *)
Fixpoint set_nth {A : Type} (n : nat) (x : A) (l : list A) : list A :=
  match n, l with
  | _, [] => []
  | O, _ :: l' => x :: l'
  | S n', y :: l' => y :: set_nth n' x l'
  end.

Definition apply_moves (current_alloc_list : list Zone) (moves : list (Z * Zone))
  : list Zone :=
  fold_left (fun acc (m : Z * Zone) => set_nth (Z.to_nat (fst m)) (snd m) acc)
            moves current_alloc_list.

(** *** [parking_policy] *)

(** The dict [parking_policy] returns; the [meta_] fields are its
    ['metadata'] entry. *)
Record Plan : Type := mkPlan {
  desired_alloc : zdict Z;
  moves : list (Z * Zone);
  meta_proportions : zdict Q;
  meta_y_hat : Q;
  meta_state : string;
  meta_n_elevators : Z
}.

(** The default of [current_alloc]:
    [[ZONES[i % len(ZONES)] for i in range(n_elevators)]]. *)
Definition round_robin (n_elevators : Z) : list Zone :=
  map (fun i => nth (Z.to_nat (i mod 3)%Z) ZONES Lobby) (py_range n_elevators).

Definition parking_policy (state : string) (y_hat : Q) (n_elevators : Z)
           (current_alloc : option (list Zone)) : result Plan :=
  let current := match current_alloc with
                 | None => round_robin n_elevators
                 | Some c => c
                 end in
  desired <- compute_desired_allocation state y_hat n_elevators ;;
  Ok (mkPlan desired (compute_reposition_moves current desired)
             (_proportions_from_state state y_hat) y_hat state n_elevators).

End Task3Parking.

(** ** szeto_model_2026/src/task3_parking.py, in binary64

    The shares and the allocation are the two results of the repository
    that depend on how the floats round, so these two functions are also
    given on IEEE binary64, the [float] of CPython.  A decimal literal
    stands for the nearest double, as in Python. *)
Module Task3ParkingFloat.

Import PrimFloat FloatClass FloatOps SpecFloat.
Import Task3Parking.

#[local] Set Warnings "-inexact-float".
Local Open Scope float_scope.

(** The builtin [sum] on floats: CPython up to 3.11 adds from left to
    right; from 3.12 on it carries Neumaier's compensation term and adds
    it at the end. *)
Inductive Summation : Type := LeftToRight | Compensated.

(** [math.isfinite] *)
Definition is_finite (x : float) : bool :=
  match classify x with
  | PInf | NInf | FloatClass.NaN => false
  | _ => true
  end.

(** The compensated loop of [sum]: the running sum [f] and the running
    compensation [c]. *)
Fixpoint neumaier (f c : float) (l : list float) : float * float :=
  match l with
  | [] => (f, c)
  | x :: l' =>
      let t := f + x in
      let c' := if abs x <=? abs f then c + ((f - t) + x) else c + ((x - t) + f) in
      neumaier t c' l'
  end.

(** [sum(l)], from the integer start value [0]. *)
Definition py_sum (alg : Summation) (l : list float) : float :=
  match l with
  | [] => 0
  | x :: l' =>
      let start := 0 + x in
      match alg with
      | LeftToRight => fold_left add l' start
      | Compensated =>
          let (f, c) := neumaier start 0 l' in
          if negb (c =? 0) && is_finite c then f + c else f
      end
  end.

(** An [int] operand of a float operation: the nearest double, ties to
    even, and [OverflowError] beyond the largest double. *)
Definition float_of_int (n : Z) : result float :=
  let x := SF2Prim (binary_normalize prec emax n 0%Z false) in
  if is_finite x then Ok x else Raise OverflowError.

(** [int(x)] on a float: truncation toward zero. *)
Definition int_of_float (x : float) : result Z :=
  match Prim2SF x with
  | S754_zero _ => Ok 0%Z
  | S754_finite s m e =>
      let v := if (0 <=? e)%Z then Z.shiftl (Zpos m) e else Z.shiftr (Zpos m) (- e) in
      Ok (if s then (- v)%Z else v)
  | S754_infinity _ => Raise OverflowError
  | S754_nan => Raise (ValueError "cannot convert float NaN to integer")
  end.

(** The real number a finite double stands for. *)
Definition Q_of_float (x : float) : Q :=
  match Prim2SF x with
  | S754_finite s m e =>
      (inject_Z (if s then Zneg m else Zpos m) * Qpower 2 e)%Q
  | _ => 0%Q
  end.

(** The [templates] table. *)
Definition templates : list (string * zdict float) :=
  [ ("Morning Up-Peak"%string,    mk_zdict 0.7 0.25 0.05);
    ("Lunch Down-Peak"%string,    mk_zdict 0.2 0.6 0.2);
    ("Evening Down-Peak"%string,  mk_zdict 0.05 0.25 0.7);
    ("Afternoon Mixed"%string,    mk_zdict 0.33 0.34 0.33);
    ("Night Idle"%string,         mk_zdict 0.6 0.2 0.2);
    ("Weekend Low-Demand"%string, mk_zdict 0.5 0.3 0.2) ].

Definition afternoon_mixed : zdict float := mk_zdict 0.33 0.34 0.33.

(** [templates.get(state, templates['Afternoon Mixed'])] *)
Fixpoint templates_get (tbl : list (string * zdict float)) (state : string)
  : zdict float :=
  match tbl with
  | [] => afternoon_mixed
  | (name, tpl) :: tbl' =>
      if String.eqb name state then tpl else templates_get tbl' state
  end.

(** [max(tpl, key=tpl.get)]: the first zone, in dict order, whose share is
    not exceeded by a later one. *)
Definition primary_zone (tpl : zdict float) : Zone :=
  let best := Lobby in
  let best := if tpl best <? tpl Mid then Mid else best in
  let best := if tpl best <? tpl Upper then Upper else best in
  best.

(** [_proportions_from_state]; a float division by zero raises. *)
Definition _proportions_from_state (alg : Summation) (state : string) (y_hat : float)
  : result (zdict float) :=
  let tpl := templates_get templates state in
  let adj : zdict float :=
    if y_hat <=? 1 then
      fun z => if zone_eqb z Lobby then tpl z + 0.4 else tpl z * 0.4
    else if 10 <=? y_hat then
      let primary := primary_zone tpl in
      fun z => if zone_eqb z primary
               then tpl z + 0.10 * tpl primary
               else tpl z - 0.05 * tpl primary
    else tpl in
  let total := py_sum alg (zvalues adj) in
  if total =? 0 then Raise ZeroDivision
  else Ok (mk_zdict (adj Lobby / total) (adj Mid / total) (adj Upper / total)).

(** The order of the sort keys [(-x[1], ZONES.index(x[0]))]: tuples
    compare on the first component where it differs. *)
Definition frac_key_lt (a b : Zone * float) : bool :=
  if - snd a =? - snd b then (zone_index (fst a) <? zone_index (fst b))%Z
  else - snd a <? - snd b.

Definition frac_leb (a b : Zone * float) : bool := negb (frac_key_lt b a).

(** [for i in range(remaining): z = fracs[i][0]; floored[z] += 1] *)
Fixpoint bump_first (idxs : list Z) (fracs : list (Zone * float)) (floored : zdict Z)
  : result (zdict Z) :=
  match idxs with
  | [] => Ok floored
  | i :: idxs' =>
      match nth_error fracs (Z.to_nat i) with
      | None => Raise IndexError
      | Some (z, _) => bump_first idxs' fracs (zupd floored z (floored z + 1)%Z)
      end
  end.

(** [compute_desired_allocation]: [raw], then [floored], then [fracs],
    each dict filled in the order of [ZONES]. *)
Definition compute_desired_allocation (alg : Summation) (state : string)
           (y_hat : float) (n_elevators : Z) : result (zdict Z) :=
  props <- _proportions_from_state alg state y_hat ;;
  n <- float_of_int n_elevators ;;
  let raw : zdict float :=
    mk_zdict (props Lobby * n) (props Mid * n) (props Upper * n) in
  l <- int_of_float (raw Lobby) ;;
  m <- int_of_float (raw Mid) ;;
  u <- int_of_float (raw Upper) ;;
  let floored : zdict Z := mk_zdict l m u in
  let remaining := (n_elevators - zsum floored)%Z in
  fl <- float_of_int l ;;
  fm <- float_of_int m ;;
  fu <- float_of_int u ;;
  let fracs :=
    sort_by frac_leb
            [(Lobby, raw Lobby - fl); (Mid, raw Mid - fm); (Upper, raw Upper - fu)] in
  bump_first (py_range remaining) fracs floored.

(** *** Decision procedures for the finitely many cases

    The state enters through its template only and the forecast through
    the two comparisons only, so one forecast per branch and the six
    names of the table stand for every input. *)
Definition branch_cases : list (string * float) :=
  list_prod (map fst templates) [0; 5; 12].

(** The fleet sizes the allocation is checked for, one by one. *)
Definition MAX_FLEET : Z := 1000.

(** Shares: returned, each strictly between 0 and 1, and adding up to 1
    within [2^-52] as real numbers. *)
Definition shares_ok (r : result (zdict float)) : bool :=
  match r with
  | Ok p =>
      forallb (fun z => (0 <? p z) && (p z <? 1)) ZONES
      && Qle_bool (Qabs (Q_of_float (p Lobby) + Q_of_float (p Mid)
                         + Q_of_float (p Upper) - 1)%Q)
                  (1 # 2 ^ 52)%Q
  | Raise _ => false
  end.

(** An allocation: returned, without a negative count, handing out [n]
    cars. *)
Definition allocation_ok (n : Z) (r : result (zdict Z)) : bool :=
  match r with
  | Ok a => (zsum a =? n)%Z && forallb (fun z => (0 <=? a z)%Z) ZONES
  | Raise _ => false
  end.

End Task3ParkingFloat.

(** ** project/beifen/common/task3_evaluator_simple.py *)
Module EvaluatorSimple.

Definition V_FLOOR : Q := 15 # 10.
Definition DOOR_TIME : Q := 8 # 1.
Definition K_ELEVATORS : Z := 8.

(** [choose_parking_floor]; [Ok None] is the Python [None] of [last_stop]. *)
Definition choose_parking_floor (strategy : string) (call_floor : Z)
  : result (option Z) :=
  if String.eqb strategy "last_stop" then Ok None
  else if String.eqb strategy "lobby" then Ok (Some 1)
  else if String.eqb strategy "zone" then
    if call_floor <=? 3 then Ok (Some 1)
    else if call_floor <=? 8 then Ok (Some 6)
    else Ok (Some 12)
  else if String.eqb strategy "dynamic" then Ok (Some call_floor)
  else Raise (ValueError strategy).

Record SimpleLogRow : Type := mkSimpleLogRow {
  strategy : string;
  call_time : Q;
  wait_time : Q
}.

(** Position of the first car at minimal distance ([np.argmin]). *)
Definition nearest_car (elevator_pos : list Z) (call_floor : Z) : nat :=
  let dists := map (fun p => inject_Z (Z.abs (p - call_floor))) elevator_pos in
  match dists with
  | [] => O
  | d :: ds => argbest_from Qltb ds 1 0 d
  end.

Definition set_pos (elevator_pos : list Z) (i : nat) (f : Z) : list Z :=
  firstn i elevator_pos ++ f :: skipn (S i) elevator_pos.

(** The evaluation loop of one strategy over the time-ordered calls. *)
Fixpoint evaluate_calls (strat : string) (elevator_pos : list Z)
         (hall : list HallCall) : list SimpleLogRow :=
  match hall with
  | [] => []
  | row :: hall' =>
      let call_floor := Floor row in
      let car_id := nearest_car elevator_pos call_floor in
      let travel :=
        (inject_Z (Z.abs (nth car_id elevator_pos 0%Z - call_floor)) * V_FLOOR)%Q in
      let wait := (travel + DOOR_TIME)%Q in
      mkSimpleLogRow strat (Time row) wait
        :: evaluate_calls strat (set_pos elevator_pos car_id call_floor) hall'
  end.

Definition evaluate (hall : list HallCall) : list SimpleLogRow :=
  flat_map (fun strat =>
              evaluate_calls strat (py_repeat 1 K_ELEVATORS) hall)
           ["last_stop"; "lobby"; "zone"; "dynamic"]%string.

End EvaluatorSimple.

(** ** project/situ_model_2026/scripts/task3_evaluator_parking.py *)
Module EvaluatorParking.

(** The command-line arguments the evaluation reads. *)
Record Args : Type := mkArgs {
  k : Z;
  v_floor : Q;
  door : Q;
  history_bins : Z;
  lobby_max : Z;
  mid_max : Z
}.

Definition weighted_quantile_floors (floors : list Z) (k : Z) : list Z :=
  match floors with
  | [] => []
  | _ :: _ =>
      let floors_sorted := sort_by Z.leb floors in
      let n := Z.of_nat (List.length floors_sorted) in
      let qs := map (fun i => ((inject_Z i + (1#2)) / inject_Z k)%Q) (py_range k) in
      let idxs :=
        map (fun q => Z.min (n - 1) (Z.max 0 (py_round (q * inject_Z (n - 1))%Q))) qs in
      map (fun i => nth (Z.to_nat i) floors_sorted 0) idxs
  end.

Definition match_sorted_distance (prev curr : list Z) : Q :=
  match prev, curr with
  | [], _ | _, [] => 0%Q
  | _, _ =>
      let a := sort_by Z.leb prev in
      let b := sort_by Z.leb curr in
      inject_Z (Zsum (map (fun ab => Z.abs (fst ab - snd ab)) (combine a b)))
  end.

Definition compute_state (count : Z) (up_ratio : Q) (is_weekday : bool)
           (hour : Z) (q25 q75 : Q) : string :=
  if Qleb (inject_Z count) q25 then "Idle/Low"
  else if is_weekday && (7 <=? hour) && (hour <=? 10)
          && Qleb (60#100) up_ratio && Qleb q75 (inject_Z count)
  then "Morning Up-Peak"
  else if is_weekday && (16 <=? hour) && (hour <=? 19)
          && Qleb up_ratio (40#100) && Qleb q75 (inject_Z count)
  then "Evening Down-Peak"
  else if is_weekday && (11 <=? hour) && (hour <=? 14)
          && Qleb up_ratio (45#100) && Qleb q75 (inject_Z count)
  then "Lunch Down-Peak"
  else "Mixed".

Definition zone_of_floor (f lobby_max mid_max : Z) : string :=
  if f <=? lobby_max then "Lobby"
  else if f <=? mid_max then "Mid"
  else "Upper".

(** *** Parking policies *)

Definition parking_lobby (k : Z) : list Z := py_repeat 1 k.

Definition parking_last_stop (prev_parking : list Z) (k : Z) : list Z :=
  match prev_parking with
  | [] => py_repeat 1 k
  | _ :: _ =>
      if Z.of_nat (List.length prev_parking) =? k then prev_parking
      else py_repeat 1 k
  end.

(** [alloc[idx] += 1] on the three-entry array. *)
Definition bump (alloc : list Z) (idx : nat) : list Z :=
  firstn idx alloc ++ (nth idx alloc 0 + 1) :: skipn (S idx) alloc.

(** The loop [while alloc.sum() < k: ...].  Every turn raises the sum by
    one, so [fuel = k - alloc.sum()] turns are all the loop can take; the
    guard is still tested on every turn. *)
Fixpoint distribute_remaining (fuel : nat) (props : list Q) (k : Z)
         (alloc : list Z) : list Z :=
  match fuel with
  | O => alloc
  | S fuel' =>
      if Zsum alloc <? k then
        let idx :=
          argmax (map (fun pa => (fst pa - inject_Z (snd pa) / inject_Z (Z.max 1 k))%Q)
                      (combine props alloc)) in
        distribute_remaining fuel' props k (bump alloc idx)
      else alloc
  end.

Definition med_or_center (arr : list Z) (lo hi : Z) : Z :=
  match arr with
  | [] => Qtrunc (inject_Z (lo + hi) / inject_Z 2)
  | _ :: _ => Qtrunc (median arr)
  end.

Definition parking_zone (history_floors : list Z)
           (k lobby_max mid_max F_min F_max : Z) : list Z :=
  match history_floors with
  | [] =>
      let a0 := Qceiling ((5#10) * inject_Z k) in
      let a1 := Qceiling ((3#10) * inject_Z k) in
      let a2 := k - a0 - a1 in
      py_repeat 1 a0
        ++ py_repeat (Qtrunc (inject_Z (lobby_max + mid_max) / inject_Z 2)) a1
        ++ py_repeat (Qtrunc (inject_Z (mid_max + F_max) / inject_Z 2)) a2
  | _ :: _ =>
      let hf := history_floors in
      let lob := filter (fun f => f <=? lobby_max) hf in
      let mid := filter (fun f => (lobby_max <? f) && (f <=? mid_max)) hf in
      let upp := filter (fun f => mid_max <? f) hf in
      let counts :=
        [inject_Z (Z.of_nat (List.length lob));
         inject_Z (Z.of_nat (List.length mid));
         inject_Z (Z.of_nat (List.length upp))] in
      let counts := if Qeqb (Qsum counts) 0 then [1%Q; 1%Q; 1%Q] else counts in
      let props := map (fun c => (c / Qsum counts)%Q) counts in
      let alloc := map (fun p => Qfloor (p * inject_Z k)) props in
      let alloc := distribute_remaining (Z.to_nat (k - Zsum alloc)) props k alloc in
      let alloc := map (Z.max 0) alloc in
      let p_lob := 1 in
      let p_mid := med_or_center mid (lobby_max + 1) mid_max in
      let p_upp := med_or_center upp (mid_max + 1) F_max in
      py_repeat p_lob (nth 0 alloc 0)
        ++ py_repeat p_mid (nth 1 alloc 0)
        ++ py_repeat p_upp (nth 2 alloc 0)
  end.

Definition parking_dynamic (history_floors : list Z) (k : Z) (fallback : list Z)
  : list Z :=
  match history_floors with
  | [] => fallback
  | _ :: _ => weighted_quantile_floors history_floors k
  end.

(** *** The evaluator, [main] *)

Record LogRow : Type := mkLogRow {
  strategy : string;
  call_time : Q;
  wait_time : Q;
  state : string;
  empty_travel : Q
}.

(** One row of the per-bin table [interval]. *)
Record Interval : Type := mkInterval {
  bin5 : Z;
  count : Z;
  up_count : Z;
  floors : list Z;
  hour : Z;
  weekday : Z
}.

Definition lower_ascii (c : Ascii.ascii) : Ascii.ascii :=
  let n := Ascii.nat_of_ascii c in
  if (Nat.leb 65 n && Nat.leb n 90)%bool then Ascii.ascii_of_nat (n + 32) else c.

Fixpoint lower (s : string) : string :=
  match s with
  | EmptyString => EmptyString
  | String c s' => String (lower_ascii c) (lower s')
  end.

Fixpoint nodup_Z (l : list Z) : list Z :=
  match l with
  | [] => []
  | x :: l' => if existsb (Z.eqb x) l' then nodup_Z l' else x :: nodup_Z l'
  end.

Definition calls_of_bin (df : list HallCall) (b : Z) : list HallCall :=
  filter (fun c => floor_5min (Time c) =? b) df.

(** [df.groupby("bin5", sort=True).agg(...)] *)
Definition build_interval (df : list HallCall) : list Interval :=
  map (fun b =>
         let rows := calls_of_bin df b in
         let first_time := match rows with [] => 0%Q | c :: _ => Time c end in
         mkInterval b
           (Z.of_nat (List.length rows))
           (Z.of_nat (List.length
              (filter (fun c => String.eqb (lower (Direction c)) "up") rows)))
           (map Floor rows)
           (hour_of first_time)
           (weekday_of first_time))
      (sort_by Z.leb (nodup_Z (map (fun c => floor_5min (Time c)) df))).

Definition state_of (q25 q75 : Q) (r : Interval) : string :=
  let up_ratio := (inject_Z (up_count r) / inject_Z (Z.max 1 (count r)))%Q in
  compute_state (count r) up_ratio (weekday r <=? 4) (hour r) q25 q75.

Definition strategies : list string :=
  ["last_stop"; "lobby"; "zone"; "dynamic"]%string.

(** The dict [prev_parking], keyed by strategy name. *)
Definition pdict : Type := list (string * list Z).

Fixpoint pdict_get (d : pdict) (s : string) : list Z :=
  match d with
  | [] => []
  | (s', v) :: d' => if String.eqb s' s then v else pdict_get d' s
  end.

Fixpoint pdict_set (d : pdict) (s : string) (v : list Z) : pdict :=
  match d with
  | [] => [(s, v)]
  | (s', v') :: d' =>
      if String.eqb s' s then (s', v) :: d' else (s', v') :: pdict_set d' s v
  end.

(** The [if strat == ... elif ... else: raise ValueError(strat)] chain. *)
Definition plan (args : Args) (F_min F_max : Z) (strat : string)
           (prev hist_floors : list Z) : result (list Z) :=
  if String.eqb strat "last_stop" then Ok (parking_last_stop prev (k args))
  else if String.eqb strat "lobby" then Ok (parking_lobby (k args))
  else if String.eqb strat "zone" then
    Ok (parking_zone hist_floors (k args) (lobby_max args) (mid_max args) F_min F_max)
  else if String.eqb strat "dynamic" then
    let fallback :=
      parking_zone hist_floors (k args) (lobby_max args) (mid_max args) F_min F_max in
    Ok (parking_dynamic hist_floors (k args) fallback)
  else Raise (ValueError strat).

(** The call-level rows of one strategy in one bin. *)
Definition log_calls (args : Args) (strat st : string) (curr : list Z)
           (empty_travel : Q) (calls : list HallCall) : result (list LogRow) :=
  match calls with
  | [] => Ok []
  | _ :: _ =>
      match curr with
      | [] =>
          Raise (ValueError
                   "zero-size array to reduction operation minimum which has no identity")
      | p :: parks =>
          Ok (map (fun c =>
                     let f := Floor c in
                     let dist := Zlist_min (Z.abs (p - f))
                                           (map (fun q => Z.abs (q - f)) parks) in
                     let wait := (inject_Z dist * v_floor args + door args)%Q in
                     mkLogRow strat (Time c) wait st
                       (empty_travel / inject_Z (Z.of_nat (List.length calls)))%Q)
                  calls)
      end
  end.

(** The inner loop [for strat in strategies] of one bin. *)
Fixpoint run_strategies (args : Args) (F_min F_max : Z) (strats : list string)
         (st : string) (hist_floors : list Z) (calls : list HallCall)
         (prev_parking : pdict) : result (pdict * list LogRow) :=
  match strats with
  | [] => Ok (prev_parking, [])
  | strat :: strats' =>
      let prev := pdict_get prev_parking strat in
      curr <- plan args F_min F_max strat prev hist_floors ;;
      let empty_travel := match_sorted_distance prev curr in
      let prev_parking := pdict_set prev_parking strat curr in
      rows <- log_calls args strat st curr empty_travel calls ;;
      rest <- run_strategies args F_min F_max strats' st hist_floors calls prev_parking ;;
      Ok (fst rest, rows ++ snd rest)
  end.

(** [np.concatenate(floors_by_bin[j0:i])], empty when [i <= j0]. *)
Definition history_window (floors_by_bin : list (list Z)) (i history_bins : Z)
  : list Z :=
  let j0 := Z.max 0 (i - history_bins) in
  if j0 <? i
  then List.concat (firstn (Z.to_nat (i - j0)) (skipn (Z.to_nat j0) floors_by_bin))
  else [].

(** The outer loop [for i, row in interval.iterrows()]. *)
Fixpoint run_bins (args : Args) (df : list HallCall) (F_min F_max : Z) (q25 q75 : Q)
         (floors_by_bin : list (list Z)) (rows : list (Z * Interval))
         (prev_parking : pdict) : result (list LogRow) :=
  match rows with
  | [] => Ok []
  | (i, row) :: rows' =>
      let hist_floors := history_window floors_by_bin i (history_bins args) in
      step <- run_strategies args F_min F_max strategies (state_of q25 q75 row)
                             hist_floors (calls_of_bin df (bin5 row)) prev_parking ;;
      rest <- run_bins args df F_min F_max q25 q75 floors_by_bin rows' (fst step) ;;
      Ok (snd step ++ rest)
  end.

(** [main], from the parsed frame [df] to the rows of the output CSV.  An
    empty frame does not get past the set-up: the per-bin table has no
    row, and the comparison [interval["weekday"] <= 4] on its untyped
    column is a [TypeError]. *)
Definition main (args : Args) (df : list HallCall) : result (list LogRow) :=
  match df with
  | [] => Raise TypeError
  | c :: df' =>
      let interval := build_interval df in
      let counts := map (fun r => inject_Z (count r)) interval in
      let q25 := percentile counts 25 in
      let q75 := percentile counts 75 in
      let F_min := Zlist_min (Floor c) (map Floor df') in
      let F_max := Zlist_max (Floor c) (map Floor df') in
      let prev_parking := map (fun s => (s, py_repeat 1 (k args))) strategies in
      run_bins args df F_min F_max q25 q75 (map floors interval)
               (combine (py_range (Z.of_nat (List.length interval))) interval)
               prev_parking
  end.

End EvaluatorParking.

(** ** project/beifen/route_b/task1_model.py *)
Module Task1Model.

Definition N_INTERVALS_PER_DAY : Z := 24 * 12.

(** One row of the series: the slot start and the columns
    [count], [w], [tau]. *)
Record Slot : Type := mkSlot {
  interval_start : Z;
  count : Z;
  w : Z;
  tau : Z
}.

(** Rows as the series builder writes them: a regime flag and a slot of
    the day. *)
Definition well_formed (series : list Slot) : Prop :=
  forall s, In s series ->
            (w s = 0 \/ w s = 1) /\ 0 <= tau s < N_INTERVALS_PER_DAY.

(** [1 if d < 5 else 0] on the weekday of the slot. *)
Definition regime_of (slot : Z) : Z :=
  if weekday_of (inject_Z slot) <? 5 then 1 else 0.

(** [(hour * 60 + minute) // 5] *)
Definition tau_of (slot : Z) : Z :=
  (hour_of (inject_Z slot) * 60 + minute_of (inject_Z slot)) / 5.

(** [df.groupby('interval_start').size()]: one entry per observed slot. *)
Definition group_sizes (starts : list Z) : list (Z * Z) :=
  map (fun b => (b, Z.of_nat (List.length (filter (Z.eqb b) starts))))
      (sort_by Z.leb (EvaluatorParking.nodup_Z starts)).

(** [counts.reindex(idx, fill_value=0)] at one label. *)
Definition reindex_at (counts : list (Z * Z)) (label : Z) : Z :=
  match find (fun bc => fst bc =? label) counts with
  | Some bc => snd bc
  | None => 0
  end.

(** [build_5min_series] on the parsed time column.  With no call at all
    [pd.date_range] is handed [NaT] and raises. *)
Definition build_5min_series (times : list Q) : result (list Slot) :=
  match map floor_5min times with
  | [] => Raise (ValueError "Neither `start` nor `end` can be NaT")
  | b :: bs =>
      let counts := group_sizes (b :: bs) in
      let idx := date_range_5min (Zlist_min b bs) (Zlist_max b bs) in
      Ok (map (fun s => mkSlot s (reindex_at counts s) (regime_of s) (tau_of s)) idx)
  end.

(** The fitted model: [mu_w[0]], [mu_w[1]], [phi_w[0]], [phi_w[1]]. *)
Record Fit : Type := mkFit {
  mu_w0 : list Q;
  mu_w1 : list Q;
  phi_w0 : Q;
  phi_w1 : Q
}.

Definition phi_w (f : Fit) (wv : Z) : Q := if wv =? 0 then phi_w0 f else phi_w1 f.

(** [vals.mean() if len(vals) > 0 else 0.0] for one [(w, tau)]. *)
Definition slot_mean (series : list Slot) (wv tauv : Z) : result Q :=
  let vals :=
    map (fun s => inject_Z (count s))
        (filter (fun s => (w s =? wv) && (tau s =? tauv)) series) in
  match vals with
  | [] => Ok 0%Q
  | _ :: _ => checked_div (Qsum vals) (inject_Z (Z.of_nat (List.length vals)))
  end.

Definition baseline (series : list Slot) (wv : Z) : result (list Q) :=
  mapM (slot_mean series wv) (py_range N_INTERVALS_PER_DAY).

(** [mu_w[int(w)][int(tau)]]: a dict lookup, then an array index that
    counts from the end when negative. *)
Definition mu_lookup (mu0 mu1 : list Q) (wv tauv : Z) : result Q :=
  arr <- (if wv =? 0 then Ok mu0 else if wv =? 1 then Ok mu1 else Raise KeyError) ;;
  let n := Z.of_nat (List.length arr) in
  let i := if tauv <? 0 then tauv + n else tauv in
  if (i <? 0) || (n <=? i) then Raise IndexError
  else Ok (nth (Z.to_nat i) arr 0%Q).

(** [np.roll(a, 1)] *)
Definition roll1 {A : Type} (l : list A) : list A :=
  match rev l with
  | [] => []
  | x :: r => x :: rev r
  end.

(** [a[mask]] *)
Definition select {A : Type} (mask : list bool) (l : list A) : list A :=
  map snd (filter fst (combine mask l)).

(** The body of [for w in (0, 1)] that fits [phi]. *)
Definition fit_phi (e : list Q) (w_arr : list Z) (wv : Z) : result Q :=
  let e_prev := roll1 e in
  let w_prev := roll1 w_arr in
  let valid := match e with
               | [] => []
               | _ :: e' => false :: map (fun _ => true) e'
               end in
  let mask :=
    map (fun vw => fst vw && (fst (snd vw) =? wv) && (snd (snd vw) =? wv))
        (combine valid (combine w_arr w_prev)) in
  if Z.of_nat (List.length (filter id mask)) =? 0 then Ok 0%Q
  else
    let x := select mask e_prev in
    let yv := select mask e in
    let denom := Qsum (map (fun a => a * a)%Q x) in
    if Qeqb denom 0 then Ok 0%Q
    else checked_div (Qsum (map (fun ab => fst ab * snd ab)%Q (combine x yv))) denom.

(** The deviations [e = y - mu_vals]. *)
Definition residuals (series : list Slot) (mu0 mu1 : list Q) : result (list Q) :=
  mapM (fun s => m <- mu_lookup mu0 mu1 (w s) (tau s) ;; Ok (inject_Z (count s) - m)%Q)
       series.

Definition estimate_baseline_and_phi (series : list Slot) : result Fit :=
  mu0 <- baseline series 0 ;;
  mu1 <- baseline series 1 ;;
  e <- residuals series mu0 mu1 ;;
  match series with
  | [] => Raise IndexError
  | _ :: _ =>
      let w_arr := map w series in
      phi0 <- fit_phi e w_arr 0 ;;
      phi1 <- fit_phi e w_arr 1 ;;
      Ok (mkFit mu0 mu1 phi0 phi1)
  end.

(** [predict_next], the forecast for the slot after [last_ts]. *)
Definition predict_next (last_ts : Z) (last_count : Z) (f : Fit) : result (Z * Q) :=
  let next_ts := last_ts + FIVE_MIN in
  let tau_t := tau_of last_ts mod N_INTERVALS_PER_DAY in
  let tau_tp1 := tau_of next_ts mod N_INTERVALS_PER_DAY in
  let w_t := regime_of last_ts in
  let w_tp1 := regime_of next_ts in
  mu_t <- mu_lookup (mu_w0 f) (mu_w1 f) w_t tau_t ;;
  mu_tp1 <- mu_lookup (mu_w0 f) (mu_w1 f) w_tp1 tau_tp1 ;;
  let phi := phi_w f w_t in
  let y_hat := (mu_tp1 + phi * (inject_Z last_count - mu_t))%Q in
  Ok (next_ts, if Qleb y_hat 0 then 0%Q else y_hat).

End Task1Model.

(** ** szeto_model_2026/src/task2_classifier.py *)
Module Task2Classifier.

(** The columns of a feature row that [classify_interval] reads. *)
Record Row : Type := mkRow {
  count : Q;
  r : Q;
  p1 : Q;
  w : Z
}.

Record Thresholds : Type := mkThresholds {
  theta1 : Q;
  theta2 : Q;
  theta3 : Q;
  alpha1 : Q;
  alpha2 : Q;
  alpha3 : Q;
  beta1 : Q
}.

(** [compute_thresholds] for the quantiles [q1], [q2], [q3] (in percent;
    10, 75, 75 by default) of a non-empty feature table. *)
Definition compute_thresholds (features : list Row) (q1 q2 q3 : Q) : Thresholds :=
  let counts := map count features in
  mkThresholds (percentile counts q1) (percentile counts q2) (percentile counts q3)
               (6#10) (4#10) (6#10) (3#10).

Definition classify_interval (row : Row) (thr : Thresholds) : string :=
  let C := count row in
  if Qltb C (theta1 thr) then "Night Idle"
  else if w row =? 0 then "Weekend Low-Demand"
  else if Qleb (theta2 thr) C && Qleb (alpha1 thr) (r row) && Qleb (beta1 thr) (p1 row)
  then "Morning Up-Peak"
  else if Qleb (theta3 thr) C && Qleb (r row) (alpha2 thr)
  then "Evening Down-Peak"
  else if Qleb (theta2 thr) C && Qltb (alpha2 thr) (r row) && Qltb (r row) (alpha3 thr)
  then "Lunch Down-Peak"
  else "Afternoon Mixed".

Definition classify_all (features : list Row) (thr : option Thresholds) : list string :=
  let thr := match thr with
             | Some t => t
             | None => compute_thresholds features 10 75 75
             end in
  map (fun row => classify_interval row thr) features.

End Task2Classifier.

(** ** project/beifen/common/make_report_tables_v2.py *)
Module ReportTables.

Definition pctl (x : list Q) (q : Q) : metric :=
  match x with
  | [] => NaN
  | _ :: _ => Val (percentile x q)
  end.

(** A row of the call-level log read back from the CSV.  [is_long_wait]
    and [empty_travel] are optional columns of the frame. *)
Record CallRow : Type := mkCallRow {
  strategy : string;
  wait_time : Q;
  is_long_wait : Z;
  empty_travel : Q
}.

Record Frame : Type := mkFrame {
  rows : list CallRow;
  has_is_long_wait : bool;
  has_empty_travel : bool
}.

Record Summary : Type := mkSummary {
  s_strategy : string;
  s_N : Z;
  AWT : Q;
  P90 : metric;
  P95 : metric;
  P99 : metric;
  LongWaitPct : Q;
  EmptyTravel_mean : metric
}.

Fixpoint nodup_string (l : list string) : list string :=
  match l with
  | [] => []
  | x :: l' => if existsb (String.eqb x) l' then nodup_string l' else x :: nodup_string l'
  end.

(** The keys of [df.groupby('strategy')], in sorted order. *)
Definition group_keys (df : list CallRow) : list string :=
  sort_by String.leb (nodup_string (map strategy df)).

Definition summarize_group (long_wait_threshold : Q) (fr : Frame) (strat : string)
  : Summary :=
  let g := filter (fun row => String.eqb (strategy row) strat) (rows fr) in
  let waits := map wait_time g in
  let flags :=
    if has_is_long_wait fr then map (fun row => inject_Z (is_long_wait row)) g
    else map (fun row => if Qleb long_wait_threshold (wait_time row) then 1%Q else 0%Q) g in
  mkSummary strat
            (Z.of_nat (List.length g))
            (mean waits)
            (pctl waits 90)
            (pctl waits 95)
            (pctl waits 99)
            (100 * mean flags)%Q
            (if has_empty_travel fr then Val (mean (map empty_travel g)) else NaN).

(** [summarize_task3]: the rows of the table, one per strategy, ordered by
    [AWT]; rows of equal [AWT] are kept in key order.  The table of a log
    without a row has no row (and, in pandas, no [AWT] column to order
    by). *)
Definition summarize_task3 (fr : Frame) (long_wait_threshold : Q) : list Summary :=
  sort_by (fun a b => Qleb (AWT a) (AWT b))
          (map (summarize_group long_wait_threshold fr) (group_keys (rows fr))).

(** [mae]: [np.mean(np.abs(y_true - y_pred))].  Arrays of different
    lengths are broadcast when one of them has a single element, and
    rejected otherwise; the mean of no element is NaN. *)
Definition mae (y_true y_pred : list Q) : result metric :=
  let pairs :=
    if Nat.eqb (List.length y_true) (List.length y_pred)
    then Some (combine y_true y_pred)
    else match y_true, y_pred with
         | [a], _ => Some (map (fun b => (a, b)) y_pred)
         | _, [b] => Some (map (fun a => (a, b)) y_true)
         | _, _ => None
         end in
  match pairs with
  | None => Raise (ValueError "operands could not be broadcast together")
  | Some [] => Ok NaN
  | Some ps => Ok (Val (mean (map (fun ab => Qabs (fst ab - snd ab)) ps)))
  end.

(** [str.isspace] on an ASCII character. *)
Definition is_space (c : Ascii.ascii) : bool :=
  let n := Ascii.nat_of_ascii c in
  (Nat.leb 9 n && Nat.leb n 13) || (Nat.leb 28 n && Nat.leb n 32).

Fixpoint lstrip (s : string) : string :=
  match s with
  | EmptyString => EmptyString
  | String c s' => if is_space c then lstrip s' else s
  end.

Definition string_rev (s : string) : string :=
  string_of_list_ascii (rev (list_ascii_of_string s)).

(** [str.strip()] *)
Definition strip (s : string) : string :=
  string_rev (lstrip (string_rev (lstrip s))).

Definition compute_long_wait_threshold (fr : Frame) (mode : string)
           (absolute_value : Q) : result metric :=
  let mode := strip (EvaluatorParking.lower mode) in
  if String.eqb mode "absolute" then Ok (Val absolute_value)
  else if String.eqb mode "p95_lobby" then
    match filter (fun row => String.eqb (EvaluatorParking.lower (strategy row)) "lobby")
                 (rows fr) with
    | [] => Ok (pctl (map wait_time (rows fr)) 95)
    | lobby => Ok (pctl (map wait_time lobby) 95)
    end
  else Raise (ValueError "Unsupported --long_wait_mode. Use 'absolute' or 'p95_lobby'.").

End ReportTables.

(** ** project/scripts/run_stress_tests.py *)
Module StressTests.

Definition N_ELEVATORS : Z := 8.
Definition LOBBY_FLOOR : Z := 1.
Definition SECONDS_PER_FLOOR_BASE : Q := 15 # 10.
Definition DOOR_TIME_BASE : Q := 8 # 1.
Definition LONG_WAIT_THRESHOLD_BASE : Q := 60 # 1.

(** [class ElevatorState] *)
Record ElevatorState : Type := mkElevatorState {
  floor : Z;
  available_time : Q
}.

Definition travel_time_seconds (f1 f2 : Z) (seconds_per_floor : Q) : Q :=
  (inject_Z (Z.abs (f1 - f2)) * seconds_per_floor)%Q.

(** [pick_col]: the first candidate that is a column of the frame. *)
Definition pick_col (columns candidates : list string) (required : bool)
  : result (option string) :=
  match find (fun c => existsb (String.eqb c) columns) candidates with
  | Some c => Ok (Some c)
  | None => if required then Raise KeyError else Ok None
  end.

(** The hall-call frame: its column names, and its rows with [Floor] read
    from the column [pick_col] settles on. *)
Record HallFrame : Type := mkHallFrame {
  hall_columns : list string;
  hall_rows : list HallCall
}.

Record StopRow : Type := mkStopRow {
  stop_time : Q;
  stop_elevator : Z;
  stop_floor : Z
}.

Record StopFrame : Type := mkStopFrame {
  stop_columns : list string;
  stop_rows : list StopRow
}.

(** A row of [demand_by_cluster_floor]. *)
Record DemandRow : Type := mkDemandRow {
  cluster : Z;
  d_floor : Z;
  cnt : Q
}.

(** The frame [demand_by_cluster_floor]: its column names, and its rows
    as they read through the columns ["cluster"], ["floor"], ["cnt"]. *)
Record DemandFrame : Type := mkDemandFrame {
  demand_columns : list string;
  demand_rows : list DemandRow
}.

(** The frame [feats]: its column names, and its rows, each with its
    [Time] and the features the pipeline reads. *)
Record FeatFrame (FeatRow : Type) : Type := mkFeatFrame {
  feat_columns : list string;
  feat_rows : list (Q * FeatRow)
}.

(** The summary dict [simulate] returns. *)
Record Metrics : Type := mkMetrics {
  AWT : metric;
  P95 : metric;
  LongWaitPct : metric;
  N : Z
}.

Definition floor_candidates : list string :=
  ["Floor"; "floor"; "OriginFloor"; "FromFloor"; "HallFloor"; "StartFloor"]%string.

(** [max(a, b)] on timestamps. *)
Definition later (a b : Q) : Q := if Qltb a b then b else a.

(** [arr] of the dispatch loop: when car [st] can be at the call. *)
Definition arrival (seconds_per_floor : Q) (call_time : Q) (origin_floor : Z)
           (st : ElevatorState) : Q :=
  (later (available_time st) call_time
   + travel_time_seconds (floor st) origin_floor seconds_per_floor)%Q.

(** The scan [for e, st in elevators.items()] that keeps the first car
    whose arrival is strictly earlier than every car before it. *)
Fixpoint choose_best (seconds_per_floor call_time : Q) (origin_floor : Z)
         (cars : list ElevatorState) (e : nat) (best : option (nat * Q))
  : option (nat * Q) :=
  match cars with
  | [] => best
  | st :: cars' =>
      let arr := arrival seconds_per_floor call_time origin_floor st in
      let best' :=
        match best with
        | None => Some (e, arr)
        | Some (_, best_arrival) =>
            if Qltb arr best_arrival then Some (e, arr) else best
        end in
      choose_best seconds_per_floor call_time origin_floor cars' (S e) best'
  end.

Definition set_car (elevators : list ElevatorState) (e : nat) (st : ElevatorState)
  : list ElevatorState :=
  firstn e elevators ++ st :: skipn (S e) elevators.

(** The loop of [np.searchsorted(cw, q)] (side left): a bisection between
    [lo] and [hi] that moves [lo] past the middle entry when that entry
    is below [q], and [hi] down to it otherwise; [hi - lo] turns are all
    the loop can take. *)
Fixpoint bisect_left (fuel : nat) (cw : list Q) (q : Q) (lo hi : nat) : nat :=
  match fuel with
  | O => lo
  | S fuel' =>
      if Nat.ltb lo hi then
        let mid := (lo + Nat.div2 (hi - lo))%nat in
        if Qltb (nth mid cw 0%Q) q
        then bisect_left fuel' cw q (S mid) hi
        else bisect_left fuel' cw q lo mid
      else lo
  end.

(** [np.searchsorted(cw, q)]: on a non-decreasing [cw] the first position
    whose entry is not below [q]. *)
Definition searchsorted (cw : list Q) (q : Q) : nat :=
  bisect_left (List.length cw) cw q 0 (List.length cw).

(** [np.cumsum] *)
Fixpoint cumsum_from (acc : Q) (l : list Q) : list Q :=
  match l with
  | [] => []
  | x :: l' => (acc + x)%Q :: cumsum_from (acc + x)%Q l'
  end.

Section Simulator.

(** The row type of the feature table and what the fitted pipeline
    predicts from a row ([mode_pipe.predict] on [mode_features]). *)
Variable FeatRow : Type.
Variable predict : FeatRow -> Z.

(** [sort_values] / [sort_index] / [np.argsort] by a key.  pandas and
    NumPy sort with an unstable quicksort here, so the order of rows
    with equal keys is left to the library. *)
Variable sort_values : forall A : Type, (A -> Q) -> list A -> list A.

Variable strategy : string.
Variable hall : HallFrame.
Variable stop : StopFrame.
Variable feats : FeatFrame FeatRow.
Variable demand_by_cluster_floor : DemandFrame.
Variables start_time end_time : Q.
Variables seconds_per_floor door_time long_wait_threshold : Q.

(** [infer_initial_positions]: the dict [pos]. *)
Definition infer_initial_positions : result (Z -> option Z) :=
  eid_col <- pick_col (stop_columns stop)
               ["Elevator"; "elevator"; "CarID"; "CarId"; "LiftID"; "ID"]%string
               false ;;
  floor_col <- pick_col (stop_columns stop)
                 ["Floor"; "floor"; "StopFloor"; "AtFloor"; "CurrentFloor"]%string
                 false ;;
  let pos : Z -> option Z :=
    fun i => if (0 <=? i) && (i <? N_ELEVATORS) then Some LOBBY_FLOOR else None in
  let empty :=
    match stop_columns stop, stop_rows stop with
    | [], _ | _, [] => true
    | _, _ => false
    end in
  match empty, eid_col, floor_col with
  | false, Some _, Some _ =>
      if existsb (String.eqb "Time") (stop_columns stop) then
        let s := sort_values stop_time
                   (filter (fun r => Qleb (stop_time r) start_time) (stop_rows stop)) in
        Ok (fold_left
              (fun (pos : Z -> option Z) (r : StopRow) =>
                 fun i => if i =? stop_elevator r then Some (stop_floor r) else pos i)
              s pos)
      else Raise KeyError
  | _, _, _ => Ok pos
  end.

(** [demand_lookup.get(cl)]: the floors and weights of one cluster. *)
Definition demand_lookup (cl : Z) : option (list Z * list Q) :=
  match filter (fun d => cluster d =? cl) (demand_rows demand_by_cluster_floor) with
  | [] => None
  | dfc =>
      let floors := map d_floor dfc in
      let w := map cnt dfc in
      let w := if Qleb (Qsum w) 0 then map (fun _ => 1%Q) w else w in
      Some (floors, w)
  end.

(** [get_cluster_at] *)
Definition get_cluster_at (t : Q) : result Z :=
  let tt := inject_Z (floor_5min t) in
  let feats_idx := sort_values fst (feat_rows feats) in
  match filter (fun r => Qeqb (fst r) tt) feats_idx with
  | [row] => Ok (predict (snd row))
  | _ :: _ :: _ => Raise (ValueError "X has a different number of features")
  | [] =>
      match rev (filter (fun r => Qleb (fst r) tt) feats_idx) with
      | row :: _ => Ok (predict (snd row))
      | [] => Raise IndexError
      end
  end.

(** The reposition [if st.floor != tgt: ...] of one idle car at [t]. *)
Definition reposition (t : Q) (tgt : Z) (st : ElevatorState) : ElevatorState :=
  if floor st =? tgt then st
  else mkElevatorState tgt (t + travel_time_seconds (floor st) tgt seconds_per_floor)%Q.

(** The quantile targets of the [dynamic] policy for [k] idle cars. *)
Definition dynamic_targets (hall_sim : list HallCall) (cl : Z) (k : Z)
  : result (list Z) :=
  let fw :=
    match demand_lookup cl with
    | Some fw => fw
    | None =>
        let fs := map Floor hall_sim in
        let lo := Zlist_min (hd 0 fs) (tl fs) in
        let hi := Zlist_max (hd 0 fs) (tl fs) in
        let floors := map (fun i => lo + i) (py_range (hi + 1 - lo)) in
        (floors, map (fun _ => 1%Q) floors)
    end in
  let sorted := sort_values (fun p => inject_Z (fst p)) (combine (fst fw) (snd fw)) in
  let floors2 := map fst sorted in
  let w2 := map snd sorted in
  let cw := map (fun c => (c / (Qsum w2 + (1 # 1000000000000)))%Q) (cumsum_from 0 w2) in
  let qs := map (fun i => ((inject_Z i + (1#2)) / inject_Z k)%Q) (py_range k) in
  mapM (fun q => match nth_error floors2 (searchsorted cw q) with
                 | Some f => Ok f
                 | None => Raise IndexError
                 end) qs.

(** [apply_parking_policy] at the decision time [t]. *)
Definition apply_parking_policy (hall_sim : list HallCall) (t : Q)
           (elevators : list ElevatorState) : result (list ElevatorState) :=
  let idle :=
    filter (fun e => Qleb (available_time (nth e elevators (mkElevatorState 0 0))) t)
           (seq 0 (List.length elevators)) in
  match idle with
  | [] => Ok elevators
  | _ :: _ =>
      if String.eqb strategy "last_stop" then Ok elevators
      else if String.eqb strategy "lobby" then
        Ok (fold_left
              (fun els e =>
                 set_car els e
                   (reposition t LOBBY_FLOOR (nth e els (mkElevatorState 0 0))))
              idle elevators)
      else if String.eqb strategy "dynamic" then
        cl <- get_cluster_at t ;;
        targets <- dynamic_targets hall_sim cl (Z.of_nat (List.length idle)) ;;
        Ok (fold_left
              (fun els (et : nat * Z) =>
                 set_car els (fst et)
                   (reposition t (snd et) (nth (fst et) els (mkElevatorState 0 0))))
              (combine idle targets) elevators)
      else Ok elevators
  end.

(** [while next_dec is not None and next_dec <= call_time: ...]; the
    decision times still to come are the state of [dt_iter]. *)
Fixpoint run_decisions (hall_sim : list HallCall) (call_time : Q)
         (pending : list Q) (elevators : list ElevatorState)
  : result (list Q * list ElevatorState) :=
  match pending with
  | [] => Ok ([], elevators)
  | next_dec :: pending' =>
      if Qleb next_dec call_time then
        elevators' <- apply_parking_policy hall_sim next_dec elevators ;;
        run_decisions hall_sim call_time pending' elevators'
      else Ok (pending, elevators)
  end.

(** The body of [for _, r in hall_sim.iterrows()] for one call: the
    wait it records and the fleet it leaves. *)
Definition serve_call (r : HallCall) (elevators : list ElevatorState)
  : result (Q * nat * list ElevatorState) :=
  match choose_best seconds_per_floor (Time r) (Floor r) elevators 0 None with
  | None => Raise TypeError
  | Some (best_e, best_arrival) =>
      Ok ((best_arrival - Time r)%Q, best_e,
          set_car elevators best_e
                  (mkElevatorState (Floor r) (best_arrival + door_time)%Q))
  end.

(** The call loop; the result is the list [waits]. *)
Fixpoint run_calls (hall_sim todo : list HallCall) (pending : list Q)
         (elevators : list ElevatorState) : result (list Q) :=
  match todo with
  | [] => Ok []
  | r :: todo' =>
      dec <- run_decisions hall_sim (Time r) pending elevators ;;
      served <- serve_call r (snd dec) ;;
      waits <- run_calls hall_sim todo' (fst dec) (snd served) ;;
      Ok (fst (fst served) :: waits)
  end.

(** [hall_sim]: the calls of the window, in time order. *)
Definition window (rows : list HallCall) : list HallCall :=
  filter (fun c => Qleb start_time (Time c) && Qleb (Time c) end_time)
         (sort_values Time rows).

(** The set-up [for cl, dfc in demand_by_cluster_floor.groupby("cluster")]
    as far as it can fail: the grouping needs the column ["cluster"], and
    the body reads every group through ["floor"] and ["cnt"].  It runs
    for every strategy. *)
Definition demand_lookup_columns : result unit :=
  if existsb (String.eqb "cluster") (demand_columns demand_by_cluster_floor) then
    match demand_rows demand_by_cluster_floor with
    | [] => Ok tt
    | _ :: _ =>
        if existsb (String.eqb "floor") (demand_columns demand_by_cluster_floor) then
          if existsb (String.eqb "cnt") (demand_columns demand_by_cluster_floor)
          then Ok tt
          else Raise KeyError
        else Raise KeyError
    end
  else Raise KeyError.

(** [feats.set_index("Time")], also run for every strategy. *)
Definition feats_index_columns : result unit :=
  if existsb (String.eqb "Time") (feat_columns feats) then Ok tt else Raise KeyError.

(** The per-call log of a run: [None] when the window holds no call. *)
Definition simulate_waits : result (option (list Q)) :=
  h_floor <- pick_col (hall_columns hall) floor_candidates true ;;
  if existsb (String.eqb "Time") (hall_columns hall) then
    match window (hall_rows hall) with
    | [] => Ok None
    | hall_sim =>
        init_pos <- infer_initial_positions ;;
        let elevators :=
          map (fun e => mkElevatorState
                          (match init_pos e with Some f => f | None => LOBBY_FLOOR end)
                          start_time)
              (py_range N_ELEVATORS) in
        _ <- demand_lookup_columns ;;
        _ <- feats_index_columns ;;
        let decision_times :=
          map inject_Z (date_range_5min (floor_5min start_time) (ceil_5min end_time)) in
        waits <- run_calls hall_sim hall_sim decision_times elevators ;;
        Ok (Some waits)
    end
  else Raise KeyError.

Definition simulate : result Metrics :=
  log <- simulate_waits ;;
  match log with
  | None => Ok (mkMetrics NaN NaN NaN 0)
  | Some waits =>
      Ok (mkMetrics
            (Val (mean waits))
            (Val (percentile waits 95))
            (Val (mean (map (fun x => if Qleb long_wait_threshold x then 1%Q else 0%Q)
                            waits) * 100)%Q)
            (Z.of_nat (List.length waits)))
  end.

End Simulator.

(** *** Rule modes from the hall calls alone *)

(** [compute_theta1], the quantile [q] being a fraction. *)
Definition compute_theta1 (count_series : list Q) (q : Q) : Q :=
  let nonzero := filter (fun c => Qltb 0 c) count_series in
  let theta :=
    if 30 <=? Z.of_nat (List.length nonzero) then percentile nonzero (100 * q)%Q
    else 1%Q in
  if Qltb 1 theta then theta else 1%Q.

(** The columns of a row of the minimal 5-minute features. *)
Record MinFeat : Type := mkMinFeat {
  count : Q;
  up_ratio : Q;
  hour : Z;
  is_weekend : Z
}.

Definition classify_rule_mode_from_minfeat (row : MinFeat) (theta1 : Q) : string :=
  let C := count row in
  let up := up_ratio row in
  if ((hour row <=? 6) || (22 <=? hour row)) && Qleb C theta1 then "Idle/Low"
  else if (is_weekend row =? 1)
          && Qleb C (if Qltb (theta1 + 1) 2 then 2%Q else (theta1 + 1)%Q)
  then "Idle/Low"
  else if Qleb 6 C && Qleb (65 # 100) up then "Up-Peak"
  else if Qleb 6 C && Qleb up (35 # 100) then "Down-Peak"
  else if Qleb 6 C && Qltb (35 # 100) up && Qltb up (65 # 100) then "Mixed"
  else "Normal".

(** The loop of [np.searchsorted(arr, t, side="right")]: a bisection
    between [lo] and [hi] that moves [lo] past the middle entry when that
    entry is not after [t], and [hi] down to it otherwise.  Every turn
    shrinks the interval, so [hi - lo] turns are all the loop can take;
    the guard is still tested on every turn. *)
Fixpoint bisect_right (fuel : nat) (arr : list Q) (t : Q) (lo hi : nat) : nat :=
  match fuel with
  | O => lo
  | S fuel' =>
      if Nat.ltb lo hi then
        let mid := (lo + Nat.div2 (hi - lo))%nat in
        if Qleb (nth mid arr 0%Q) t
        then bisect_right fuel' arr t (S mid) hi
        else bisect_right fuel' arr t lo mid
      else lo
  end.

(** [np.searchsorted(arr, t, side="right")].  On a non-decreasing [arr]
    it is the number of entries that are not after [t]; on any other
    array it is whatever the bisection ends on. *)
Definition searchsorted_right (arr : list Q) (t : Q) : nat :=
  bisect_right (List.length arr) arr t 0 (List.length arr).

(** [get_rule_label_at] on the timeline of (Time, mode_rule) rows. *)
Definition get_rule_label_at (t : Q) (rule_timeline : list (Q * string))
  : result string :=
  let idx := Z.of_nat (searchsorted_right (map fst rule_timeline) t) - 1 in
  if idx <? 0 then Ok "Normal"%string
  else match nth_error rule_timeline (Z.to_nat idx) with
       | Some row => Ok (snd row)
       | None => Raise IndexError
       end.

End StressTests.

(** ** szeto_model_2026/scripts/backtest_task3.py *)
Module BacktestTask3.

Import Task3Parking.

Definition N_ELEVATORS : Z := 4.
Definition SERVICE_PER_ELEV_PER_INTERVAL : Q := 6 # 1.
Definition BASELINE_WAIT_S : Q := 10 # 1.
Definition REPOSITION_TIME_PER_MOVE_S : Q := 30 # 1.
Definition LONG_WAIT_THRESHOLD_S : Q := 60 # 1.
Definition TRAIN_FRACTION : Q := 8 # 10.

(** The keyword arguments of [run_backtest] that the loop reads. *)
Record Params : Type := mkParams {
  n_elevators : Z;
  service_per_elev : Q;
  baseline_wait_s : Q;
  reposition_time_per_move_s : Q
}.

(** One entry of [records]. *)
Record Entry : Type := mkEntry {
  observed_interval : Z;
  pred_interval : Z;
  state : string;
  y_hat : Q;
  y_true : Q;
  allocated_elevators : Z;
  capacity : Q;
  awt_s : Q;
  moves_count : Z;
  reposition_time_s : Q
}.

(** [l[i]] with Python's indexing from the end. *)
Definition py_nth {A : Type} (l : list A) (i : Z) : result A :=
  let n := Z.of_nat (List.length l) in
  let j := if i <? 0 then i + n else i in
  if (j <? 0) || (n <=? j) then Raise IndexError
  else match nth_error l (Z.to_nat j) with
       | Some x => Ok x
       | None => Raise IndexError
       end.

(** [l[:n]] *)
Definition py_take {A : Type} (l : list A) (n : Z) : list A :=
  if n <? 0 then firstn (Z.to_nat (Z.of_nat (List.length l) + n)) l
  else firstn (Z.to_nat n) l.

(** The allocation carried to the next interval: the desired counts
    expanded zone by zone, padded with Lobby, cut to the fleet size. *)
Definition next_alloc (n_elevators : Z) (desired : zdict Z) : list Zone :=
  let new_alloc := flat_map (fun z => py_repeat z (desired z)) ZONES in
  let padded :=
    new_alloc ++ py_repeat Lobby (n_elevators - Z.of_nat (List.length new_alloc)) in
  py_take padded n_elevators.

(** The body of the loop [for pos in range(split, n)] once the forecast
    [yhat] and the state of the previous interval are known. *)
Definition backtest_step (p : Params) (last_ts next_ts : Z) (st : string)
           (yhat ytrue : Q) (current_alloc : list Zone)
  : result (Entry * list Zone) :=
  plan <- parking_policy st yhat (n_elevators p) (Some current_alloc) ;;
  let desired := desired_alloc plan in
  let allocated := Zsum (map desired ZONES) in
  let cap := (inject_Z allocated * service_per_elev p)%Q in
  let cap := if Qltb cap (1 # 1000000) then (1 # 1000000)%Q else cap in
  let overload := ((ytrue - cap) / cap)%Q in
  let awt := (baseline_wait_s p + 60 * (if Qltb 0 overload then overload else 0))%Q in
  let n_moves := Z.of_nat (List.length (moves plan)) in
  Ok (mkEntry last_ts next_ts st yhat ytrue allocated cap awt n_moves
              (inject_Z n_moves * reposition_time_per_move_s p)%Q,
      next_alloc (n_elevators p) desired).

(** The loop over the test positions; [series] and [states] are the full
    series and its labels, [fit] the model trained on the first part. *)
Fixpoint backtest_loop (p : Params) (fit : Task1Model.Fit)
         (series : list Task1Model.Slot) (states : list string)
         (positions : list Z) (current_alloc : list Zone) : result (list Entry) :=
  match positions with
  | [] => Ok []
  | pos :: positions' =>
      let prev_pos := pos - 1 in
      last <- py_nth series prev_pos ;;
      next <- py_nth series pos ;;
      pred <- Task1Model.predict_next (Task1Model.interval_start last)
                                      (Task1Model.count last) fit ;;
      st <- py_nth states prev_pos ;;
      step <- backtest_step p (Task1Model.interval_start last)
                            (Task1Model.interval_start next) st (snd pred)
                            (inject_Z (Task1Model.count next)) current_alloc ;;
      rest <- backtest_loop p fit series states positions' (snd step) ;;
      Ok (fst step :: rest)
  end.

End BacktestTask3.

(** ** Views of the call-level log of the parking evaluator *)
Module LogViews.

Import EvaluatorParking.

(** The columns of a log row other than the strategy name. *)
Definition columns (row : LogRow) : Q * Q * string * Q :=
  (call_time row, wait_time row, state row, empty_travel row).

(** [log[log.strategy == strat]] *)
Definition rows_of (strat : string) (log : list LogRow) : list LogRow :=
  filter (fun row => String.eqb (strategy row) strat) log.

End LogViews.

(** ** Reference readings used by the statements below *)

(** A stable sort by key: one admissible behaviour of the sort parameter of
    [StressTests], used wherever a run is evaluated on concrete data. *)
Definition stable_sort_values (A : Type) (key : A -> Q) (l : list A) : list A :=
  sort_by (fun a b => Qleb (key a) (key b)) l.

(** What the simulator needs of its sort: the rows it got, ordered by key. *)
Definition sorts (sv : forall A : Type, (A -> Q) -> list A -> list A) : Prop :=
  forall (A : Type) (key : A -> Q) (l : list A),
    Permutation (sv A key l) l
    /\ StronglySorted (fun a b => (key a <= key b)%Q) (sv A key l).

(** The order of two reported floats; it fails when either is NaN. *)
Definition metric_le (m1 m2 : metric) : Prop :=
  match m1, m2 with
  | Val a, Val b => (a <= b)%Q
  | _, _ => False
  end.

(** The linear interpolation of [np.percentile] at the virtual index [p] of
    the sorted sample [s]. *)
Definition interpolate (s : list Q) (p : Q) : Q :=
  let n := Z.of_nat (List.length s) in
  let lo := Qfloor p in
  let hi := Z.min (lo + 1) (n - 1) in
  let a := nth (Z.to_nat lo) s (0#1)%Q in
  let b := nth (Z.to_nat hi) s (0#1)%Q in
  (a + (b - a) * (p - inject_Z lo))%Q.

Module Readings.

Import Task2Classifier.

(** A prioritised list of (predicate, label) pairs, first match wins. *)
Fixpoint first_match (rules : list ((Row -> bool) * string)) (default : string)
         (row : Row) : string :=
  match rules with
  | [] => default
  | (p, label) :: rules' => if p row then label else first_match rules' default row
  end.

(** The rule list of [classify_interval] as the code orders it. *)
Definition rule_list (thr : Thresholds) : list ((Row -> bool) * string) :=
  [ (fun row => Qltb (count row) (theta1 thr), "Night Idle"%string);
    (fun row => w row =? 0, "Weekend Low-Demand"%string);
    (fun row => Qleb (theta2 thr) (count row) && Qleb (alpha1 thr) (r row)
                && Qleb (beta1 thr) (p1 row), "Morning Up-Peak"%string);
    (fun row => Qleb (theta3 thr) (count row) && Qleb (r row) (alpha2 thr),
     "Evening Down-Peak"%string);
    (fun row => Qleb (theta2 thr) (count row) && Qltb (alpha2 thr) (r row)
                && Qltb (r row) (alpha3 thr), "Lunch Down-Peak"%string) ].

(** The rule list in the words of the specification: the second rule asks
    for a weekend slot that is also low, for a reading [low] of "low". *)
Definition rule_list_as_specified (low : Row -> Thresholds -> bool)
           (thr : Thresholds) : list ((Row -> bool) * string) :=
  [ (fun row => Qltb (count row) (theta1 thr), "Night Idle"%string);
    (fun row => (w row =? 0) && low row thr, "Weekend Low-Demand"%string);
    (fun row => Qleb (theta2 thr) (count row) && Qleb (alpha1 thr) (r row)
                && Qleb (beta1 thr) (p1 row), "Morning Up-Peak"%string);
    (fun row => Qleb (theta3 thr) (count row) && Qleb (r row) (alpha2 thr),
     "Evening Down-Peak"%string);
    (fun row => Qleb (theta2 thr) (count row) && Qltb (alpha2 thr) (r row)
                && Qltb (r row) (alpha3 thr), "Lunch Down-Peak"%string) ].

Definition classify_as_specified (low : Row -> Thresholds -> bool)
           (row : Row) (thr : Thresholds) : string :=
  first_match (rule_list_as_specified low thr) "Afternoon Mixed" row.

(** The five tests of the cascade, as propositions. *)
Definition idle_test (row : Row) (thr : Thresholds) : Prop :=
  (count row < theta1 thr)%Q.
Definition weekend_test (row : Row) : Prop := w row = 0.
Definition morning_test (row : Row) (thr : Thresholds) : Prop :=
  (theta2 thr <= count row)%Q /\ (alpha1 thr <= r row)%Q /\ (beta1 thr <= p1 row)%Q.
Definition evening_test (row : Row) (thr : Thresholds) : Prop :=
  (theta3 thr <= count row)%Q /\ (r row <= alpha2 thr)%Q.
Definition lunch_test (row : Row) (thr : Thresholds) : Prop :=
  (theta2 thr <= count row)%Q /\ (alpha2 thr < r row)%Q /\ (r row < alpha3 thr)%Q.

(** "Low" read as: below the high-activity threshold. *)
Definition below_high (row : Row) (thr : Thresholds) : bool :=
  Qltb (count row) (theta2 thr).

Import StressTests.

(** The dispatch rule in the words of the specification: car [e] has the
    minimum earliest-possible arrival, and every car with a lower index
    arrives strictly later. *)
Definition min_arrival_lowest_index (seconds_per_floor call_time : Q)
           (origin_floor : Z) (cars : list ElevatorState) (e : nat) : Prop :=
  let arr := fun i =>
    arrival seconds_per_floor call_time origin_floor (nth i cars (mkElevatorState 0 0)) in
  (e < List.length cars)%nat
  /\ (forall i, (i < List.length cars)%nat -> (arr e <= arr i)%Q)
  /\ (forall i, (i < e)%nat -> (arr e < arr i)%Q).

(** What the scan of [choose_best] knows of its running best once it has
    seen the first [seen] cars of [all]. *)
Definition scan_invariant (seconds_per_floor call_time : Q) (origin_floor : Z)
           (all : list ElevatorState) (seen : nat) (best : option (nat * Q)) : Prop :=
  let arr := fun i =>
    arrival seconds_per_floor call_time origin_floor (nth i all (mkElevatorState 0 0)) in
  match best with
  | None => seen = O
  | Some (be, ba) =>
      (be < seen)%nat
      /\ ba = arr be
      /\ (forall i, (i < seen)%nat -> (ba <= arr i)%Q)
      /\ (forall i, (i < be)%nat -> (ba < arr i)%Q)
  end.

(** A per-call log in the words of the specification.  From a fleet
    [elevators], with the decision epochs [pending] still to come, the
    calls [todo] are logged as [waits] when, for every call in turn, the
    parking decisions due by the call time are applied, the call is given
    to the car with the minimum earliest-possible arrival, ties going to
    the lowest car index, the call waits from its time to that arrival,
    and the car is left at the call floor, free after the door time. *)
Inductive dispatch_log (FeatRow : Type) (predict : FeatRow -> Z)
          (sort_values : forall A : Type, (A -> Q) -> list A -> list A)
          (strategy : string) (feats : FeatFrame FeatRow)
          (demand_by_cluster_floor : DemandFrame)
          (seconds_per_floor door_time : Q) (hall_sim : list HallCall)
  : list HallCall -> list Q -> list ElevatorState -> list Q -> Prop :=
| dispatch_done : forall pending elevators,
    dispatch_log predict sort_values strategy feats demand_by_cluster_floor
                 seconds_per_floor door_time hall_sim [] pending elevators []
| dispatch_call : forall r todo pending elevators pending' parked e waits,
    run_decisions predict sort_values strategy feats demand_by_cluster_floor
                  seconds_per_floor hall_sim (Time r) pending elevators
    = Ok (pending', parked) ->
    min_arrival_lowest_index seconds_per_floor (Time r) (Floor r) parked e ->
    dispatch_log predict sort_values strategy feats demand_by_cluster_floor
                 seconds_per_floor door_time hall_sim todo pending'
                 (set_car parked e
                    (mkElevatorState
                       (Floor r)
                       (arrival seconds_per_floor (Time r) (Floor r)
                                (nth e parked (mkElevatorState 0 0)) + door_time)%Q))
                 waits ->
    dispatch_log predict sort_values strategy feats demand_by_cluster_floor
                 seconds_per_floor door_time hall_sim (r :: todo) pending elevators
                 ((arrival seconds_per_floor (Time r) (Floor r)
                           (nth e parked (mkElevatorState 0 0)) - Time r)%Q :: waits).

End Readings.

(** ** Concrete runs *)
Module Scenarios.

Import StressTests.

(** One hall call at floor 5 at time 0. *)
Definition single_call : HallCall := mkHallCall 0 5 "Up".

Definition frame_of (calls : list HallCall) : HallFrame :=
  mkHallFrame ["Time"; "Floor"; "Direction"]%string calls.

(** No stop record: every car starts at the lobby floor. *)
Definition no_stops : StopFrame := mkStopFrame [] [].

(** A feature table and a demand table with their columns and no row. *)
Definition no_feats : FeatFrame unit := mkFeatFrame ["Time"]%string [].

Definition no_demand : DemandFrame :=
  mkDemandFrame ["cluster"; "floor"; "cnt"]%string [].

(** A run of the simulator with the base parameters
    ([seconds_per_floor = 1.5], [door_time = 8.0]), a stable sort, and
    feature and demand tables without rows. *)
Definition run_waits (strategy : string) (calls : list HallCall)
           (start_time end_time : Q) : result (option (list Q)) :=
  simulate_waits (fun _ : unit => 0) stable_sort_values strategy (frame_of calls)
                 no_stops no_feats no_demand start_time end_time
                 SECONDS_PER_FLOOR_BASE DOOR_TIME_BASE.

Definition run (strategy : string) (calls : list HallCall)
           (start_time end_time : Q) : result Metrics :=
  simulate (fun _ : unit => 0) stable_sort_values strategy (frame_of calls)
           no_stops no_feats no_demand start_time end_time
           SECONDS_PER_FLOOR_BASE DOOR_TIME_BASE LONG_WAIT_THRESHOLD_BASE.

(** The call loop of the simulator on a given fleet, with the decision
    epochs still to come. *)
Definition run_fleet (strategy : string) (calls : list HallCall)
           (decision_times : list Q) (fleet : list ElevatorState)
  : result (list Q) :=
  run_calls (fun _ : unit => 0) stable_sort_values strategy no_feats no_demand
            SECONDS_PER_FLOOR_BASE DOOR_TIME_BASE calls calls decision_times fleet.

(** Eight calls at floor 9 in the first seconds, which take all eight
    cars up, then one call at the lobby after the next decision epoch. *)
Definition up_then_lobby : list HallCall :=
  map (fun t => mkHallCall (inject_Z t) 9 "Up") (py_range 8)
      ++ [mkHallCall 400 1 "Up"].

(** The fleet at the start of a run without stop records. *)
Definition fleet_at_lobby : list ElevatorState :=
  map (fun _ => mkElevatorState LOBBY_FLOOR 0) (py_range N_ELEVATORS).

(** Canonical form of a list of rationals, to compare logs. *)
Definition reduced (l : list Q) : list Q := map Qred l.

End Scenarios.

(** * Facts and theorems *)

Unset Implicit Arguments.

(** ** Booleans on [Q] *)
Lemma Qleb_le (a b : Q) : Qleb a b = true <-> (a <= b)%Q.
Proof. apply Qle_bool_iff. Qed.

Lemma Qleb_gt (a b : Q) : Qleb a b = false <-> (b < a)%Q.
Proof.
  unfold Qleb. split; intro H.
  - apply Qnot_le_lt. intro Hle. apply Qle_bool_iff in Hle. congruence.
  - destruct (Qle_bool a b) eqn:E; [|reflexivity].
    apply Qle_bool_iff in E. exfalso. apply (Qlt_not_le _ _ H E).
Qed.

Lemma Qltb_lt (a b : Q) : Qltb a b = true <-> (a < b)%Q.
Proof.
  unfold Qltb. rewrite negb_true_iff. apply Qleb_gt.
Qed.

Lemma Qltb_ge (a b : Q) : Qltb a b = false <-> (b <= a)%Q.
Proof.
  unfold Qltb. rewrite negb_false_iff. apply Qleb_le.
Qed.

Lemma Qeqb_eq (a b : Q) : Qeqb a b = true <-> (a == b)%Q.
Proof. apply Qeq_bool_iff. Qed.

(** ** The insertion sort *)
Section SortFacts.
Variable A : Type.
Variable leb : A -> A -> bool.

Lemma insert_sorted_perm (x : A) (l : list A) :
  Permutation (insert_sorted leb x l) (x :: l).
Proof.
  induction l as [|y l IH]; simpl.
  - apply Permutation_refl.
  - destruct (leb x y).
    + apply Permutation_refl.
    + eapply Permutation_trans; [apply perm_skip, IH | apply perm_swap].
Qed.

Lemma sort_by_perm (l : list A) : Permutation (sort_by leb l) l.
Proof.
  induction l as [|x l IH]; simpl.
  - constructor.
  - eapply Permutation_trans; [apply insert_sorted_perm | apply perm_skip, IH].
Qed.

Lemma sort_by_length (l : list A) : List.length (sort_by leb l) = List.length l.
Proof. apply Permutation_length, sort_by_perm. Qed.

Lemma sort_by_In (l : list A) (x : A) : In x (sort_by leb l) <-> In x l.
Proof.
  split; apply Permutation_in; [|apply Permutation_sym]; apply sort_by_perm.
Qed.

Variable R : A -> A -> Prop.
Hypothesis leb_R : forall a b, leb a b = true -> R a b.
Hypothesis leb_total : forall a b, leb a b = false -> R b a.
Hypothesis R_trans : forall a b c, R a b -> R b c -> R a c.

Lemma insert_sorted_sorted (x : A) (l : list A) :
  StronglySorted R l -> StronglySorted R (insert_sorted leb x l).
Proof.
  induction 1 as [|y l Hs IH Hall]; simpl.
  - constructor; constructor.
  - destruct (leb x y) eqn:E.
    + constructor.
      * constructor; assumption.
      * constructor; [apply leb_R, E|].
        eapply Forall_impl; [|exact Hall].
        intros z Hz. eapply R_trans; [apply leb_R, E | exact Hz].
    + constructor; [exact IH|].
      apply (Permutation_Forall (Permutation_sym (insert_sorted_perm x l))).
      constructor; [apply leb_total, E | exact Hall].
Qed.

Lemma sort_by_sorted (l : list A) : StronglySorted R (sort_by leb l).
Proof.
  induction l as [|x l IH]; simpl.
  - constructor.
  - apply insert_sorted_sorted, IH.
Qed.
End SortFacts.

Lemma stable_sort_values_sorts : sorts stable_sort_values.
Proof.
  intros A key l. unfold stable_sort_values. split.
  - apply sort_by_perm.
  - apply sort_by_sorted.
    + intros a b H. apply Qleb_le, H.
    + intros a b H. apply Qleb_gt in H. apply Qlt_le_weak, H.
    + intros a b c. apply Qle_trans.
Qed.

(** ** Zone allocation, [task3_parking.py] *)
Module Task3ParkingFacts.

Import Task3Parking.

Lemma zsum_unfold (d : zdict Z) : zsum d = d Lobby + d Mid + d Upper.
Proof. unfold zsum, zvalues, ZONES, Zsum. simpl. lia. Qed.

Lemma zsum_zupd (d : zdict Z) (z : Zone) (v : Z) :
  zsum (zupd d z v) = zsum d - d z + v.
Proof.
  rewrite !zsum_unfold. unfold zupd. destruct z; simpl; lia.
Qed.

(** Truncation is the floor on non-negative rationals. *)
Lemma Qtrunc_nonneg (q : Q) : (0 <= q)%Q -> Qtrunc q = Qfloor q.
Proof.
  destruct q as [n d]. unfold Qle, Qtrunc, Qfloor. simpl. intro H.
  apply Z.quot_div_nonneg; lia.
Qed.

Lemma Qfloor_nonneg (q : Q) : (0 <= q)%Q -> 0 <= Qfloor q.
Proof.
  intro H. change 0 with (Qfloor 0). apply Qfloor_resp_le, H.
Qed.

(** The three sorted fractions are the three zones in some order. *)
Lemma fracs_sorted_zones (fr : zdict Q) :
  In (map fst (sort_by frac_leb (map (fun z => (z, fr z)) ZONES)))
     [ [Lobby; Mid; Upper]; [Lobby; Upper; Mid]; [Mid; Lobby; Upper];
       [Mid; Upper; Lobby]; [Upper; Lobby; Mid]; [Upper; Mid; Lobby] ].
Proof.
  unfold ZONES. cbn [map sort_by insert_sorted].
  destruct (frac_leb (Mid, fr Mid) (Upper, fr Upper));
    cbn [insert_sorted];
    destruct (frac_leb (Lobby, fr Lobby) (Mid, fr Mid));
    cbn [insert_sorted];
    destruct (frac_leb (Lobby, fr Lobby) (Upper, fr Upper));
    cbn [insert_sorted map fst In]; tauto.
Qed.

Lemma nth_error_map_fst {A B : Type} (l : list (A * B)) (i : nat) :
  nth_error (map fst l) i = option_map fst (nth_error l i).
Proof. apply nth_error_map. Qed.

(** Handing out [r <= 3] extra cars over a list that names each zone once
    raises the total by [r]. *)
Lemma bump_first_total (fracs : list (Zone * Q)) (floored : zdict Z) (r : Z) :
  In (map fst fracs)
     [ [Lobby; Mid; Upper]; [Lobby; Upper; Mid]; [Mid; Lobby; Upper];
       [Mid; Upper; Lobby]; [Upper; Lobby; Mid]; [Upper; Mid; Lobby] ] ->
  r <= 3 ->
  exists alloc,
    bump_first (py_range r) fracs floored = Ok alloc
    /\ zsum alloc = zsum floored + Z.max 0 r
    /\ forall z, floored z <= alloc z.
Proof.
  intros Hz Hr.
  assert (Hcases : r <= 0 \/ r = 1 \/ r = 2 \/ r = 3) by lia.
  destruct fracs as [|[z1 q1] [|[z2 q2] [|[z3 q3] [|? ?]]]];
    simpl in Hz; try (repeat destruct Hz as [Hz|Hz]; discriminate || contradiction).
  destruct Hcases as [H0|[H1|[H2|H3]]].
  - exists floored. unfold py_range. replace (Z.to_nat r) with O by lia.
    simpl. repeat split; lia.
  - subst r. unfold py_range. simpl.
    eexists. split; [reflexivity|]. rewrite zsum_zupd. split; [lia|].
    intro z. unfold zupd. destruct (zone_eqb z1 z) eqn:E; [|lia].
    destruct z1, z; try discriminate; lia.
  - subst r. unfold py_range. simpl.
    eexists. split; [reflexivity|]. rewrite !zsum_unfold.
    repeat destruct Hz as [Hz|Hz]; try contradiction;
      injection Hz as <- <- <-; unfold zupd; simpl;
      (split; [lia | intro z; destruct z; simpl; lia]).
  - subst r. unfold py_range. simpl.
    eexists. split; [reflexivity|]. rewrite !zsum_unfold.
    repeat destruct Hz as [Hz|Hz]; try contradiction;
      injection Hz as <- <- <-; unfold zupd; simpl;
      (split; [lia | intro z; destruct z; simpl; lia]).
Qed.

(** The rounding step alone: any non-negative raw shares that add up to
    [n] are rounded to whole cars that add up to [n]. *)
Lemma largest_remainder_total (raw : zdict Q) (n : Z) :
  (forall z, 0 <= raw z)%Q ->
  (raw Lobby + raw Mid + raw Upper == inject_Z n)%Q ->
  let floored : zdict Z := fun z => Qtrunc (raw z) in
  exists alloc,
    bump_first (py_range (n - Zsum (zvalues floored)))
               (sort_by frac_leb
                  (map (fun z => (z, (raw z - inject_Z (floored z))%Q)) ZONES))
               floored = Ok alloc
    /\ zsum alloc = n
    /\ forall z, 0 <= alloc z.
Proof.
  intros Hnn Hsum floored.
  assert (Hfl : forall z, floored z = Qfloor (raw z)).
  { intro z. apply Qtrunc_nonneg, Hnn. }
  assert (Hlo : forall z, (inject_Z (floored z) <= raw z)%Q).
  { intro z. rewrite Hfl. apply Qfloor_le. }
  assert (Hhi : forall z, (raw z < inject_Z (floored z + 1))%Q).
  { intro z. rewrite Hfl. apply Qlt_floor. }
  assert (Hf0 : forall z, 0 <= floored z).
  { intro z. rewrite Hfl. apply Qfloor_nonneg, Hnn. }
  fold (zsum floored).
  assert (Hle : zsum floored <= n).
  { rewrite zsum_unfold. rewrite Zle_Qle. rewrite !inject_Z_plus.
    rewrite <- Hsum.
    pose proof (Hlo Lobby). pose proof (Hlo Mid). pose proof (Hlo Upper). lra. }
  assert (Hlt : n < zsum floored + 3).
  { rewrite zsum_unfold. rewrite Zlt_Qlt. rewrite !inject_Z_plus.
    rewrite <- Hsum.
    pose proof (Hhi Lobby) as H1. pose proof (Hhi Mid) as H2.
    pose proof (Hhi Upper) as H3. rewrite inject_Z_plus in H1, H2, H3.
    change (inject_Z 3) with 3%Q. change (inject_Z 1) with 1%Q in *. lra. }
  destruct (@bump_first_total
              (sort_by frac_leb
                 (map (fun z => (z, (raw z - inject_Z (floored z))%Q)) ZONES))
              floored (n - zsum floored)) as [alloc [Ha [Hs Hz]]].
  - apply (fracs_sorted_zones (fun z => (raw z - inject_Z (floored z))%Q)).
  - lia.
  - exists alloc. split; [exact Ha|]. split; [lia|].
    intro z. specialize (Hz z). specialize (Hf0 z). lia.
Qed.

End Task3ParkingFacts.

Module Task3ProportionFacts.

Import Task3Parking Task3ParkingFacts.

Lemma templates_get_cases (state : string) :
  In (templates_get templates state) (afternoon_mixed :: map snd templates).
Proof.
  unfold templates. cbn [templates_get map snd].
  repeat match goal with
         | |- context [String.eqb ?a state] => destruct (String.eqb a state)
         end; cbn [In]; tauto.
Qed.

(** The proportions are shares: non-negative and adding up to one. *)
Lemma proportions_are_shares (state : string) (y_hat : Q) :
  let props := _proportions_from_state state y_hat in
  (forall z, 0 <= props z)%Q
  /\ (props Lobby + props Mid + props Upper == 1)%Q.
Proof.
  unfold _proportions_from_state.
  pose proof (templates_get_cases state) as Hc.
  set (tpl := templates_get templates state) in *.
  clearbody tpl. cbn [map snd templates In] in Hc.
  destruct (Qleb y_hat 1); [|destruct (Qleb 10 y_hat)];
    repeat (destruct Hc as [Hc|Hc]; [subst tpl|]); try contradiction;
    (split; [intro z; destruct z; vm_compute; discriminate
            | vm_compute; reflexivity]).
Qed.

(** [compute_desired_allocation] returns whole, non-negative car counts
    that add up to the fleet size, for every state label, forecast and
    fleet size. *)
Lemma compute_desired_allocation_total (state : string) (y_hat : Q) (n : Z) :
  0 <= n ->
  exists alloc,
    compute_desired_allocation state y_hat n = Ok alloc
    /\ alloc Lobby + alloc Mid + alloc Upper = n
    /\ forall z, 0 <= alloc z.
Proof.
  intro Hn. unfold compute_desired_allocation.
  destruct (proportions_are_shares state y_hat) as [Hnn Hone].
  set (props := _proportions_from_state state y_hat) in *.
  destruct (@largest_remainder_total (fun z => (props z * inject_Z n)%Q) n)
    as [alloc [Ha [Hs Hz]]].
  - intro z. apply Qmult_le_0_compat; [apply Hnn|].
    change 0%Q with (inject_Z 0). rewrite <- Zle_Qle. exact Hn.
  - setoid_replace (props Lobby * inject_Z n + props Mid * inject_Z n
                    + props Upper * inject_Z n)%Q
      with ((props Lobby + props Mid + props Upper) * inject_Z n)%Q by ring.
    rewrite Hone. ring.
  - exists alloc. split; [exact Ha|]. split; [|exact Hz].
    rewrite <- zsum_unfold. exact Hs.
Qed.

Example compute_desired_allocation_evening :
  match compute_desired_allocation "Evening Down-Peak" 5 4 with
  | Ok alloc => map alloc ZONES = [0; 1; 3]
  | Raise _ => False
  end.
Proof. vm_compute. reflexivity. Qed.

(** Carrying out the moves of a plan. *)
Example reposition_single_surplus :
  let current := [Lobby; Mid; Upper; Lobby] in
  let desired := mk_zdict 0 1 3 in
  map (count_zone (apply_moves current (compute_reposition_moves current desired)))
      ZONES = map desired ZONES.
Proof. vm_compute. reflexivity. Qed.

End Task3ProportionFacts.

(** ** Zone parking of the evaluator, [task3_evaluator_parking.py] *)
Module ParkingZoneFacts.

Import EvaluatorParking.

Lemma py_repeat_length {A : Type} (x : A) (n : Z) :
  List.length (py_repeat x n) = Z.to_nat n.
Proof. unfold py_repeat. apply repeat_length. Qed.

Lemma argbest_from_bound (better : Q -> Q -> bool) (l : list Q) :
  forall i best_i best,
    (best_i < i)%nat ->
    (argbest_from better l i best_i best < i + List.length l)%nat.
Proof.
  induction l as [|x l IH]; intros i best_i best Hlt; simpl.
  - lia.
  - destruct (better x best).
    + specialize (IH (S i) i x). lia.
    + specialize (IH (S i) best_i best). lia.
Qed.

Lemma argmax_bound (l : list Q) : l <> [] -> (argmax l < List.length l)%nat.
Proof.
  destruct l as [|x l]; [congruence|]. intros _. unfold argmax.
  pose proof (@argbest_from_bound (fun a b => Qltb b a) l 1 0 x). simpl. lia.
Qed.

Lemma Zsum_app (a b : list Z) : Zsum (a ++ b) = Zsum a + Zsum b.
Proof. induction a as [|x a IH]; simpl; lia. Qed.

Lemma bump_facts (alloc : list Z) (idx : nat) :
  (idx < List.length alloc)%nat ->
  Zsum (bump alloc idx) = Zsum alloc + 1
  /\ List.length (bump alloc idx) = List.length alloc
  /\ (Forall (fun a => 0 <= a) alloc -> Forall (fun a => 0 <= a) (bump alloc idx)).
Proof.
  revert idx. induction alloc as [|a alloc IH]; intros idx Hlt; simpl in Hlt.
  - lia.
  - destruct idx as [|idx].
    + unfold bump, Zsum. simpl. split; [ring|]. split; [reflexivity|].
      intro H. inversion H; subst. constructor; [lia|assumption].
    + destruct (IH idx) as [H1 [H2 H3]]; [lia|].
      change (bump (a :: alloc) (S idx)) with (a :: bump alloc idx).
      change (Zsum (a :: bump alloc idx)) with (a + Zsum (bump alloc idx)).
      change (Zsum (a :: alloc)) with (a + Zsum alloc).
      simpl List.length. split; [lia|]. split; [lia|].
      intro H. inversion H; subst. constructor; [assumption|]. apply H3. assumption.
Qed.

(** The fuel handed to the hand-out loop is all it needs: it stops with
    its guard false, the sum being [k]. *)
Lemma distribute_remaining_total (props : list Q) (k : Z) :
  forall (fuel : nat) (alloc : list Z),
    List.length props = List.length alloc ->
    alloc <> [] ->
    Zsum alloc <= k ->
    fuel = Z.to_nat (k - Zsum alloc) ->
    Forall (fun a => 0 <= a) alloc ->
    Zsum (distribute_remaining fuel props k alloc) = k
    /\ List.length (distribute_remaining fuel props k alloc) = List.length alloc
    /\ Forall (fun a => 0 <= a) (distribute_remaining fuel props k alloc).
Proof.
  induction fuel as [|fuel IH]; intros alloc Hlen Hne Hle Hfuel Hnn; simpl.
  - repeat split; try assumption. lia.
  - destruct (Zsum alloc <? k) eqn:E; [|apply Z.ltb_ge in E; lia].
    set (idx := argmax _).
    assert (Hidx : (idx < List.length alloc)%nat).
    { subst idx.
      assert (Hl : List.length
                     (map (fun pa : Q * Z =>
                             (fst pa - inject_Z (snd pa) / inject_Z (Z.max 1 k))%Q)
                          (combine props alloc)) = List.length alloc).
      { rewrite length_map, length_combine. lia. }
      rewrite <- Hl. apply argmax_bound.
      intro H0. rewrite H0 in Hl. simpl in Hl.
      destruct alloc; [congruence|discriminate]. }
    destruct (bump_facts alloc idx Hidx) as [Hs [Hl Hf]].
    destruct (IH (bump alloc idx)) as [H1 [H2 H3]].
    + lia.
    + intro H0. rewrite H0 in Hl. simpl in Hl. destruct alloc; [congruence|discriminate].
    + lia.
    + lia.
    + apply Hf, Hnn.
    + repeat split; [exact H1 | lia | exact H3].
Qed.

Lemma map_max0_id (l : list Z) : Forall (fun a => 0 <= a) l -> map (Z.max 0) l = l.
Proof.
  induction 1 as [|a l Ha _ IH]; simpl; [reflexivity|].
  rewrite IH. f_equal. lia.
Qed.

(** With some history, the zone policy parks exactly [k] cars. *)
Lemma parking_zone_length_history
      (history_floors : list Z) (k lobby_max mid_max F_min F_max : Z) :
  history_floors <> [] ->
  0 <= k ->
  Z.of_nat (List.length
              (parking_zone history_floors k lobby_max mid_max F_min F_max)) = k.
Proof.
  intros Hne Hk. unfold parking_zone.
  destruct history_floors as [|f0 hf]; [congruence|].
  set (hist := f0 :: hf).
  set (c0 := inject_Z (Z.of_nat (List.length (filter (fun f => f <=? lobby_max) hist)))).
  set (c1 := inject_Z (Z.of_nat (List.length
               (filter (fun f => (lobby_max <? f) && (f <=? mid_max)) hist)))).
  set (c2 := inject_Z (Z.of_nat (List.length (filter (fun f => mid_max <? f) hist)))).
  assert (Hc0 : (0 <= c0)%Q).
  { subst c0. change 0%Q with (inject_Z 0). rewrite <- Zle_Qle. lia. }
  assert (Hc1 : (0 <= c1)%Q).
  { subst c1. change 0%Q with (inject_Z 0). rewrite <- Zle_Qle. lia. }
  assert (Hc2 : (0 <= c2)%Q).
  { subst c2. change 0%Q with (inject_Z 0). rewrite <- Zle_Qle. lia. }
  set (counts := if Qeqb (Qsum [c0; c1; c2]) 0 then [1%Q; 1%Q; 1%Q] else [c0; c1; c2]).
  assert (Hcounts : exists d0 d1 d2,
             counts = [d0; d1; d2]
             /\ (0 <= d0)%Q /\ (0 <= d1)%Q /\ (0 <= d2)%Q /\ (0 < d0 + d1 + d2)%Q).
  { subst counts. destruct (Qeqb (Qsum [c0; c1; c2]) 0) eqn:E.
    - exists 1%Q, 1%Q, 1%Q. repeat split; lra.
    - exists c0, c1, c2. repeat split; try assumption.
      assert (Hn : ~ (Qsum [c0; c1; c2] == 0)%Q).
      { intro H. apply Qeqb_eq in H. congruence. }
      simpl in Hn. lra. }
  destruct Hcounts as [d0 [d1 [d2 [Hd [Hd0 [Hd1 [Hd2 Hpos]]]]]]].
  rewrite Hd. clearbody counts. clear Hd counts.
  set (S := Qsum [d0; d1; d2]).
  assert (HS : (S == d0 + d1 + d2)%Q) by (subst S; simpl; ring).
  assert (HS0 : (0 < S)%Q) by lra.
  cbn [map].
  set (p0 := (d0 / S)%Q). set (p1 := (d1 / S)%Q). set (p2 := (d2 / S)%Q).
  assert (Hp : forall d, (0 <= d)%Q -> (0 <= d / S * inject_Z k)%Q).
  { intros d Hd. apply Qmult_le_0_compat.
    - apply Qle_shift_div_l; [exact HS0|]. lra.
    - change 0%Q with (inject_Z 0). rewrite <- Zle_Qle. exact Hk. }
  assert (Hone : (p0 + p1 + p2 == 1)%Q).
  { subst p0 p1 p2. rewrite HS. field. lra. }
  set (a0 := Qfloor (p0 * inject_Z k)).
  set (a1 := Qfloor (p1 * inject_Z k)).
  set (a2 := Qfloor (p2 * inject_Z k)).
  assert (Ha0 : 0 <= a0) by (apply Task3ParkingFacts.Qfloor_nonneg, Hp, Hd0).
  assert (Ha1 : 0 <= a1) by (apply Task3ParkingFacts.Qfloor_nonneg, Hp, Hd1).
  assert (Ha2 : 0 <= a2) by (apply Task3ParkingFacts.Qfloor_nonneg, Hp, Hd2).
  assert (Hsum : Zsum [a0; a1; a2] <= k).
  { simpl. rewrite Zle_Qle. rewrite !inject_Z_plus.
    pose proof (Qfloor_le (p0 * inject_Z k)) as H0.
    pose proof (Qfloor_le (p1 * inject_Z k)) as H1.
    pose proof (Qfloor_le (p2 * inject_Z k)) as H2.
    fold a0 in H0. fold a1 in H1. fold a2 in H2.
    assert (Hk1 : (p0 * inject_Z k + p1 * inject_Z k + p2 * inject_Z k
                   == inject_Z k)%Q).
    { setoid_replace (p0 * inject_Z k + p1 * inject_Z k + p2 * inject_Z k)%Q
        with ((p0 + p1 + p2) * inject_Z k)%Q by ring.
      rewrite Hone. ring. }
    change (inject_Z 0) with 0%Q. lra. }
  destruct (@distribute_remaining_total [p0; p1; p2] k
              (Z.to_nat (k - Zsum [a0; a1; a2])) [a0; a1; a2])
    as [Ht [Hl Hnn]]; try reflexivity; try assumption.
  { discriminate. }
  { repeat constructor; assumption. }
  set (out := distribute_remaining _ _ _ _) in *.
  rewrite (map_max0_id _ Hnn). clearbody out.
  destruct out as [|o0 [|o1 [|o2 [|? ?]]]]; try discriminate.
  apply Forall_cons_iff in Hnn as [Ho0 Hnn].
  apply Forall_cons_iff in Hnn as [Ho1 Hnn].
  apply Forall_cons_iff in Hnn as [Ho2 _].
  cbn [nth]. rewrite !length_app, !py_repeat_length.
  simpl in Ht. lia.
Qed.

Lemma Qceiling_scaled (a : Z) (b : positive) (k : Z) :
  Qceiling ((a # b) * inject_Z k) = - (- (a * k) / Z.pos b).
Proof.
  unfold Qceiling, Qfloor, Qopp, Qmult, inject_Z. cbn [Qnum Qden].
  rewrite Pos.mul_1_r. reflexivity.
Qed.

(** Without history, and with at least two cars, the 50/30/20 fallback
    parks exactly [k] cars. *)
Lemma parking_zone_length_fallback (k lobby_max mid_max F_min F_max : Z) :
  2 <= k ->
  Z.of_nat (List.length (parking_zone [] k lobby_max mid_max F_min F_max)) = k.
Proof.
  intro Hk. unfold parking_zone.
  rewrite !length_app, !py_repeat_length.
  rewrite (Qceiling_scaled 5 10 k), (Qceiling_scaled 3 10 k).
  assert (H0 : 0 <= - (- (5 * k) / 10)) by (Z.div_mod_to_equations; lia).
  assert (H1 : 0 <= - (- (3 * k) / 10)) by (Z.div_mod_to_equations; lia).
  assert (H2 : - (- (5 * k) / 10) + - (- (3 * k) / 10) <= k)
    by (Z.div_mod_to_equations; lia).
  lia.
Qed.

End ParkingZoneFacts.

(** ** Fleet-size invariant of the zone strategies *)
Module FleetSize.

Import EvaluatorParking.

(** C1.  The zone strategy is meant to hand out exactly [k] parking
    targets, but with one car and no call history (the first bin of every
    run) the 50/30/20 fallback of [parking_zone] computes the counts
    [1, 1, -1] and returns two targets for the single car, whatever the
    zone cut-offs are. *)
Theorem parking_zone_single_car_without_history :
  (forall lobby_max mid_max F_min F_max : Z,
      List.length (parking_zone [] 1 lobby_max mid_max F_min F_max) = 2%nat)
  /\ parking_zone [] 1 3 8 1 12 = [1; 5]
  /\ plan (mkArgs 1 (15 # 10) 8 12 3 8) 1 12 "zone" [1] [] = Ok [1; 5].
Proof.
  split; [|split; reflexivity].
  intros lobby_max mid_max F_min F_max. unfold parking_zone.
  rewrite !length_app, !ParkingZoneFacts.py_repeat_length.
  reflexivity.
Qed.

End FleetSize.

(** ** Repositioning moves *)
Module Reposition.

Import Task3Parking.

(** A fleet that already has the desired allocation is left alone. *)
Lemma no_moves_when_allocated (current : list Zone) (desired : zdict Z) :
  (forall z, count_zone current z = desired z) ->
  compute_reposition_moves current desired = [].
Proof.
  intro H. unfold compute_reposition_moves, deficit_zones, ZONES.
  cbn [flat_map]. rewrite !H, !Z.sub_diag. reflexivity.
Qed.

(** C10.  [compute_reposition_moves] is documented to reach the desired
    allocation, but it keeps drawing from the first surplus zone while
    that zone has any car left.  With two cars in Lobby and two in Mid,
    and one wanted in Lobby, one in Mid and two in Upper, both Lobby cars
    are sent to Upper: the plan ends with 0, 2, 2 cars per zone. *)
Theorem reposition_moves_overdraw_first_surplus_zone :
  let current := [Lobby; Lobby; Mid; Mid] in
  let desired := mk_zdict 1 1 2 in
  let moves := compute_reposition_moves current desired in
  Zsum (zvalues desired) = Z.of_nat (List.length current)
  /\ moves = [(1, Upper); (0, Upper)]
  /\ apply_moves current moves = [Upper; Upper; Mid; Mid]
  /\ map (count_zone (apply_moves current moves)) ZONES = [0; 2; 2]
  /\ map desired ZONES = [1; 1; 2].
Proof. vm_compute. repeat split; reflexivity. Qed.

End Reposition.

(** ** The builder feeds the fit *)
Module SeriesWellFormed.

Import Task1Model.

Lemma regime_of_flag (s : Z) : regime_of s = 0 \/ regime_of s = 1.
Proof. unfold regime_of. destruct (_ <? 5); [right|left]; reflexivity. Qed.

Lemma tau_of_range (s : Z) : 0 <= tau_of s < N_INTERVALS_PER_DAY.
Proof.
  unfold tau_of, hour_of, minute_of, N_INTERVALS_PER_DAY.
  rewrite Qfloor_Z.
  pose proof (Z.mod_pos_bound s 86400 ltac:(lia)) as H1.
  pose proof (Z.mod_pos_bound s 3600 ltac:(lia)) as H2.
  assert (0 <= s mod 86400 / 3600 < 24)
    by (split; [apply Z.div_pos; lia | apply Z.div_lt_upper_bound; lia]).
  assert (0 <= s mod 3600 / 60 < 60)
    by (split; [apply Z.div_pos; lia | apply Z.div_lt_upper_bound; lia]).
  split; [apply Z.div_pos; lia | apply Z.div_lt_upper_bound; lia].
Qed.

(** Every series the builder returns is well formed. *)
Lemma built_series_well_formed (times : list Q) (slots : list Slot) :
  build_5min_series times = Ok slots -> well_formed slots.
Proof.
  unfold build_5min_series. destruct (map floor_5min times) as [|b bs]; [discriminate|].
  intro H. injection H as <-. intros s Hs.
  apply in_map_iff in Hs. destruct Hs as [x [Hx _]]. subst s. cbn [w tau].
  split; [apply regime_of_flag | apply tau_of_range].
Qed.

End SeriesWellFormed.

(** ** The decision order, rule by rule *)
Module ClassifierLabels.

Import Task2Classifier Readings.

Lemma morning_reflect (row : Row) (thr : Thresholds) :
  Qleb (theta2 thr) (count row) && Qleb (alpha1 thr) (r row)
  && Qleb (beta1 thr) (p1 row) = true
  <-> morning_test row thr.
Proof.
  unfold morning_test. rewrite !andb_true_iff, !Qleb_le. tauto.
Qed.

Lemma evening_reflect (row : Row) (thr : Thresholds) :
  Qleb (theta3 thr) (count row) && Qleb (r row) (alpha2 thr) = true
  <-> evening_test row thr.
Proof.
  unfold evening_test. rewrite !andb_true_iff, !Qleb_le. tauto.
Qed.

Lemma lunch_reflect (row : Row) (thr : Thresholds) :
  Qleb (theta2 thr) (count row) && Qltb (alpha2 thr) (r row)
  && Qltb (r row) (alpha3 thr) = true
  <-> lunch_test row thr.
Proof.
  unfold lunch_test. rewrite !andb_true_iff, !Qleb_le, !Qltb_lt. tauto.
Qed.

Lemma not_true_false (b : bool) (P : Prop) : (b = true <-> P) -> b = false -> ~ P.
Proof. intros H E HP. apply H in HP. congruence. Qed.

(** Each label is given exactly when its rule is the first to hold. *)
Lemma classify_interval_labels (row : Row) (thr : Thresholds) :
  let label := classify_interval row thr in
  (label = "Night Idle"%string <-> idle_test row thr)
  /\ (label = "Weekend Low-Demand"%string
      <-> ~ idle_test row thr /\ weekend_test row)
  /\ (label = "Morning Up-Peak"%string
      <-> ~ idle_test row thr /\ ~ weekend_test row /\ morning_test row thr)
  /\ (label = "Evening Down-Peak"%string
      <-> ~ idle_test row thr /\ ~ weekend_test row /\ ~ morning_test row thr
          /\ evening_test row thr)
  /\ (label = "Lunch Down-Peak"%string
      <-> ~ idle_test row thr /\ ~ weekend_test row /\ ~ morning_test row thr
          /\ ~ evening_test row thr /\ lunch_test row thr)
  /\ (label = "Afternoon Mixed"%string
      <-> ~ idle_test row thr /\ ~ weekend_test row /\ ~ morning_test row thr
          /\ ~ evening_test row thr /\ ~ lunch_test row thr).
Proof.
  cbv zeta. unfold classify_interval, idle_test, weekend_test.
  destruct (Qltb (count row) (theta1 thr)) eqn:E1.
  { apply Qltb_lt in E1.
    unfold morning_test, evening_test, lunch_test in *.
    repeat split; intros; try discriminate; try reflexivity; tauto. }
  assert (N1 : ~ (count row < theta1 thr)%Q).
  { apply Qltb_ge in E1. intro H. apply (Qlt_not_le _ _ H E1). }
  destruct (w row =? 0) eqn:E2.
  { apply Z.eqb_eq in E2.
    unfold morning_test, evening_test, lunch_test in *.
    repeat split; intros; try discriminate; try reflexivity; tauto. }
  assert (N2 : w row <> 0) by (apply Z.eqb_neq in E2; exact E2).
  destruct (Qleb (theta2 thr) (count row) && Qleb (alpha1 thr) (r row)
            && Qleb (beta1 thr) (p1 row)) eqn:E3.
  { apply morning_reflect in E3.
    unfold morning_test, evening_test, lunch_test in *.
    repeat split; intros; try discriminate; try reflexivity; tauto. }
  pose proof (not_true_false _ _ (morning_reflect row thr) E3) as N3.
  destruct (Qleb (theta3 thr) (count row) && Qleb (r row) (alpha2 thr)) eqn:E4.
  { apply evening_reflect in E4.
    unfold morning_test, evening_test, lunch_test in *.
    repeat split; intros; try discriminate; try reflexivity; tauto. }
  pose proof (not_true_false _ _ (evening_reflect row thr) E4) as N4.
  destruct (Qleb (theta2 thr) (count row) && Qltb (alpha2 thr) (r row)
            && Qltb (r row) (alpha3 thr)) eqn:E5.
  { apply lunch_reflect in E5.
    unfold morning_test, evening_test, lunch_test in *.
    repeat split; intros; try discriminate; try reflexivity; tauto. }
  pose proof (not_true_false _ _ (lunch_reflect row thr) E5) as N5.
  unfold morning_test, evening_test, lunch_test in *.
  repeat split; intros; try discriminate; try reflexivity; tauto.
Qed.

End ClassifierLabels.

(** ** The rule classifier *)
Module ClassifierOrder.

Import Task2Classifier Readings.

Lemma classify_interval_cascade (row : Row) (thr : Thresholds) :
  classify_interval row thr = first_match (rule_list thr) "Afternoon Mixed" row.
Proof.
  unfold classify_interval, rule_list, first_match.
  destruct (Qltb (count row) (theta1 thr)); [reflexivity|].
  destruct (w row =? 0); [reflexivity|].
  destruct (Qleb (theta2 thr) (count row) && Qleb (alpha1 thr) (r row)
            && Qleb (beta1 thr) (p1 row)); [reflexivity|].
  destruct (Qleb (theta3 thr) (count row) && Qleb (r row) (alpha2 thr));
    [reflexivity|].
  destruct (Qleb (theta2 thr) (count row) && Qltb (alpha2 thr) (r row)
            && Qltb (r row) (alpha3 thr)); reflexivity.
Qed.

(** C4, as the code has it.  [classify_interval] applies its rules in a
    fixed order and the first match wins: a count below theta1 gives
    Night Idle; otherwise any weekend slot, whatever its volume, gives
    Weekend Low-Demand; otherwise high volume with a strong up-ratio and
    lobby concentration gives Morning Up-Peak; otherwise high volume with
    strong down dominance gives Evening Down-Peak; otherwise high volume
    with moderate down dominance gives Lunch Down-Peak; otherwise
    Afternoon Mixed.  Each label is returned exactly when its rule holds
    and no earlier one does. *)
Theorem classify_interval_first_match (row : Row) (thr : Thresholds) :
  let label := classify_interval row thr in
  label = first_match (rule_list thr) "Afternoon Mixed" row
  /\ (label = "Night Idle"%string <-> idle_test row thr)
  /\ (label = "Weekend Low-Demand"%string
      <-> ~ idle_test row thr /\ weekend_test row)
  /\ (label = "Morning Up-Peak"%string
      <-> ~ idle_test row thr /\ ~ weekend_test row /\ morning_test row thr)
  /\ (label = "Evening Down-Peak"%string
      <-> ~ idle_test row thr /\ ~ weekend_test row /\ ~ morning_test row thr
          /\ evening_test row thr)
  /\ (label = "Lunch Down-Peak"%string
      <-> ~ idle_test row thr /\ ~ weekend_test row /\ ~ morning_test row thr
          /\ ~ evening_test row thr /\ lunch_test row thr)
  /\ (label = "Afternoon Mixed"%string
      <-> ~ idle_test row thr /\ ~ weekend_test row /\ ~ morning_test row thr
          /\ ~ evening_test row thr /\ ~ lunch_test row thr).
Proof.
  split; [apply classify_interval_cascade|].
  apply ClassifierLabels.classify_interval_labels.
Qed.

(** The second rule fires on the weekend test alone. *)
Lemma weekend_slot_label (row : Row) (thr : Thresholds) :
  (theta1 thr <= count row)%Q ->
  w row = 0 ->
  classify_interval row thr = "Weekend Low-Demand"%string.
Proof.
  intros HC Hw. unfold classify_interval.
  apply Qltb_ge in HC. rewrite HC, Hw. reflexivity.
Qed.

(** A weekend slot that a reading of "low" rejects is labelled
    differently by the specified cascade and by the code. *)
Lemma weekend_not_low_differs (low : Row -> Thresholds -> bool)
      (row : Row) (thr : Thresholds) :
  (theta1 thr <= count row)%Q ->
  w row = 0 ->
  low row thr = false ->
  classify_interval row thr <> classify_as_specified low row thr.
Proof.
  intros HC Hw Hlow. rewrite (weekend_slot_label row thr HC Hw).
  unfold classify_as_specified, rule_list_as_specified, first_match.
  apply Qltb_ge in HC. rewrite HC, Hw, Hlow. cbn [Z.eqb andb].
  repeat match goal with
         | |- context [if ?b then _ else _] => destruct b
         end; discriminate.
Qed.

(** C4, counterexample.  A weekend slot with ten calls, nine in ten going
    up and half of them from the lobby, against theta1 = 1 and
    theta2 = theta3 = 5: high volume, so not low; the specified cascade
    reaches Morning Up-Peak, the code answers Weekend Low-Demand. *)
Lemma weekend_high_volume_counterexample :
  let row := mkRow 10 (9 # 10) (5 # 10) 0 in
  let thr := mkThresholds 1 5 5 (6 # 10) (4 # 10) (6 # 10) (3 # 10) in
  below_high row thr = false
  /\ classify_as_specified below_high row thr = "Morning Up-Peak"%string
  /\ classify_interval row thr = "Weekend Low-Demand"%string
  /\ ~ (forall row thr,
           classify_interval row thr = classify_as_specified below_high row thr).
Proof.
  cbv zeta. split; [reflexivity|]. split; [reflexivity|]. split; [reflexivity|].
  intro H.
  specialize (H (mkRow 10 (9 # 10) (5 # 10) 0)
                (mkThresholds 1 5 5 (6 # 10) (4 # 10) (6 # 10) (3 # 10))).
  vm_compute in H. discriminate.
Qed.

End ClassifierOrder.

(** ** The dispatch simulator, [run_stress_tests.py] *)
Module SimulatorFacts.

Import StressTests Readings.

Lemma filter_nil {A : Type} (f : A -> bool) (l : list A) :
  (forall x, In x l -> f x = false) -> filter f l = [].
Proof.
  induction l as [|x l IH]; intro H; simpl; [reflexivity|].
  rewrite (H x (or_introl eq_refl)). apply IH.
  intros y Hy. apply H. right. exact Hy.
Qed.

Lemma existsb_eqb_In (s : string) (l : list string) :
  existsb (String.eqb s) l = true <-> In s l.
Proof.
  rewrite existsb_exists. split.
  - intros [x [Hx E]]. apply String.eqb_eq in E. subst x. exact Hx.
  - intro H. exists s. split; [exact H | apply String.eqb_refl].
Qed.

Lemma pick_col_required_found (columns candidates : list string) :
  (exists c, In c candidates /\ In c columns) ->
  exists c, pick_col columns candidates true = Ok (Some c).
Proof.
  intros [c [Hc Hcol]]. unfold pick_col.
  destruct (find (fun c0 => existsb (String.eqb c0) columns) candidates) as [c'|] eqn:E.
  - exists c'. reflexivity.
  - exfalso. pose proof (find_none _ _ E c Hc) as Hn. simpl in Hn.
    apply existsb_eqb_In in Hcol. congruence.
Qed.

Section Run.
Variable FeatRow : Type.
Variable predict : FeatRow -> Z.
Variable sort_values : forall A : Type, (A -> Q) -> list A -> list A.
Variable hall : HallFrame.
Variable stop : StopFrame.
Variable feats : FeatFrame FeatRow.
Variable demand_by_cluster_floor : DemandFrame.
Variables start_time end_time : Q.
Variables seconds_per_floor door_time long_wait_threshold : Q.

(** A window without a call yields the log [None], given the columns
    the frame must have. *)
Lemma simulate_waits_empty_window (strategy : string) :
  sorts sort_values ->
  (exists c, In c floor_candidates /\ In c (hall_columns hall)) ->
  In "Time"%string (hall_columns hall) ->
  (forall c, In c (hall_rows hall) ->
             ~ (start_time <= Time c /\ Time c <= end_time)%Q) ->
  simulate_waits predict sort_values strategy hall stop feats
                 demand_by_cluster_floor start_time end_time
                 seconds_per_floor door_time = Ok None.
Proof.
  intros Hsort Hfloor Htime Hwin. unfold simulate_waits.
  destruct (pick_col_required_found _ _ Hfloor) as [c Hc]. rewrite Hc.
  cbn [bind]. apply existsb_eqb_In in Htime. rewrite Htime.
  unfold window. rewrite filter_nil; [reflexivity|].
  intros x Hx.
  apply (Permutation_in _ (proj1 (Hsort _ Time (hall_rows hall)))) in Hx.
  apply andb_false_iff.
  destruct (Qleb start_time (Time x)) eqn:E1; [|left; reflexivity].
  destruct (Qleb (Time x) end_time) eqn:E2; [|right; reflexivity].
  exfalso. apply (Hwin x Hx). split; apply Qleb_le; assumption.
Qed.

(** A strategy name other than [lobby] and [dynamic] leaves the fleet
    where it is at every decision epoch, and raises nothing. *)
Lemma apply_parking_policy_other_name (strategy : string)
      (hall_sim : list HallCall) (t : Q) (elevators : list ElevatorState) :
  strategy <> "lobby"%string ->
  strategy <> "dynamic"%string ->
  apply_parking_policy predict sort_values strategy feats demand_by_cluster_floor
                       seconds_per_floor hall_sim t elevators = Ok elevators.
Proof.
  intros Hl Hd. unfold apply_parking_policy.
  destruct (filter _ _); [reflexivity|].
  destruct (String.eqb strategy "last_stop"); [reflexivity|].
  apply String.eqb_neq in Hl, Hd. rewrite Hl, Hd. reflexivity.
Qed.

Lemma run_decisions_other_name (strategy : string) (hall_sim : list HallCall)
      (call_time : Q) (pending : list Q) :
  strategy <> "lobby"%string ->
  strategy <> "dynamic"%string ->
  forall elevators,
    run_decisions predict sort_values strategy feats demand_by_cluster_floor
                  seconds_per_floor hall_sim call_time pending elevators
    = run_decisions predict sort_values "last_stop" feats demand_by_cluster_floor
                    seconds_per_floor hall_sim call_time pending elevators.
Proof.
  intros Hl Hd. induction pending as [|d pending IH]; intro elevators; simpl.
  - reflexivity.
  - destruct (Qleb d call_time); [|reflexivity].
    rewrite (apply_parking_policy_other_name strategy hall_sim d elevators Hl Hd).
    rewrite (apply_parking_policy_other_name "last_stop" hall_sim d elevators);
      try discriminate.
    cbn [bind]. apply IH.
Qed.

Lemma run_calls_other_name (strategy : string) (hall_sim : list HallCall) :
  strategy <> "lobby"%string ->
  strategy <> "dynamic"%string ->
  forall todo pending elevators,
    run_calls predict sort_values strategy feats demand_by_cluster_floor
              seconds_per_floor door_time hall_sim todo pending elevators
    = run_calls predict sort_values "last_stop" feats demand_by_cluster_floor
                seconds_per_floor door_time hall_sim todo pending elevators.
Proof.
  intros Hl Hd. induction todo as [|r todo IH]; intros pending elevators; simpl.
  - reflexivity.
  - rewrite (run_decisions_other_name strategy hall_sim (Time r) pending Hl Hd).
    destruct (run_decisions _ _ _ _ _ _ _ _ _ _) as [[p els]|e]; cbn [bind];
      [|reflexivity].
    destruct (serve_call _ _ _ _) as [[[wt be] els']|e]; cbn [bind];
      [|reflexivity].
    rewrite IH. reflexivity.
Qed.

(** Every name the simulator does not know runs as [last_stop]. *)
Lemma simulate_other_name_is_last_stop (strategy : string) :
  strategy <> "lobby"%string ->
  strategy <> "dynamic"%string ->
  simulate predict sort_values strategy hall stop feats demand_by_cluster_floor
           start_time end_time seconds_per_floor door_time long_wait_threshold
  = simulate predict sort_values "last_stop" hall stop feats demand_by_cluster_floor
             start_time end_time seconds_per_floor door_time long_wait_threshold.
Proof.
  intros Hl Hd. unfold simulate, simulate_waits.
  destruct (pick_col _ _ _) as [c|e]; cbn [bind]; [|reflexivity].
  destruct (existsb _ _); [|reflexivity].
  destruct (window _ _ _ _) as [|c0 hs]; [reflexivity|].
  destruct (infer_initial_positions _ _ _) as [pos|e]; cbn [bind]; [|reflexivity].
  rewrite (run_calls_other_name strategy (c0 :: hs) Hl Hd). reflexivity.
Qed.

End Run.

(** *** The choice of the serving car *)
Section Choice.
Variables seconds_per_floor call_time : Q.
Variable origin_floor : Z.

Local Abbreviation arr cars i :=
  (arrival seconds_per_floor call_time origin_floor
           (nth i cars (mkElevatorState 0 0))).

Lemma choose_best_scan (cars : list ElevatorState) :
  forall (pre : list ElevatorState) (best : option (nat * Q)),
    scan_invariant seconds_per_floor call_time origin_floor
                   (pre ++ cars) (List.length pre) best ->
    scan_invariant seconds_per_floor call_time origin_floor
                   (pre ++ cars) (List.length (pre ++ cars))
                   (choose_best seconds_per_floor call_time origin_floor cars
                                (List.length pre) best).
Proof.
  unfold scan_invariant. cbv zeta.
  induction cars as [|st cars IH]; intros pre best Hinv.
  - simpl. rewrite app_nil_r in *. exact Hinv.
  - cbn [choose_best].
    specialize (IH (pre ++ [st])).
    rewrite <- app_assoc in IH. cbn [app] in IH.
    replace (List.length (pre ++ [st])) with (S (List.length pre)) in IH
      by (rewrite length_app; simpl; lia).
    apply IH. clear IH.
    assert (Hst : arr (pre ++ st :: cars) (List.length pre)
                  = arrival seconds_per_floor call_time origin_floor st).
    { rewrite nth_middle. reflexivity. }
    destruct best as [[be ba]|]; simpl in Hinv.
    + destruct Hinv as [Hbe [Hba [Hmin Hlow]]].
      destruct (Qltb (arrival seconds_per_floor call_time origin_floor st) ba) eqn:E.
      * apply Qltb_lt in E. simpl. repeat split.
        -- lia.
        -- symmetry. exact Hst.
        -- intros i Hi. assert (Hc : (i < List.length pre)%nat \/ i = List.length pre) by lia.
           destruct Hc as [Hc|Hc].
           ++ apply Qlt_le_weak. eapply Qlt_le_trans; [exact E | apply Hmin, Hc].
           ++ subst i. rewrite Hst. apply Qle_refl.
        -- intros i Hi. eapply Qlt_le_trans; [exact E | apply Hmin, Hi].
      * apply Qltb_ge in E. simpl. repeat split.
        -- lia.
        -- exact Hba.
        -- intros i Hi. assert (Hc : (i < List.length pre)%nat \/ i = List.length pre) by lia.
           destruct Hc as [Hc|Hc].
           ++ apply Hmin, Hc.
           ++ subst i. rewrite Hst. exact E.
        -- exact Hlow.
    + simpl. repeat split.
      * lia.
      * symmetry. exact Hst.
      * intros i Hi. assert (i = List.length pre) by lia. subst i.
        rewrite Hst. apply Qle_refl.
      * intros i Hi. lia.
Qed.

(** The scan returns the car the specification names. *)
Lemma choose_best_spec (cars : list ElevatorState) :
  cars <> [] ->
  exists e a,
    choose_best seconds_per_floor call_time origin_floor cars 0 None = Some (e, a)
    /\ a = arr cars e
    /\ min_arrival_lowest_index seconds_per_floor call_time origin_floor cars e.
Proof.
  intro Hne.
  pose proof (choose_best_scan cars [] None eq_refl) as H. simpl in H.
  destruct (choose_best seconds_per_floor call_time origin_floor cars 0 None)
    as [[e a]|].
  - simpl in H. destruct H as [He [Ha [Hmin Hlow]]].
    exists e, a. split; [reflexivity|]. split; [exact Ha|].
    unfold min_arrival_lowest_index. cbv zeta. rewrite <- Ha.
    repeat split; assumption.
  - simpl in H. destruct cars; [congruence|discriminate].
Qed.

(** The specification names one car only. *)
Lemma min_arrival_lowest_index_unique (cars : list ElevatorState) (e1 e2 : nat) :
  min_arrival_lowest_index seconds_per_floor call_time origin_floor cars e1 ->
  min_arrival_lowest_index seconds_per_floor call_time origin_floor cars e2 ->
  e1 = e2.
Proof.
  intros [H1 [M1 L1]] [H2 [M2 L2]].
  destruct (Nat.lt_trichotomy e1 e2) as [Hlt|[Heq|Hgt]]; [|exact Heq|].
  - exfalso. specialize (L2 e1 Hlt). specialize (M1 e2 H2).
    apply (Qlt_not_le _ _ L2 M1).
  - exfalso. specialize (L1 e2 Hgt). specialize (M2 e1 H1).
    apply (Qlt_not_le _ _ L1 M2).
Qed.
End Choice.

(** *** The call loop and the dispatch rule *)
Section Log.
Variable FeatRow : Type.
Variable predict : FeatRow -> Z.
Variable sort_values : forall A : Type, (A -> Q) -> list A -> list A.
Variable strategy : string.
Variable feats : FeatFrame FeatRow.
Variable demand_by_cluster_floor : DemandFrame.
Variables seconds_per_floor door_time : Q.
Variable hall_sim : list HallCall.

Local Abbreviation follows todo pending elevators waits :=
  (dispatch_log predict sort_values strategy feats demand_by_cluster_floor
                seconds_per_floor door_time hall_sim todo pending elevators waits).

Local Abbreviation arrives r cars e :=
  (arrival seconds_per_floor (Time r) (Floor r) (nth e cars (mkElevatorState 0 0))).

(** A served call went to the car the rule names. *)
Lemma serve_call_inv (r : HallCall) (elevators elevators' : list ElevatorState)
      (wait : Q) (e : nat) :
  serve_call seconds_per_floor door_time r elevators = Ok (wait, e, elevators') ->
  min_arrival_lowest_index seconds_per_floor (Time r) (Floor r) elevators e
  /\ wait = (arrives r elevators e - Time r)%Q
  /\ elevators'
     = set_car elevators e
               (mkElevatorState (Floor r) (arrives r elevators e + door_time)%Q).
Proof.
  unfold serve_call. intro H.
  destruct (choose_best seconds_per_floor (Time r) (Floor r) elevators 0 None)
    as [[e0 a]|] eqn:Hc; [|discriminate].
  injection H as <- <- <-.
  assert (Hne : elevators <> []).
  { intro E. subst elevators. discriminate. }
  destruct (choose_best_spec seconds_per_floor (Time r) (Floor r) elevators Hne)
    as [e1 [a1 [Hc1 [Ha Hspec]]]].
  rewrite Hc in Hc1. injection Hc1 as <- <-.
  split; [exact Hspec|]. rewrite Ha. split; reflexivity.
Qed.

(** The car the rule names is the car that serves. *)
Lemma serve_call_rule (r : HallCall) (elevators : list ElevatorState) (e : nat) :
  min_arrival_lowest_index seconds_per_floor (Time r) (Floor r) elevators e ->
  serve_call seconds_per_floor door_time r elevators
  = Ok ((arrives r elevators e - Time r)%Q, e,
        set_car elevators e
                (mkElevatorState (Floor r) (arrives r elevators e + door_time)%Q)).
Proof.
  intro He.
  assert (Hne : elevators <> []).
  { destruct He as [Hlt _]. intro E. subst elevators. simpl in Hlt. lia. }
  destruct (choose_best_spec seconds_per_floor (Time r) (Floor r) elevators Hne)
    as [e0 [a [Hc [Ha Hspec]]]].
  pose proof (min_arrival_lowest_index_unique seconds_per_floor (Time r) (Floor r)
                elevators e e0 He Hspec) as E.
  subst e0. unfold serve_call. rewrite Hc, Ha. reflexivity.
Qed.

(** The call loop returns a log exactly when that log follows the rule. *)
Lemma run_calls_follows_rule (todo : list HallCall) :
  forall pending elevators waits,
    run_calls predict sort_values strategy feats demand_by_cluster_floor
              seconds_per_floor door_time hall_sim todo pending elevators = Ok waits
    <-> follows todo pending elevators waits.
Proof.
  induction todo as [|r todo IH]; intros pending elevators waits.
  - cbn [run_calls]. split.
    + intro H. injection H as <-. constructor.
    + intro H. inversion H. reflexivity.
  - cbn [run_calls]. split.
    + intro H.
      destruct (run_decisions _ _ _ _ _ _ _ _ _ _) as [[p parked]|x] eqn:Ed;
        cbn [bind fst snd] in H; [|discriminate].
      destruct (serve_call _ _ _ _) as [[[w e] els]|x] eqn:Es;
        cbn [bind fst snd] in H; [|discriminate].
      destruct (run_calls _ _ _ _ _ _ _ _ _ _ _) as [ws|x] eqn:Er;
        cbn [bind] in H; [|discriminate].
      injection H as <-.
      apply serve_call_inv in Es. destruct Es as [Hmin [-> ->]].
      eapply dispatch_call; [exact Ed | exact Hmin | apply IH; exact Er].
    + intro H. inversion H as [|r0 todo0 pending0 els0 p parked e ws Ed Hmin Hrest];
        subst.
      rewrite Ed. cbn [bind fst snd].
      rewrite (serve_call_rule r parked e Hmin). cbn [bind fst snd].
      rewrite (proj2 (IH _ _ _) Hrest). reflexivity.
Qed.

(** The rule leaves no choice: from one state it admits one log. *)
Lemma dispatch_log_unique (todo : list HallCall) :
  forall pending elevators waits1 waits2,
    follows todo pending elevators waits1 ->
    follows todo pending elevators waits2 ->
    waits1 = waits2.
Proof.
  induction todo as [|r todo IH]; intros pending elevators waits1 waits2 H1 H2.
  - inversion H1. inversion H2. reflexivity.
  - inversion H1 as [|r1 t1 pd1 el1 p1 parked1 e1 ws1 Ed1 Hmin1 Hrest1]; subst.
    inversion H2 as [|r2 t2 pd2 el2 p2 parked2 e2 ws2 Ed2 Hmin2 Hrest2]; subst.
    rewrite Ed1 in Ed2. injection Ed2 as <- <-.
    pose proof (min_arrival_lowest_index_unique seconds_per_floor (Time r) (Floor r)
                  parked1 e1 e2 Hmin1 Hmin2) as E.
    subst e2. f_equal. exact (IH _ _ _ _ Hrest1 Hrest2).
Qed.

End Log.

End SimulatorFacts.

(** ** Statements about whole runs *)
Module Runs.

Import StressTests Readings Scenarios SimulatorFacts.

(** C2, counterexample.  One call at floor 5 at time 0, strategy [lobby],
    1.5 s per floor and 8 s of door time.  The call loop of the dispatch
    simulator on a fleet of one car at floor 1, and [simulate] itself
    with its eight cars at floor 1, both log a wait of 6 s, not 14 s. *)
Lemma simulate_single_call_wait_is_not_14 :
  exists wt,
    run_fleet "lobby" [single_call] [0%Q] [mkElevatorState 1 0] = Ok [wt]
    /\ run_waits "lobby" [single_call] 0 0 = Ok (Some [wt])
    /\ (wt == 6)%Q
    /\ ~ (wt == 14)%Q.
Proof.
  eexists. split; [vm_compute; reflexivity|].
  split; [vm_compute; reflexivity|].
  split; [reflexivity | discriminate].
Qed.

(** C2, as the code has it.  For the single call at floor 5 at time 0 with
    1.5 s per floor, 8 s of door time and the cars at floor 1:
    the epoch evaluator ([task3_evaluator_parking.main] with one car, and
    [task3_evaluator_simple]) logs wait_time = 4 * 1.5 + 8.0 = 14.0 under
    [lobby]; the dispatch simulator ([simulate]) logs the travel time
    4 * 1.5 = 6.0 and adds the door time to the serving car's
    availability, which becomes 14.0. *)
Theorem single_call_wait_times :
  (exists rows,
      EvaluatorParking.main (EvaluatorParking.mkArgs 1 (15 # 10) 8 12 3 8)
                            [single_call] = Ok rows
      /\ Forall2 Qeq
           (map EvaluatorParking.wait_time
                (filter (fun row => String.eqb (EvaluatorParking.strategy row) "lobby")
                        rows))
           [14%Q])
  /\ Forall2 Qeq
       (map EvaluatorSimple.wait_time
            (filter (fun row => String.eqb (EvaluatorSimple.strategy row) "lobby")
                    (EvaluatorSimple.evaluate [single_call])))
       [14%Q]
  /\ (exists wt,
         run_fleet "lobby" [single_call] [0%Q] [mkElevatorState 1 0] = Ok [wt]
         /\ run_waits "lobby" [single_call] 0 0 = Ok (Some [wt])
         /\ (wt == 6)%Q)
  /\ (exists wt best_e fleet,
         serve_call SECONDS_PER_FLOOR_BASE DOOR_TIME_BASE single_call fleet_at_lobby
         = Ok (wt, best_e, fleet)
         /\ (wt == 6)%Q
         /\ best_e = O
         /\ floor (nth best_e fleet (mkElevatorState 0 0)) = 5
         /\ (available_time (nth best_e fleet (mkElevatorState 0 0)) == 14)%Q).
Proof.
  split; [|split; [|split]].
  - eexists. split; [vm_compute; reflexivity|].
    cbn [filter map EvaluatorParking.strategy EvaluatorParking.wait_time String.eqb
         Ascii.eqb Bool.eqb].
    repeat constructor.
  - vm_compute. repeat constructor.
  - eexists. split; [vm_compute; reflexivity|].
    split; [vm_compute; reflexivity | reflexivity].
  - do 3 eexists. split; [vm_compute; reflexivity|].
    repeat split.
Qed.

(** C3.  The simulator has no error for a strategy name it does not
    implement.  The name [dynamic_kmeans], which the stress-test driver
    itself requests, runs to completion and logs exactly what [last_stop]
    logs, on a stream where [lobby] logs something else; the two sibling
    evaluators raise [ValueError] on the same name. *)
Theorem unknown_strategy_runs_as_last_stop :
  (exists m, run "dynamic_kmeans" up_then_lobby 0 400 = Ok m
             /\ run "last_stop" up_then_lobby 0 400 = Ok m
             /\ N m = 9)
  /\ run_waits "dynamic_kmeans" up_then_lobby 0 400
     = run_waits "last_stop" up_then_lobby 0 400
  /\ run_waits "dynamic_kmeans" up_then_lobby 0 400
     <> run_waits "lobby" up_then_lobby 0 400
  /\ EvaluatorSimple.choose_parking_floor "dynamic_kmeans" 5
     = Raise (ValueError "dynamic_kmeans")
  /\ EvaluatorParking.plan (EvaluatorParking.mkArgs 8 (15 # 10) 8 12 3 8) 1 12
                           "dynamic_kmeans" [1] []
     = Raise (ValueError "dynamic_kmeans").
Proof.
  split; [|split; [|split; [|split]]].
  - eexists. split; [vm_compute; reflexivity|].
    split; [vm_compute; reflexivity | reflexivity].
  - vm_compute. reflexivity.
  - vm_compute. discriminate.
  - reflexivity.
  - reflexivity.
Qed.

(** C5.  When no call of the stream falls in the simulated window, the
    simulator returns NaN for AWT, P95 and the long-wait rate with
    N = 0, and raises nothing; the percentile helper of the report
    tables answers NaN on an empty sample as well. *)
Theorem empty_window_gives_nan_metrics
        (FeatRow : Type) (predict : FeatRow -> Z)
        (sort_values : forall A : Type, (A -> Q) -> list A -> list A)
        (strategy : string) (hall : HallFrame) (stop : StopFrame)
        (feats : FeatFrame FeatRow) (demand_by_cluster_floor : DemandFrame)
        (start_time end_time seconds_per_floor door_time long_wait_threshold q : Q) :
  sorts sort_values ->
  (exists c, In c floor_candidates /\ In c (hall_columns hall)) ->
  In "Time"%string (hall_columns hall) ->
  (forall c, In c (hall_rows hall) ->
             ~ (start_time <= Time c /\ Time c <= end_time)%Q) ->
  simulate predict sort_values strategy hall stop feats demand_by_cluster_floor
           start_time end_time seconds_per_floor door_time long_wait_threshold
  = Ok (mkMetrics NaN NaN NaN 0)
  /\ ReportTables.pctl [] q = NaN.
Proof.
  intros Hsort Hfloor Htime Hwin. split; [|reflexivity].
  unfold simulate.
  rewrite (simulate_waits_empty_window FeatRow predict sort_values hall stop feats
             demand_by_cluster_floor start_time end_time seconds_per_floor door_time
             strategy Hsort Hfloor Htime Hwin).
  reflexivity.
Qed.

Lemma empty_window_gives_nan_metrics_witness :
  sorts stable_sort_values
  /\ run "lobby" up_then_lobby 1000 2000 = Ok (mkMetrics NaN NaN NaN 0)
  /\ ReportTables.pctl [] 95 = NaN.
Proof.
  split; [exact stable_sort_values_sorts|].
  apply (empty_window_gives_nan_metrics
           unit (fun _ => 0) stable_sort_values "lobby" (frame_of up_then_lobby)
           no_stops no_feats no_demand 1000 2000 SECONDS_PER_FLOOR_BASE DOOR_TIME_BASE
           LONG_WAIT_THRESHOLD_BASE 95).
  - exact stable_sort_values_sorts.
  - exists "Floor"%string. split; simpl; tauto.
  - simpl. tauto.
  - intros c Hc [H1 H2]. simpl in Hc.
    repeat (destruct Hc as [Hc|Hc]; [subst c; vm_compute in H1; apply H1; reflexivity|]).
    contradiction.
Defined.



End Runs.

(** ** Order statistics of the report tables *)
Module Percentiles.

Import ReportTables.

Lemma percentile_interpolate (x : list Q) (q : Q) :
  percentile x q
  = interpolate (sort_by Qleb x)
      (inject_Z (Z.of_nat (List.length (sort_by Qleb x)) - 1) * q / inject_Z 100)%Q.
Proof. reflexivity. Qed.

Lemma sorted_nth_le (s : list Q) :
  StronglySorted Qle s ->
  forall i j, (i <= j)%nat -> (j < List.length s)%nat ->
              (nth i s 0 <= nth j s 0)%Q.
Proof.
  induction 1 as [|a s Hs IH Hall]; intros i j Hij Hj; simpl in Hj.
  - lia.
  - destruct j as [|j].
    + assert (i = O) by lia. subst i. apply Qle_refl.
    + destruct i as [|i].
      * simpl. rewrite Forall_forall in Hall. apply Hall. apply nth_In. lia.
      * simpl. apply IH; lia.
Qed.

Section Interpolation.
Variable s : list Q.
Hypothesis s_sorted : StronglySorted Qle s.
Hypothesis s_nonempty : s <> [].

Let n : Z := Z.of_nat (List.length s).

Lemma n_pos : 1 <= n.
Proof. subst n. destruct s; [congruence|]. simpl List.length. lia. Qed.

Lemma floor_in_range (p : Q) :
  (0 <= p)%Q -> (p <= inject_Z (n - 1))%Q -> 0 <= Qfloor p <= n - 1.
Proof.
  intros H0 H1. split.
  - change 0 with (Qfloor 0). apply Qfloor_resp_le, H0.
  - rewrite <- (Qfloor_Z (n - 1)). apply Qfloor_resp_le, H1.
Qed.

(** The interpolated value lies between its two neighbours. *)
Lemma interpolate_between (p : Q) :
  (0 <= p)%Q -> (p <= inject_Z (n - 1))%Q ->
  (nth (Z.to_nat (Qfloor p)) s 0 <= interpolate s p)%Q
  /\ (interpolate s p
      <= nth (Z.to_nat (Z.min (Qfloor p + 1) (n - 1))) s 0)%Q.
Proof.
  intros H0 H1. pose proof n_pos as Hn.
  pose proof (floor_in_range p H0 H1) as [Hlo Hhi].
  unfold interpolate. fold n.
  set (lo := Qfloor p) in *.
  set (a := nth (Z.to_nat lo) s 0%Q).
  set (b := nth (Z.to_nat (Z.min (lo + 1) (n - 1))) s 0%Q).
  assert (Hab : (a <= b)%Q).
  { apply sorted_nth_le; [exact s_sorted | lia | subst n; lia]. }
  assert (Hg0 : (0 <= p - inject_Z lo)%Q).
  { pose proof (Qfloor_le p). fold lo in H. lra. }
  assert (Hg1 : (p - inject_Z lo <= 1)%Q).
  { pose proof (Qlt_floor p) as H. fold lo in H. rewrite inject_Z_plus in H.
    change (inject_Z 1) with 1%Q in H. lra. }
  set (g := (p - inject_Z lo)%Q) in *.
  assert (Hm0 : (0 <= (b - a) * g)%Q).
  { apply Qmult_le_0_compat; lra. }
  assert (Hm1 : ((b - a) * g <= (b - a) * 1)%Q).
  { rewrite (Qmult_comm (b - a) g), (Qmult_comm (b - a) 1).
    apply Qmult_le_compat_r; lra. }
  split; lra.
Qed.

(** The interpolation is monotone in the virtual index. *)
Lemma interpolate_monotone (p1 p2 : Q) :
  (0 <= p1)%Q -> (p1 <= p2)%Q -> (p2 <= inject_Z (n - 1))%Q ->
  (interpolate s p1 <= interpolate s p2)%Q.
Proof.
  intros H0 H12 H2. pose proof n_pos as Hn.
  assert (H1 : (p1 <= inject_Z (n - 1))%Q) by lra.
  assert (H0' : (0 <= p2)%Q) by lra.
  pose proof (floor_in_range p1 H0 H1) as [Hlo1 Hhi1].
  pose proof (floor_in_range p2 H0' H2) as [Hlo2 Hhi2].
  pose proof (Qfloor_resp_le p1 p2 H12) as Hfl.
  destruct (Z.eq_dec (Qfloor p1) (Qfloor p2)) as [E|E].
  - unfold interpolate. fold n. rewrite <- E.
    set (lo := Qfloor p1) in *.
    set (a := nth (Z.to_nat lo) s 0%Q).
    set (b := nth (Z.to_nat (Z.min (lo + 1) (n - 1))) s 0%Q).
    assert (Hab : (a <= b)%Q).
    { apply sorted_nth_le; [exact s_sorted | lia | subst n; lia]. }
    assert (Hm : ((b - a) * (p1 - inject_Z lo) <= (b - a) * (p2 - inject_Z lo))%Q).
    { rewrite (Qmult_comm (b - a) (p1 - inject_Z lo)),
              (Qmult_comm (b - a) (p2 - inject_Z lo)).
      apply Qmult_le_compat_r; lra. }
    lra.
  - destruct (interpolate_between p1 H0 H1) as [_ Hup].
    destruct (interpolate_between p2 H0' H2) as [Hdown _].
    eapply Qle_trans; [exact Hup|]. eapply Qle_trans; [|exact Hdown].
    apply sorted_nth_le; [exact s_sorted | lia | subst n; lia].
Qed.
End Interpolation.

(** [np.percentile] is monotone in the requested percentage. *)
Lemma percentile_monotone (x : list Q) (q1 q2 : Q) :
  x <> [] ->
  (0 <= q1)%Q -> (q1 <= q2)%Q -> (q2 <= 100)%Q ->
  (percentile x q1 <= percentile x q2)%Q.
Proof.
  intros Hne H0 H12 H2. rewrite !percentile_interpolate.
  set (s := sort_by Qleb x).
  assert (Hs : StronglySorted Qle s).
  { subst s. apply sort_by_sorted.
    - intros a b H. apply Qleb_le, H.
    - intros a b H. apply Qleb_gt in H. apply Qlt_le_weak, H.
    - intros a b c. apply Qle_trans. }
  assert (Hsn : s <> []).
  { subst s. intro E. apply Hne.
    pose proof (sort_by_length _ Qleb x) as Hl. rewrite E in Hl.
    destruct x; [reflexivity|discriminate]. }
  pose proof (n_pos s Hs Hsn) as Hn.
  set (m := inject_Z (Z.of_nat (List.length s) - 1)) in *.
  assert (Hm : (0 <= m)%Q).
  { subst m. change 0%Q with (inject_Z 0). rewrite <- Zle_Qle. lia. }
  change (inject_Z 100) with 100%Q.
  assert (Ha : (0 <= m * q1)%Q) by (apply Qmult_le_0_compat; assumption).
  assert (Hb : (m * q1 <= m * q2)%Q).
  { rewrite (Qmult_comm m q1), (Qmult_comm m q2).
    apply Qmult_le_compat_r; assumption. }
  assert (Hc : (m * q2 <= m * 100)%Q).
  { rewrite (Qmult_comm m q2), (Qmult_comm m 100).
    apply Qmult_le_compat_r; assumption. }
  assert (Hdiv : forall a b : Q, (a <= b)%Q -> (a / 100 <= b / 100)%Q).
  { intros a b Hab. unfold Qdiv. apply Qmult_le_compat_r; [exact Hab|].
    discriminate. }
  apply interpolate_monotone; try assumption; fold m.
  - setoid_replace 0%Q with (0 / 100)%Q by reflexivity. apply Hdiv, Ha.
  - apply Hdiv, Hb.
  - setoid_replace m with (m * 100 / 100)%Q at 2 by field. apply Hdiv, Hc.
Qed.

Lemma nodup_string_In (l : list string) (x : string) :
  In x (nodup_string l) -> In x l.
Proof.
  induction l as [|y l IH]; simpl; [tauto|].
  destruct (existsb (String.eqb y) l).
  - intro H. right. apply IH, H.
  - intros [H|H]; [left; exact H | right; apply IH, H].
Qed.

(** Every strategy that gets a row has at least one call behind it. *)
Lemma group_nonempty (df : list CallRow) (strat : string) :
  In strat (group_keys df) ->
  filter (fun row => String.eqb (strategy row) strat) df <> [].
Proof.
  unfold group_keys. intro H. apply sort_by_In in H. apply nodup_string_In in H.
  apply in_map_iff in H. destruct H as [row [Hs Hin]].
  intro E. assert (Hf : In row (filter (fun row => String.eqb (strategy row) strat) df)).
  { apply filter_In. split; [exact Hin|]. rewrite Hs. apply String.eqb_refl. }
  rewrite E in Hf. contradiction.
Qed.

Lemma pctl_ordered (x : list Q) (q1 q2 : Q) :
  x <> [] ->
  (0 <= q1)%Q -> (q1 <= q2)%Q -> (q2 <= 100)%Q ->
  metric_le (pctl x q1) (pctl x q2).
Proof.
  intros Hne H0 H12 H2. unfold pctl. destruct x as [|a x]; [congruence|].
  simpl. apply percentile_monotone; assumption.
Qed.

(** C9.  On a non-empty wait-time sample the reported order statistics
    are ordered, P90 <= P95 <= P99, both for [pctl] itself and for every
    row of the strategy table [summarize_task3] builds from a call log. *)
Theorem reported_percentiles_ordered
        (x : list Q) (fr : Frame) (long_wait_threshold : Q) (row : Summary) :
  x <> [] ->
  In row (summarize_task3 fr long_wait_threshold) ->
  metric_le (pctl x 90) (pctl x 95)
  /\ metric_le (pctl x 95) (pctl x 99)
  /\ metric_le (P90 row) (P95 row)
  /\ metric_le (P95 row) (P99 row).
Proof.
  intros Hne Hrow.
  split; [apply pctl_ordered; try assumption; lra|].
  split; [apply pctl_ordered; try assumption; lra|].
  unfold summarize_task3 in Hrow. apply sort_by_In in Hrow.
  apply in_map_iff in Hrow. destruct Hrow as [strat [Hr Hk]].
  apply group_nonempty in Hk. subst row. unfold summarize_group.
  cbn [P90 P95 P99].
  assert (Hw : map wait_time
                   (filter (fun row => String.eqb (strategy row) strat) (rows fr))
               <> []).
  { intro E. apply Hk. apply map_eq_nil in E. exact E. }
  split; apply pctl_ordered; try assumption; lra.
Qed.

Lemma reported_percentiles_ordered_witness :
  let x := [14%Q; 8%Q; (95 # 10)%Q; 20%Q; 11%Q] in
  let fr := mkFrame [mkCallRow "lobby" 14 0 0; mkCallRow "zone" 8 0 0;
                     mkCallRow "lobby" 20 0 0; mkCallRow "zone" 11 0 0]
                    false false in
  metric_le (pctl x 90) (pctl x 95)
  /\ metric_le (pctl x 95) (pctl x 99)
  /\ Forall (fun row => metric_le (P90 row) (P95 row)
                        /\ metric_le (P95 row) (P99 row))
            (summarize_task3 fr 60).
Proof.
  cbv zeta.
  set (x := [14%Q; 8%Q; (95 # 10)%Q; 20%Q; 11%Q]).
  set (fr := mkFrame _ _ _).
  assert (Hx : x <> []) by discriminate.
  assert (Hall : forall row, In row (summarize_task3 fr 60) ->
                             metric_le (P90 row) (P95 row)
                             /\ metric_le (P95 row) (P99 row)).
  { intros row Hrow.
    destruct (reported_percentiles_ordered x fr 60 row Hx Hrow) as [_ [_ H]].
    exact H. }
  assert (Hfirst : In (hd (mkSummary "" 0 0 NaN NaN NaN 0 NaN) (summarize_task3 fr 60))
                      (summarize_task3 fr 60)).
  { vm_compute. left. reflexivity. }
  destruct (reported_percentiles_ordered x fr 60 _ Hx Hfirst) as [H1 [H2 _]].
  split; [exact H1|]. split; [exact H2|].
  apply Forall_forall. exact Hall.
Defined.

End Percentiles.

(** ** The demand series builder, [task1_model.py] *)
Module SeriesFacts.

Import Task1Model.

Lemma Zlist_min_spec (l : list Z) :
  forall x, In (Zlist_min x l) (x :: l)
            /\ forall y, In y (x :: l) -> Zlist_min x l <= y.
Proof.
  induction l as [|a l IH]; intro x; simpl.
  - split; [left; reflexivity|]. intros y [H|[]]. lia.
  - destruct (IH (Z.min x a)) as [Hin Hle]. split.
    + destruct Hin as [H|H].
      * destruct (Z.min_spec x a) as [[_ E]|[_ E]]; rewrite <- H, E; tauto.
      * right. right. exact H.
    + intros y [H|[H|H]].
      * specialize (Hle (Z.min x a) (or_introl eq_refl)). lia.
      * specialize (Hle (Z.min x a) (or_introl eq_refl)). lia.
      * apply Hle. right. exact H.
Qed.

Lemma Zlist_max_spec (l : list Z) :
  forall x, In (Zlist_max x l) (x :: l)
            /\ forall y, In y (x :: l) -> y <= Zlist_max x l.
Proof.
  induction l as [|a l IH]; intro x; simpl.
  - split; [left; reflexivity|]. intros y [H|[]]. lia.
  - destruct (IH (Z.max x a)) as [Hin Hle]. split.
    + destruct Hin as [H|H].
      * destruct (Z.max_spec x a) as [[_ E]|[_ E]]; rewrite <- H, E; tauto.
      * right. right. exact H.
    + intros y [H|[H|H]].
      * specialize (Hle (Z.max x a) (or_introl eq_refl)). lia.
      * specialize (Hle (Z.max x a) (or_introl eq_refl)). lia.
      * apply Hle. right. exact H.
Qed.

Lemma nodup_Z_In (l : list Z) (x : Z) :
  In x (EvaluatorParking.nodup_Z l) <-> In x l.
Proof.
  induction l as [|y l IH]; simpl; [tauto|].
  destruct (existsb (Z.eqb y) l) eqn:E.
  - rewrite IH. split; [tauto|]. intros [H|H]; [|exact H].
    subst y. apply existsb_exists in E. destruct E as [z [Hz Ez]].
    apply Z.eqb_eq in Ez. subst z. exact Hz.
  - simpl. rewrite IH. tauto.
Qed.

Lemma find_key (f : Z -> Z) (keys : list Z) (s : Z) :
  find (fun bc : Z * Z => fst bc =? s) (map (fun b => (b, f b)) keys)
  = if existsb (Z.eqb s) keys then Some (s, f s) else None.
Proof.
  induction keys as [|b keys IH]; simpl; [reflexivity|].
  rewrite (Z.eqb_sym s b). destruct (b =? s) eqn:E.
  - apply Z.eqb_eq in E. subst b. reflexivity.
  - simpl. exact IH.
Qed.

(** Re-indexing reads the size of the group, and 0 where there is none. *)
Lemma reindex_at_counts (starts : list Z) (s : Z) :
  reindex_at (group_sizes starts) s
  = Z.of_nat (List.length (filter (Z.eqb s) starts)).
Proof.
  unfold reindex_at, group_sizes. rewrite find_key.
  destruct (existsb (Z.eqb s) _) eqn:E; [reflexivity|].
  rewrite SimulatorFacts.filter_nil; [reflexivity|].
  intros x Hx. destruct (s =? x) eqn:Ex; [|reflexivity].
  apply Z.eqb_eq in Ex. subst x. exfalso.
  assert (Hin : In s (sort_by Z.leb (EvaluatorParking.nodup_Z starts))).
  { apply sort_by_In, nodup_Z_In, Hx. }
  assert (Ht : existsb (Z.eqb s) (sort_by Z.leb (EvaluatorParking.nodup_Z starts)) = true).
  { apply existsb_exists. exists s. split; [exact Hin | apply Z.eqb_refl]. }
  congruence.
Qed.

Lemma filter_map_length (times : list Q) (s : Z) :
  List.length (filter (Z.eqb s) (map floor_5min times))
  = List.length (filter (fun t => floor_5min t =? s) times).
Proof.
  induction times as [|t times IH]; simpl; [reflexivity|].
  rewrite (Z.eqb_sym s). destruct (floor_5min t =? s); simpl; rewrite IH; reflexivity.
Qed.

Lemma floor_5min_multiple (t : Q) : floor_5min t mod FIVE_MIN = 0.
Proof.
  unfold floor_5min. rewrite Z.mul_comm. apply Z.mod_mul. discriminate.
Qed.

(** The slot index [date_range_5min] builds between two slot boundaries. *)
Lemma date_range_5min_spec (lo hi : Z) :
  lo <= hi ->
  (hi - lo) mod FIVE_MIN = 0 ->
  date_range_5min lo hi
  = map (fun i => lo + FIVE_MIN * Z.of_nat i)
        (seq 0 (S (Z.to_nat ((hi - lo) / FIVE_MIN))))
  /\ lo + FIVE_MIN * Z.of_nat (Z.to_nat ((hi - lo) / FIVE_MIN)) = hi.
Proof.
  intros Hle Hmod. unfold date_range_5min.
  destruct (hi <? lo) eqn:E; [apply Z.ltb_lt in E; lia|].
  split; [reflexivity|].
  unfold FIVE_MIN in *.
  rewrite Z2Nat.id by (apply Z.div_pos; lia).
  pose proof (Z.div_mod (hi - lo) 300). lia.
Qed.

End SeriesFacts.

Module SeriesContiguity.

Import Task1Model SeriesFacts.

(** C7.  For a non-empty set of calls [build_5min_series] returns a
    series whose slot starts run from the earliest observed slot [lo] to
    the latest one [hi] in steps of five minutes: every slot boundary in
    between is present, and each slot carries the number of calls that
    fall in it, hence 0 where the raw counts have no entry. *)
Theorem series_is_gap_free (times : list Q) :
  times <> [] ->
  exists slots lo hi,
    build_5min_series times = Ok slots
    /\ In lo (map floor_5min times)
    /\ In hi (map floor_5min times)
    /\ (forall t, In t times -> lo <= floor_5min t <= hi)
    /\ map interval_start slots
       = map (fun i => lo + FIVE_MIN * Z.of_nat i)
             (seq 0 (S (Z.to_nat ((hi - lo) / FIVE_MIN))))
    /\ last (map interval_start slots) lo = hi
    /\ (forall b, lo <= b <= hi -> (b - lo) mod FIVE_MIN = 0 ->
                  In b (map interval_start slots))
    /\ (forall slot, In slot slots ->
          count slot
          = Z.of_nat (List.length
                        (filter (fun t => floor_5min t =? interval_start slot) times)))
    /\ (forall slot, In slot slots ->
          (forall t, In t times -> floor_5min t <> interval_start slot) ->
          count slot = 0).
Proof.
  intro Hne. unfold build_5min_series.
  destruct times as [|t0 times]; [congruence|].
  cbn [map].
  set (b := floor_5min t0). set (bs := map floor_5min times).
  destruct (Zlist_min_spec bs b) as [Hlo_in Hlo_le].
  destruct (Zlist_max_spec bs b) as [Hhi_in Hhi_le].
  set (lo := Zlist_min b bs) in *. set (hi := Zlist_max b bs) in *.
  assert (Hmult : forall x, In x (b :: bs) -> x mod FIVE_MIN = 0).
  { intros x [Hx|Hx].
    - subst x. apply floor_5min_multiple.
    - subst bs. apply in_map_iff in Hx. destruct Hx as [t [Ht _]]. subst x.
      apply floor_5min_multiple. }
  assert (Hlohi : lo <= hi) by (apply Hlo_le, Hhi_in).
  assert (Hmod : (hi - lo) mod FIVE_MIN = 0).
  { pose proof (Hmult lo Hlo_in) as H1. pose proof (Hmult hi Hhi_in) as H2.
    unfold FIVE_MIN in *. rewrite Zminus_mod, H1, H2. reflexivity. }
  destruct (date_range_5min_spec lo hi Hlohi Hmod) as [Hrange Hlast].
  set (m := Z.to_nat ((hi - lo) / FIVE_MIN)) in *.
  eexists. exists lo, hi.
  split; [reflexivity|].
  assert (Hstarts :
            map interval_start
                (map (fun s => mkSlot s (reindex_at (group_sizes (b :: bs)) s)
                                      (regime_of s) (tau_of s))
                     (date_range_5min lo hi))
            = map (fun i => lo + FIVE_MIN * Z.of_nat i) (seq 0 (S m))).
  { rewrite map_map. cbn [interval_start]. rewrite map_id. exact Hrange. }
  split; [exact Hlo_in|]. split; [exact Hhi_in|].
  split.
  { intros t Ht.
    assert (Hin : In (floor_5min t) (b :: bs)).
    { destruct Ht as [Ht|Ht]; [left; subst t; reflexivity|].
      right. subst bs. apply in_map. exact Ht. }
    split; [apply Hlo_le, Hin | apply Hhi_le, Hin]. }
  split; [exact Hstarts|].
  split.
  { rewrite Hstarts. rewrite seq_S, map_app. cbn [map]. rewrite last_last.
    exact Hlast. }
  split.
  { intros x [Hx1 Hx2] Hxm. rewrite Hstarts. apply in_map_iff.
    exists (Z.to_nat ((x - lo) / FIVE_MIN)). split.
    - unfold FIVE_MIN in *. rewrite Z2Nat.id by (apply Z.div_pos; lia).
      pose proof (Z.div_mod (x - lo) 300). lia.
    - apply in_seq. split; [lia|]. simpl. subst m.
      assert ((x - lo) / FIVE_MIN <= (hi - lo) / FIVE_MIN).
      { apply Z.div_le_mono; unfold FIVE_MIN; lia. }
      assert (0 <= (x - lo) / FIVE_MIN) by (apply Z.div_pos; unfold FIVE_MIN; lia).
      lia. }
  assert (Hcount : forall slot,
             In slot (map (fun s => mkSlot s (reindex_at (group_sizes (b :: bs)) s)
                                           (regime_of s) (tau_of s))
                          (date_range_5min lo hi)) ->
             count slot
             = Z.of_nat (List.length
                  (filter (fun t => floor_5min t =? interval_start slot)
                          (t0 :: times)))).
  { intros slot Hs. apply in_map_iff in Hs. destruct Hs as [s [Hs _]]. subst slot.
    cbn [count interval_start]. rewrite reindex_at_counts.
    change (b :: bs) with (map floor_5min (t0 :: times)).
    rewrite filter_map_length. reflexivity. }
  split; [exact Hcount|].
  intros slot Hs Habs. rewrite (Hcount slot Hs).
  rewrite SimulatorFacts.filter_nil; [reflexivity|].
  intros t Ht. apply Z.eqb_neq. apply Habs, Ht.
Qed.

Lemma series_is_gap_free_witness :
  exists slots,
    build_5min_series [(1000 # 1)%Q; (130 # 1)%Q; (1001 # 2)%Q; (1199 # 1)%Q] = Ok slots
    /\ map interval_start slots = [0; 300; 600; 900]
    /\ map count slots = [1; 1; 0; 2].
Proof.
  destruct (series_is_gap_free
              [(1000 # 1)%Q; (130 # 1)%Q; (1001 # 2)%Q; (1199 # 1)%Q])
    as [slots [lo [hi [Hb _]]]].
  - discriminate.
  - exists slots. split; [exact Hb|].
    vm_compute in Hb. injection Hb as <-. split; reflexivity.
Defined.

End SeriesContiguity.

(** ** The baseline and AR(1) fit, [task1_model.py] *)
Module FitFacts.

Import Task1Model.

(** *** Lists in step *)

Lemma combine_app_same {A B : Type} (l1 l2 : list A) (k1 k2 : list B) :
  List.length l1 = List.length k1 ->
  combine (l1 ++ l2) (k1 ++ k2) = combine l1 k1 ++ combine l2 k2.
Proof.
  revert k1. induction l1 as [|a l1 IH]; intros [|b k1] H; simpl in *;
    try discriminate; [reflexivity|].
  f_equal. apply IH. lia.
Qed.

Lemma combine_rev {A B : Type} (l : list A) (k : list B) :
  List.length l = List.length k ->
  combine (rev l) (rev k) = rev (combine l k).
Proof.
  revert k. induction l as [|a l IH]; intros [|b k] H; simpl in *;
    try discriminate; [reflexivity|].
  rewrite combine_app_same by (rewrite !length_rev; lia).
  rewrite IH by lia. reflexivity.
Qed.

(** Rolling two arrays of one length keeps their entries paired. *)
Lemma roll1_pairs {A B : Type} (l : list A) (k : list B) (a : A) (b : B) :
  List.length l = List.length k ->
  In (a, b) (combine (roll1 l) (roll1 k)) -> In (a, b) (combine l k).
Proof.
  intros Hlen Hin. apply in_rev. rewrite <- combine_rev by exact Hlen.
  unfold roll1 in Hin.
  assert (Hr : List.length (rev l) = List.length (rev k))
    by (rewrite !length_rev; exact Hlen).
  destruct (rev l) as [|x r]; [contradiction|].
  destruct (rev k) as [|y r']; [discriminate|].
  simpl in Hin. simpl. destruct Hin as [H|H]; [left; exact H|right].
  rewrite combine_rev in H by (simpl in Hr; lia).
  apply in_rev in H. exact H.
Qed.

Lemma roll1_length {A : Type} (l : list A) : List.length (roll1 l) = List.length l.
Proof.
  unfold roll1. rewrite <- (length_rev l).
  destruct (rev l) as [|x r]; [reflexivity|]. simpl. rewrite length_rev. reflexivity.
Qed.

Lemma select_entry {A L : Type} (g : L -> bool) (rows : list L) (l : list A) (v : A) :
  In v (select (map g rows) l) ->
  exists a, In (a, v) (combine rows l) /\ g a = true.
Proof.
  unfold select. revert l.
  induction rows as [|a rows IH]; intros [|x l] H; simpl in *; try contradiction.
  destruct (g a) eqn:E; simpl in H.
  - destruct H as [H|H].
    + subst x. exists a. split; [left; reflexivity | exact E].
    + destruct (IH l H) as [a' [Ha' Hg]]. exists a'. split; [right; exact Ha' | exact Hg].
  - destruct (IH l H) as [a' [Ha' Hg]]. exists a'. split; [right; exact Ha' | exact Hg].
Qed.

Lemma in_combine_nested {V W E : Type} (vs : list V) (wa wp : list W) (ep : list E)
      (v : V) (wc wq : W) (x : E) :
  In ((v, (wc, wq)), x) (combine (combine vs (combine wa wp)) ep) ->
  In (wq, x) (combine wp ep).
Proof.
  revert wa wp ep.
  induction vs as [|v0 vs IH]; intros [|a wa] [|p wp] [|e ep] H; simpl in *;
    try contradiction.
  destruct H as [H|H].
  - injection H as _ _ <- <-. left. reflexivity.
  - right. apply (IH wa wp ep H).
Qed.

Lemma in_combine_map_l {A B C : Type} (f : A -> B) (l : list A) (k : list C)
      (b : B) (c : C) :
  In (b, c) (combine (map f l) k) -> exists a, In (a, c) (combine l k) /\ f a = b.
Proof.
  revert k. induction l as [|a l IH]; intros [|x k] H; simpl in *; try contradiction.
  destruct H as [H|H].
  - injection H as <- <-. exists a. split; [left; reflexivity | reflexivity].
  - destruct (IH k H) as [a' [Ha Hf]]. exists a'. split; [right; exact Ha | exact Hf].
Qed.

Lemma in_combine_exists_r {A B : Type} (l : list A) (k : list B) (a : A) :
  List.length l = List.length k -> In a l -> exists b, In (a, b) (combine l k).
Proof.
  revert k. induction l as [|x l IH]; intros [|y k] Hlen Hin; simpl in *;
    try contradiction; try discriminate.
  destruct Hin as [H|H].
  - subst x. exists y. left. reflexivity.
  - destruct (IH k) as [b Hb]; [lia | exact H |]. exists b. right. exact Hb.
Qed.

(** *** [mapM] *)

Lemma mapM_ok {A B : Type} (f : A -> result B) (l : list A) :
  (forall x, In x l -> exists y, f x = Ok y) ->
  exists ys, mapM f l = Ok ys.
Proof.
  induction l as [|x l IH]; intro H; simpl.
  - exists []. reflexivity.
  - destruct (H x (or_introl eq_refl)) as [y Hy]. rewrite Hy. cbn [bind].
    destruct IH as [ys Hys]; [intros z Hz; apply H; right; exact Hz|].
    rewrite Hys. cbn [bind]. exists (y :: ys). reflexivity.
Qed.

Lemma mapM_entries {A B : Type} (f : A -> result B) (l : list A) (ys : list B) :
  mapM f l = Ok ys ->
  List.length ys = List.length l
  /\ forall x y, In (x, y) (combine l ys) -> f x = Ok y.
Proof.
  revert ys. induction l as [|a l IH]; intros ys H; simpl in H.
  - injection H as <-. split; [reflexivity|]. intros x y [].
  - destruct (f a) as [b|e] eqn:Ea; cbn [bind] in H; [|discriminate].
    destruct (mapM f l) as [bs|e] eqn:El; cbn [bind] in H; [|discriminate].
    injection H as <-. destruct (IH bs eq_refl) as [Hl He].
    split; [simpl; lia|].
    intros x y [Hxy|Hxy].
    + injection Hxy as <- <-. exact Ea.
    + apply He, Hxy.
Qed.

Lemma mapM_nth {A B : Type} (f : A -> result B) (l : list A) (ys : list B)
      (i : nat) (da : A) (db : B) :
  mapM f l = Ok ys -> (i < List.length l)%nat -> f (nth i l da) = Ok (nth i ys db).
Proof.
  intros H Hi. destruct (mapM_entries f l ys H) as [Hl He].
  apply He. rewrite <- (combine_nth l ys i da db) by lia.
  apply nth_In. rewrite length_combine. lia.
Qed.

(** *** The baseline *)

Lemma Qsum_constant (vals : list Q) (c : Q) :
  (forall v, In v vals -> (v == c)%Q) ->
  (Qsum vals == inject_Z (Z.of_nat (List.length vals)) * c)%Q.
Proof.
  induction vals as [|v vals IH]; intro H.
  - simpl. ring.
  - change (Qsum (v :: vals)) with (v + Qsum vals)%Q.
    change (List.length (v :: vals)) with (S (List.length vals)).
    rewrite IH by (intros u Hu; apply H; right; exact Hu).
    rewrite (H v (or_introl eq_refl)).
    rewrite Nat2Z.inj_succ. unfold Z.succ. rewrite inject_Z_plus.
    change (inject_Z 1) with 1%Q. ring.
Qed.

Lemma Qsum_zero (vals : list Q) :
  (forall v, In v vals -> (v == 0)%Q) -> (Qsum vals == 0)%Q.
Proof.
  intro H. rewrite (Qsum_constant vals 0 H). ring.
Qed.

(** The mean of a slot never divides by zero. *)
Lemma slot_mean_ok (series : list Slot) (wv tauv : Z) :
  exists m, slot_mean series wv tauv = Ok m.
Proof.
  unfold slot_mean.
  destruct (map _ (filter _ series)) as [|v vals] eqn:E.
  - exists 0%Q. reflexivity.
  - unfold checked_div.
    destruct (Qeqb (inject_Z (Z.of_nat (List.length (v :: vals)))) 0) eqn:Ez.
    + exfalso. apply Qeqb_eq in Ez. unfold Qeq in Ez. simpl in Ez. lia.
    + eexists. reflexivity.
Qed.

(** Where all counts of a slot agree, the mean is that count. *)
Lemma slot_mean_constant (series : list Slot) (wv tauv : Z) (c : Z) (m : Q) :
  slot_mean series wv tauv = Ok m ->
  (exists s, In s series /\ w s = wv /\ tau s = tauv) ->
  (forall s, In s series -> w s = wv -> tau s = tauv -> count s = c) ->
  (m == inject_Z c)%Q.
Proof.
  intros Hm [s0 [Hin0 [Hw0 Ht0]]] Hall. unfold slot_mean in Hm.
  set (g := filter (fun s => (w s =? wv) && (tau s =? tauv)) series) in *.
  assert (Hg0 : In s0 g).
  { subst g. apply filter_In. split; [exact Hin0|].
    rewrite Hw0, Ht0, !Z.eqb_refl. reflexivity. }
  set (vals := map (fun s => inject_Z (count s)) g) in *.
  assert (Hvals : forall v, In v vals -> (v == inject_Z c)%Q).
  { intros v Hv. subst vals. apply in_map_iff in Hv. destruct Hv as [s [Hs Hin]].
    subst v. subst g. apply filter_In in Hin. destruct Hin as [Hin Hb].
    apply andb_true_iff in Hb. destruct Hb as [Hb1 Hb2].
    apply Z.eqb_eq in Hb1, Hb2. rewrite (Hall s Hin Hb1 Hb2). reflexivity. }
  assert (Hlen : (0 < List.length vals)%nat).
  { subst vals. rewrite length_map. destruct g; [contradiction|simpl; lia]. }
  pose proof (Qsum_constant vals (inject_Z c) Hvals) as Hsum.
  destruct vals as [|v vals']; [simpl in Hlen; lia|].
  unfold checked_div in Hm.
  set (n := inject_Z (Z.of_nat (List.length (v :: vals')))) in *.
  destruct (Qeqb n 0) eqn:Ez; [discriminate|].
  injection Hm as <-. rewrite Hsum. field.
  intro E. apply Qeqb_eq in E. congruence.
Qed.

End FitFacts.

Module FitDegenerate.

Import Task1Model FitFacts.

Lemma py_range_nth (n : Z) (i : nat) :
  (i < Z.to_nat n)%nat -> nth i (py_range n) 0 = Z.of_nat i.
Proof.
  intro H. unfold py_range.
  change 0 with (Z.of_nat 0). rewrite map_nth. rewrite seq_nth by exact H.
  reflexivity.
Qed.

Lemma py_range_length (n : Z) : List.length (py_range n) = Z.to_nat n.
Proof. unfold py_range. rewrite length_map, length_seq. reflexivity. Qed.

(** The baseline array is built without error; its entry [tau] is the
    mean of slot [tau]. *)
Lemma baseline_ok (series : list Slot) (wv : Z) :
  exists mu,
    baseline series wv = Ok mu
    /\ Z.of_nat (List.length mu) = N_INTERVALS_PER_DAY
    /\ forall tauv, 0 <= tauv < N_INTERVALS_PER_DAY ->
                    slot_mean series wv tauv = Ok (nth (Z.to_nat tauv) mu 0%Q).
Proof.
  unfold baseline.
  destruct (mapM_ok (slot_mean series wv) (py_range N_INTERVALS_PER_DAY))
    as [mu Hmu].
  { intros x _. apply slot_mean_ok. }
  exists mu. split; [exact Hmu|].
  destruct (mapM_entries _ _ _ Hmu) as [Hlen _].
  rewrite py_range_length in Hlen.
  split; [rewrite Hlen; reflexivity|].
  intros tauv Ht.
  pose proof (mapM_nth (slot_mean series wv) (py_range N_INTERVALS_PER_DAY) mu
                       (Z.to_nat tauv) 0 0%Q Hmu) as Hn.
  rewrite py_range_length in Hn.
  rewrite py_range_nth in Hn by (unfold N_INTERVALS_PER_DAY in *; lia).
  rewrite Z2Nat.id in Hn by lia.
  apply Hn. unfold N_INTERVALS_PER_DAY in *. lia.
Qed.

Section Fitted.
Variable series : list Slot.
Hypothesis series_wf : well_formed series.
Variables mu0 mu1 : list Q.
Hypothesis mu0_fit : baseline series 0 = Ok mu0.
Hypothesis mu1_fit : baseline series 1 = Ok mu1.

Lemma mu_lookup_mean (s : Slot) :
  In s series ->
  exists m, mu_lookup mu0 mu1 (w s) (tau s) = Ok m
            /\ slot_mean series (w s) (tau s) = Ok m.
Proof.
  intro Hin. destruct (series_wf s Hin) as [Hw Ht].
  destruct (baseline_ok series 0) as [m0 [H0 [L0 M0]]].
  destruct (baseline_ok series 1) as [m1 [H1 [L1 M1]]].
  rewrite mu0_fit in H0. injection H0 as <-.
  rewrite mu1_fit in H1. injection H1 as <-.
  unfold mu_lookup.
  destruct Hw as [Hw|Hw]; rewrite Hw;
    [change (0 =? 0) with true | change (1 =? 0) with false;
                                 change (1 =? 1) with true];
    cbn [bind].
  - rewrite L0.
    destruct (tau s <? 0) eqn:E1; [apply Z.ltb_lt in E1; lia|].
    destruct ((tau s <? 0) || (N_INTERVALS_PER_DAY <=? tau s)) eqn:E2.
    + apply orb_true_iff in E2. destruct E2 as [E2|E2];
        [apply Z.ltb_lt in E2 | apply Z.leb_le in E2]; lia.
    + eexists. split; [reflexivity|]. apply M0, Ht.
  - rewrite L1.
    destruct (tau s <? 0) eqn:E1; [apply Z.ltb_lt in E1; lia|].
    destruct ((tau s <? 0) || (N_INTERVALS_PER_DAY <=? tau s)) eqn:E2.
    + apply orb_true_iff in E2. destruct E2 as [E2|E2];
        [apply Z.ltb_lt in E2 | apply Z.leb_le in E2]; lia.
    + eexists. split; [reflexivity|]. apply M1, Ht.
Qed.

(** The deviations are computed without error, one per row: the count
    minus the mean of the row's slot. *)
Lemma residuals_ok :
  exists e,
    residuals series mu0 mu1 = Ok e
    /\ List.length e = List.length series
    /\ forall s x, In (s, x) (combine series e) ->
                   exists m, slot_mean series (w s) (tau s) = Ok m
                             /\ x = (inject_Z (count s) - m)%Q.
Proof.
  unfold residuals.
  destruct (mapM_ok
              (fun s => m <- mu_lookup mu0 mu1 (w s) (tau s) ;;
                        Ok (inject_Z (count s) - m)%Q) series) as [e He].
  { intros s Hs. destruct (mu_lookup_mean s Hs) as [m [Hm _]].
    rewrite Hm. cbn [bind]. eexists. reflexivity. }
  exists e. split; [exact He|].
  destruct (mapM_entries _ _ _ He) as [Hlen Hent].
  split; [exact Hlen|].
  intros s x Hsx. pose proof (Hent s x Hsx) as Hx. cbn beta in Hx.
  destruct (mu_lookup_mean s (in_combine_l _ _ _ _ Hsx)) as [m [Hm Hmean]].
  rewrite Hm in Hx. cbn [bind] in Hx. injection Hx as <-.
  exists m. split; [exact Hmean | reflexivity].
Qed.

(** Identical deviations within a regime are all zero: rows of one slot
    then share their count, which is the slot's mean. *)
Lemma identical_residuals_vanish (e : list Q) (wv : Z) :
  residuals series mu0 mu1 = Ok e ->
  (forall s1 x1 s2 x2,
      In (s1, x1) (combine series e) -> In (s2, x2) (combine series e) ->
      w s1 = wv -> w s2 = wv -> (x1 == x2)%Q) ->
  forall s x, In (s, x) (combine series e) -> w s = wv -> (x == 0)%Q.
Proof.
  intros He Hsame s x Hsx Hw.
  destruct residuals_ok as [e' [He' [Hlen Hent]]].
  rewrite He in He'. injection He' as <-.
  destruct (Hent s x Hsx) as [m [Hm Hx]].
  assert (Hc : (m == inject_Z (count s))%Q).
  { apply (slot_mean_constant series (w s) (tau s) (count s) m Hm).
    - exists s. split; [exact (in_combine_l _ _ _ _ Hsx)|]. split; reflexivity.
    - intros s' Hin' Hw' Ht'.
      destruct (in_combine_exists_r series e s' (eq_sym Hlen) Hin') as [x' Hsx'].
      destruct (Hent s' x' Hsx') as [m' [Hm' Hx']].
      rewrite Hw', Ht' in Hm'. rewrite Hm in Hm'. injection Hm' as <-.
      assert (Heq : (x' == x)%Q).
      { apply (Hsame s' x' s x Hsx' Hsx); congruence. }
      rewrite Hx, Hx' in Heq.
      assert (Hq : (inject_Z (count s') == inject_Z (count s))%Q) by lra.
      exact (proj1 (inject_Z_injective _ _) Hq). }
  rewrite Hx, Hc. ring.
Qed.
End Fitted.

(** The least-squares step never divides by zero. *)
Lemma fit_phi_ok (e : list Q) (w_arr : list Z) (wv : Z) :
  exists phi, fit_phi e w_arr wv = Ok phi.
Proof.
  unfold fit_phi.
  destruct (Z.of_nat _ =? 0); [exists 0%Q; reflexivity|].
  destruct (Qeqb (Qsum (map _ (select _ (roll1 e)))) 0) eqn:E;
    [exists 0%Q; reflexivity|].
  unfold checked_div. rewrite E. eexists. reflexivity.
Qed.

(** With vanishing deviations in regime [wv], the coefficient is 0.0. *)
Lemma fit_phi_zero (e : list Q) (w_arr : list Z) (wv : Z) :
  List.length e = List.length w_arr ->
  (forall wq x, In (wq, x) (combine w_arr e) -> wq = wv -> (x == 0)%Q) ->
  fit_phi e w_arr wv = Ok 0%Q.
Proof.
  intros Hlen Hzero. unfold fit_phi.
  destruct (Z.of_nat _ =? 0); [reflexivity|].
  set (mask := map _ (combine _ (combine w_arr (roll1 w_arr)))).
  assert (Hx : forall v, In v (select mask (roll1 e)) -> (v == 0)%Q).
  { intros v Hv. subst mask.
    apply select_entry in Hv. destruct Hv as [[vl [wc wq]] [Hin Hg]].
    cbn [fst snd] in Hg.
    apply andb_true_iff in Hg. destruct Hg as [_ Hq]. apply Z.eqb_eq in Hq.
    apply in_combine_nested in Hin.
    apply roll1_pairs in Hin; [|lia].
    apply (Hzero wq v Hin Hq). }
  assert (Hden : (Qsum (map (fun a => a * a)%Q (select mask (roll1 e))) == 0)%Q).
  { apply Qsum_zero. intros v Hv. apply in_map_iff in Hv.
    destruct Hv as [a [Ha Hin]]. subst v. rewrite (Hx a Hin). ring. }
  apply Qeqb_eq in Hden. rewrite Hden. reflexivity.
Qed.

(** C6.  On a non-empty series of well-formed rows the fit returns
    without raising, so no division by zero takes place; and whenever
    the deviations of all rows of a regime are identical, that regime's
    AR(1) coefficient is 0.0. *)
Theorem ar_coefficient_zero_on_identical_residuals (series : list Slot) (wv : Z) :
  series <> [] ->
  well_formed series ->
  wv = 0 \/ wv = 1 ->
  exists fit e,
    estimate_baseline_and_phi series = Ok fit
    /\ residuals series (mu_w0 fit) (mu_w1 fit) = Ok e
    /\ ((forall s1 x1 s2 x2,
            In (s1, x1) (combine series e) -> In (s2, x2) (combine series e) ->
            w s1 = wv -> w s2 = wv -> (x1 == x2)%Q) ->
        phi_w fit wv = 0%Q).
Proof.
  intros Hne Hwf Hwv. unfold estimate_baseline_and_phi.
  destruct (baseline_ok series 0) as [mu0 [H0 _]].
  destruct (baseline_ok series 1) as [mu1 [H1 _]].
  rewrite H0, H1. cbn [bind].
  destruct (residuals_ok series Hwf mu0 mu1 H0 H1) as [e [He [Hlen Hent]]].
  rewrite He. cbn [bind].
  destruct series as [|s0 rest] eqn:Es; [congruence|]. rewrite <- Es in *.
  destruct (fit_phi_ok e (map w series) 0) as [phi0 Hp0].
  destruct (fit_phi_ok e (map w series) 1) as [phi1 Hp1].
  rewrite Hp0, Hp1. cbn [bind].
  exists (mkFit mu0 mu1 phi0 phi1), e.
  split; [reflexivity|]. split; [exact He|].
  intro Hsame.
  assert (Hz : fit_phi e (map w series) wv = Ok 0%Q).
  { apply fit_phi_zero; [rewrite length_map; exact Hlen|].
    intros wq x Hin Hq.
    apply in_combine_map_l in Hin. destruct Hin as [s [Hsx Hw]].
    apply (identical_residuals_vanish series Hwf mu0 mu1 H0 H1 e wv He Hsame s x Hsx).
    congruence. }
  unfold phi_w. cbn [phi_w0 phi_w1].
  destruct Hwv as [E|E]; subst wv; cbn [Z.eqb]; congruence.
Qed.

Lemma ar_coefficient_zero_on_identical_residuals_witness :
  let series := [mkSlot 0 3 1 0; mkSlot 300 5 1 1; mkSlot 600 2 0 2;
                 mkSlot 900 7 0 3; mkSlot 86400 3 1 0; mkSlot 173100 4 0 3] in
  exists fit,
    estimate_baseline_and_phi series = Ok fit
    /\ phi_w fit 1 = 0%Q.
Proof.
  cbv zeta.
  set (series := [mkSlot 0 3 1 0; mkSlot 300 5 1 1; mkSlot 600 2 0 2;
                  mkSlot 900 7 0 3; mkSlot 86400 3 1 0; mkSlot 173100 4 0 3]).
  assert (Hwf : well_formed series).
  { intros s Hs. simpl in Hs.
    repeat (destruct Hs as [Hs|Hs]; [subst s; simpl; unfold N_INTERVALS_PER_DAY; lia|]).
    contradiction. }
  destruct (ar_coefficient_zero_on_identical_residuals series 1)
    as [fit [e [Hfit [He Hphi]]]].
  - discriminate.
  - exact Hwf.
  - right. reflexivity.
  - exists fit. split; [exact Hfit|]. apply Hphi.
    vm_compute in Hfit. injection Hfit as <-.
    vm_compute in He. injection He as <-.
    intros s1 x1 s2 x2 H1 H2 Hw1 Hw2. simpl in H1, H2.
    repeat (destruct H1 as [H1|H1];
            [injection H1 as <- <-; try (simpl in Hw1; discriminate)|]);
      try contradiction;
      repeat (destruct H2 as [H2|H2];
              [injection H2 as <- <-; try (simpl in Hw2; discriminate)|]);
      try contradiction; reflexivity.
Defined.

End FitDegenerate.

(** * Further properties of the embedded code *)

(** ** Zone allocation and the parking plan *)
Module AllocationProperties.

Import PrimFloat FloatClass FloatOps SpecFloat.
Import Task3Parking Task3ParkingFloat.

Local Open Scope float_scope.

(** The template of a state is the template of one of the six names. *)
Lemma templates_get_name (state : string) :
  exists name,
    In name (map fst templates)
    /\ templates_get templates state = templates_get templates name.
Proof.
  unfold templates. cbn [templates_get map fst].
  repeat match goal with
         | |- context [String.eqb ?a state] =>
             destruct (String.eqb a state) eqn:?;
             [exists a; split; [simpl; tauto | reflexivity]|]
         end.
  exists "Afternoon Mixed"%string. split; [simpl; tauto | reflexivity].
Qed.

(** Every input of [_proportions_from_state] falls in one of the
    eighteen cases of [branch_cases]. *)
Lemma proportions_cases (alg : Summation) (state : string) (y_hat : float) :
  exists c,
    In c branch_cases
    /\ _proportions_from_state alg state y_hat
       = _proportions_from_state alg (fst c) (snd c).
Proof.
  destruct (templates_get_name state) as [name [Hname E]].
  assert (Hin : forall y, In y [0; 5; 12] -> In (name, y) branch_cases).
  { intros y Hy. unfold branch_cases. apply in_prod; assumption. }
  unfold _proportions_from_state. rewrite E.
  destruct (y_hat <=? 1) eqn:E1.
  - exists (name, 0). split; [apply Hin; simpl; tauto | reflexivity].
  - destruct (10 <=? y_hat) eqn:E2.
    + exists (name, 12). split; [apply Hin; simpl; tauto | reflexivity].
    + exists (name, 5). split; [apply Hin; simpl; tauto | reflexivity].
Qed.

Lemma all_shares_ok (alg : Summation) :
  forallb (fun c => shares_ok (_proportions_from_state alg (fst c) (snd c)))
          branch_cases = true.
Proof. destruct alg; vm_compute; reflexivity. Qed.

Lemma all_allocations_ok (alg : Summation) :
  forallb (fun c =>
             forallb (fun n => allocation_ok
                                 n (compute_desired_allocation alg (fst c) (snd c) n))
                     (py_range (MAX_FLEET + 1)))
          branch_cases = true.
Proof. destruct alg; vm_compute; reflexivity. Qed.

Lemma in_py_range (n m : Z) : (0 <= n < m)%Z -> In n (py_range m).
Proof.
  intro H. unfold py_range. apply in_map_iff. exists (Z.to_nat n).
  split; [lia|]. apply in_seq. lia.
Qed.

(** X1.  Whatever the state label (known or not), the forecast (any
    double, NaN and the infinities included) and the summation of the
    interpreter, [_proportions_from_state] returns without raising three
    shares, each a double strictly between 0 and 1, that add up to one
    within [2^-52] as real numbers. *)
Theorem proportions_sum_to_one (alg : Summation) (state : string) (y_hat : float) :
  exists props,
    _proportions_from_state alg state y_hat = Ok props
    /\ (forall z, (0 <? props z) = true /\ (props z <? 1) = true)
    /\ (Qabs (Q_of_float (props Lobby) + Q_of_float (props Mid)
              + Q_of_float (props Upper) - 1) <= 1 # 2 ^ 52)%Q.
Proof.
  destruct (proportions_cases alg state y_hat) as [c [Hc E]]. rewrite E.
  pose proof (proj1 (forallb_forall _ _) (all_shares_ok alg) c Hc) as H.
  cbv beta in H.
  destruct (_proportions_from_state alg (fst c) (snd c)) as [props|e];
    [|discriminate].
  exists props. split; [reflexivity|].
  unfold shares_ok in H. apply andb_true_iff in H. destruct H as [Hz Hs].
  split.
  - intro z. assert (Hz' := proj1 (forallb_forall _ _) Hz z).
    cbv beta in Hz'. apply andb_true_iff. apply Hz'. destruct z; simpl; tauto.
  - apply Qle_bool_iff. exact Hs.
Qed.

(** X2.  For a fleet of [0 <= n <= 1000] cars [compute_desired_allocation]
    never raises and returns non-negative whole counts per zone that add
    up to [n], for every state label, every forecast and either summation
    of the interpreter. *)
Theorem desired_allocation_sums_to_fleet
        (alg : Summation) (state : string) (y_hat : float) (n : Z) :
  (0 <= n <= MAX_FLEET)%Z ->
  exists alloc,
    compute_desired_allocation alg state y_hat n = Ok alloc
    /\ zsum alloc = n
    /\ forall z, (0 <= alloc z)%Z.
Proof.
  intro Hn.
  destruct (proportions_cases alg state y_hat) as [c [Hc E]].
  unfold compute_desired_allocation. rewrite E.
  change (exists alloc,
             compute_desired_allocation alg (fst c) (snd c) n = Ok alloc
             /\ zsum alloc = n /\ forall z, (0 <= alloc z)%Z).
  pose proof (proj1 (forallb_forall _ _) (all_allocations_ok alg) c Hc) as H.
  cbv beta in H.
  assert (Hin : In n (py_range (MAX_FLEET + 1))) by (apply in_py_range; lia).
  pose proof (proj1 (forallb_forall _ _) H n Hin) as Hok. cbv beta in Hok.
  destruct (compute_desired_allocation alg (fst c) (snd c) n) as [alloc|e];
    [|discriminate].
  exists alloc. split; [reflexivity|].
  unfold allocation_ok in Hok. apply andb_true_iff in Hok. destruct Hok as [Hs Hz].
  split; [apply Z.eqb_eq, Hs|].
  intro z. apply Z.leb_le. apply (proj1 (forallb_forall _ _) Hz z).
  destruct z; simpl; tauto.
Qed.

Lemma desired_allocation_sums_to_fleet_witness :
  exists alloc,
    compute_desired_allocation LeftToRight "Evening Down-Peak" 10 25 = Ok alloc
    /\ zsum alloc = 25%Z
    /\ forall z, (0 <= alloc z)%Z.
Proof.
  apply (desired_allocation_sums_to_fleet LeftToRight "Evening Down-Peak" 10 25).
  unfold MAX_FLEET. lia.
Defined.

(** Beyond the doubles that hold every whole number the rounding of
    [raw] leaves more cars to hand out than there are zones. *)
Lemma large_fleet_runs_out_of_zones :
  compute_desired_allocation LeftToRight "Morning Up-Peak" 0 (10 ^ 17)
  = Raise IndexError.
Proof. vm_compute. reflexivity. Qed.

End AllocationProperties.

(** ** Parking policies of the epoch evaluators *)
Module PolicyProperties.

Import EvaluatorParking ParkingZoneFacts.

(** X3.  [parking_zone] parks exactly [k] cars whenever it has some call
    history ([k >= 0]) or at least two cars. *)
Theorem parking_zone_parks_k_cars
        (history_floors : list Z) (k lobby_max mid_max F_min F_max : Z) :
  (history_floors <> [] /\ 0 <= k) \/ 2 <= k ->
  Z.of_nat (List.length (parking_zone history_floors k lobby_max mid_max F_min F_max))
  = k.
Proof.
  intros [[Hne Hk]|Hk].
  - apply parking_zone_length_history; assumption.
  - destruct history_floors as [|f hf].
    + apply parking_zone_length_fallback, Hk.
    + apply parking_zone_length_history; [discriminate | lia].
Qed.

Lemma parking_zone_parks_k_cars_witness :
  Z.of_nat (List.length (parking_zone [1; 1; 5; 9; 9; 9; 10] 8 3 8 1 12)) = 8
  /\ Z.of_nat (List.length (parking_zone [] 8 3 8 1 12)) = 8.
Proof.
  split.
  - apply (parking_zone_parks_k_cars [1; 1; 5; 9; 9; 9; 10] 8 3 8 1 12).
    left. split; [discriminate | lia].
  - apply (parking_zone_parks_k_cars [] 8 3 8 1 12). right. lia.
Defined.

(** X4.  For a strategy name outside [last_stop], [lobby], [zone],
    [dynamic], the strategy chain of the parking evaluator and
    [choose_parking_floor] of the simple evaluator both raise
    [ValueError] carrying the name, whatever the other arguments are. *)
Theorem unknown_strategy_raises_value_error
        (strat : string) (args : Args) (F_min F_max call_floor : Z)
        (prev hist_floors : list Z) :
  ~ In strat strategies ->
  plan args F_min F_max strat prev hist_floors = Raise (ValueError strat)
  /\ EvaluatorSimple.choose_parking_floor strat call_floor = Raise (ValueError strat).
Proof.
  intro Hn. unfold strategies in Hn. simpl in Hn.
  assert (H1 : String.eqb strat "last_stop" = false)
    by (apply String.eqb_neq; intro E; apply Hn; subst; tauto).
  assert (H2 : String.eqb strat "lobby" = false)
    by (apply String.eqb_neq; intro E; apply Hn; subst; tauto).
  assert (H3 : String.eqb strat "zone" = false)
    by (apply String.eqb_neq; intro E; apply Hn; subst; tauto).
  assert (H4 : String.eqb strat "dynamic" = false)
    by (apply String.eqb_neq; intro E; apply Hn; subst; tauto).
  unfold plan, EvaluatorSimple.choose_parking_floor.
  rewrite H1, H2, H3, H4. split; reflexivity.
Qed.

Lemma unknown_strategy_raises_value_error_witness :
  plan (mkArgs 8 (15 # 10) 8 12 3 8) 1 12 "dynamic_rule" [1] [4; 5]
  = Raise (ValueError "dynamic_rule")
  /\ EvaluatorSimple.choose_parking_floor "dynamic_rule" 7
     = Raise (ValueError "dynamic_rule").
Proof.
  apply (unknown_strategy_raises_value_error
           "dynamic_rule" (mkArgs 8 (15 # 10) 8 12 3 8) 1 12 7 [1] [4; 5]).
  unfold strategies. simpl. intros [H|[H|[H|[H|[]]]]]; discriminate.
Defined.

End PolicyProperties.

(** ** Helpers of the stress-test driver *)
Module DriverProperties.

Import StressTests SimulatorFacts.

(** X5.  [pick_col] returns the first candidate that is a column of the
    frame: the name it returns is a candidate and a column, and every
    candidate listed before it is absent.  It returns no name exactly
    when no candidate is a column, which is a [KeyError] when the column
    is required. *)
Theorem pick_col_first_present (columns candidates : list string) (required : bool) :
  (forall c, pick_col columns candidates required = Ok (Some c) ->
             In c columns
             /\ exists before after,
                 candidates = before ++ c :: after
                 /\ forall b, In b before -> ~ In b columns)
  /\ ((forall c, In c candidates -> ~ In c columns) ->
      pick_col columns candidates required
      = if required then Raise KeyError else Ok None)
  /\ ((exists c, In c candidates /\ In c columns) ->
      exists c, pick_col columns candidates required = Ok (Some c)).
Proof.
  split; [|split].
  - intros c H. unfold pick_col in H.
    destruct (find (fun c0 => existsb (String.eqb c0) columns) candidates) as [c'|] eqn:E.
    + injection H as <-.
      clear required. induction candidates as [|a cs IH]; [discriminate|].
      simpl in E. destruct (existsb (String.eqb a) columns) eqn:Ea.
      * injection E as <-. split; [apply existsb_eqb_In, Ea|].
        exists [], cs. split; [reflexivity|]. intros b [].
      * destruct (IH E) as [Hc [before [after [Heq Hb]]]].
        split; [exact Hc|]. exists (a :: before), after.
        split; [rewrite Heq; reflexivity|].
        intros b [Hb'|Hb'].
        -- subst b. intro Hin. apply existsb_eqb_In in Hin. congruence.
        -- apply Hb, Hb'.
    + destruct required; discriminate.
  - intro Hnone. unfold pick_col.
    destruct (find (fun c0 => existsb (String.eqb c0) columns) candidates) as [c'|] eqn:E;
      [|reflexivity].
    exfalso. apply find_some in E. destruct E as [Hin Hex].
    apply existsb_eqb_In in Hex. apply (Hnone c' Hin Hex).
  - intros [c [Hc Hcol]]. unfold pick_col.
    destruct (find (fun c0 => existsb (String.eqb c0) columns) candidates) as [c'|] eqn:E.
    + exists c'. reflexivity.
    + exfalso. pose proof (find_none _ _ E c Hc) as Hn. simpl in Hn.
      apply existsb_eqb_In in Hcol. congruence.
Qed.

(** X6.  The idle threshold [compute_theta1] is never below 1, and it is
    exactly 1 when fewer than 30 slots have a call. *)
Theorem compute_theta1_at_least_one (count_series : list Q) (q : Q) :
  (1 <= compute_theta1 count_series q)%Q
  /\ ((List.length (filter (fun c => Qltb 0 c) count_series) < 30)%nat ->
      compute_theta1 count_series q = 1%Q).
Proof.
  unfold compute_theta1. split.
  - destruct (Qltb 1 _) eqn:E; [apply Qltb_lt in E; apply Qlt_le_weak, E | apply Qle_refl].
  - intro H.
    destruct (30 <=? Z.of_nat (List.length (filter (fun c => Qltb 0 c) count_series)))
      eqn:E; [apply Z.leb_le in E; lia|].
    reflexivity.
Qed.


End DriverProperties.

(** ** Grouping rows by a key *)
Section Partition.
Variables (A K : Type).
Variable key : A -> K.
Variable eqb : K -> K -> bool.
Hypothesis eqb_eq : forall a b, eqb a b = true <-> a = b.

Lemma one_group_per_key (x : K) (keys : list K) :
  NoDup keys -> In x keys ->
  Zsum (map (fun b => if eqb x b then 1 else 0) keys) = 1.
Proof.
  induction 1 as [|k keys Hnin Hnd IH]; intro Hin; [contradiction|].
  cbn [map Zsum fold_right]. fold (Zsum (map (fun b => if eqb x b then 1 else 0) keys)).
  destruct (eqb x k) eqn:E.
  - apply eqb_eq in E. subst k.
    assert (Hz : Zsum (map (fun b => if eqb x b then 1 else 0) keys) = 0).
    { clear IH Hnd Hin. induction keys as [|b keys IH]; [reflexivity|].
      cbn [map Zsum fold_right].
      fold (Zsum (map (fun b => if eqb x b then 1 else 0) keys)).
      destruct (eqb x b) eqn:Eb.
      - apply eqb_eq in Eb. subst b. exfalso. apply Hnin. left. reflexivity.
      - rewrite IH; [reflexivity|]. intro H. apply Hnin. right. exact H. }
    lia.
  - destruct Hin as [Hin|Hin].
    + subst k. assert (eqb x x = true) by (apply eqb_eq; reflexivity). congruence.
    + rewrite (IH Hin). lia.
Qed.

Lemma Zsum_map_add (F G H : K -> Z) (ks : list K) :
  (forall b, F b = G b + H b) ->
  Zsum (map F ks) = Zsum (map G ks) + Zsum (map H ks).
Proof.
  intro E. induction ks as [|b ks IH]; [reflexivity|].
  change (Zsum (map F (b :: ks))) with (F b + Zsum (map F ks)).
  change (Zsum (map G (b :: ks))) with (G b + Zsum (map G ks)).
  change (Zsum (map H (b :: ks))) with (H b + Zsum (map H ks)).
  rewrite IH, E. lia.
Qed.

(** Groups over distinct keys that cover every row hold each row once. *)
Lemma groups_cover_rows (keys : list K) (rows : list A) :
  NoDup keys ->
  (forall r, In r rows -> In (key r) keys) ->
  Zsum (map (fun b => Z.of_nat (List.length (filter (fun r => eqb (key r) b) rows)))
            keys)
  = Z.of_nat (List.length rows).
Proof.
  intros Hnd. induction rows as [|r rows IH]; intro Hcov.
  - clear Hnd Hcov. induction keys as [|b keys IHk]; [reflexivity|].
    simpl in *. exact IHk.
  - rewrite (Zsum_map_add
               (fun b => Z.of_nat (List.length
                                     (filter (fun r0 => eqb (key r0) b) (r :: rows))))
               (fun b => if eqb (key r) b then 1 else 0)
               (fun b => Z.of_nat (List.length
                                     (filter (fun r0 => eqb (key r0) b) rows)))).
    + rewrite IH by (intros r0 H0; apply Hcov; right; exact H0).
      rewrite one_group_per_key by (try assumption; apply Hcov; left; reflexivity).
      cbn [List.length]. lia.
    + intro b. cbn [filter]. destruct (eqb (key r) b); cbn [List.length]; lia.
Qed.
End Partition.

Lemma nodup_Z_NoDup (l : list Z) : NoDup (EvaluatorParking.nodup_Z l).
Proof.
  induction l as [|x l IH]; cbn [EvaluatorParking.nodup_Z]; [constructor|].
  destruct (existsb (Z.eqb x) l) eqn:E; [exact IH|].
  constructor; [|exact IH].
  intro H. apply (proj1 (SeriesFacts.nodup_Z_In l x)) in H.
  assert (Ht : existsb (Z.eqb x) l = true).
  { apply existsb_exists. exists x. split; [exact H | apply Z.eqb_refl]. }
  congruence.
Qed.

Lemma nodup_string_NoDup (l : list string) : NoDup (ReportTables.nodup_string l).
Proof.
  induction l as [|x l IH]; cbn [ReportTables.nodup_string]; [constructor|].
  destruct (existsb (String.eqb x) l) eqn:E; [exact IH|].
  constructor; [|exact IH].
  intro H. apply Percentiles.nodup_string_In in H.
  assert (Ht : existsb (String.eqb x) l = true).
  { apply existsb_exists. exists x. split; [exact H | apply String.eqb_refl]. }
  congruence.
Qed.

Lemma nodup_string_complete (l : list string) (x : string) :
  In x l -> In x (ReportTables.nodup_string l).
Proof.
  induction l as [|y l IH]; simpl; [tauto|].
  intros [H|H].
  - subst y. destruct (existsb (String.eqb x) l) eqn:E.
    + apply IH. apply existsb_exists in E. destruct E as [z [Hz Ez]].
      apply String.eqb_eq in Ez. subst z. exact Hz.
    + left. reflexivity.
  - destruct (existsb (String.eqb y) l); [apply IH, H | right; apply IH, H].
Qed.

Lemma sort_by_NoDup {A : Type} (leb : A -> A -> bool) (l : list A) :
  NoDup l -> NoDup (sort_by leb l).
Proof.
  intro H. apply (Permutation_NoDup (Permutation_sym (sort_by_perm A leb l)) H).
Qed.

(** ** The series builder counts every call once *)
Module SeriesConservation.

Import Task1Model SeriesFacts SeriesWellFormed.

Lemma date_range_5min_NoDup (lo hi : Z) : NoDup (date_range_5min lo hi).
Proof.
  unfold date_range_5min. destruct (hi <? lo); [constructor|].
  generalize (S (Z.to_nat ((hi - lo) / FIVE_MIN))) as m. intro m.
  assert (H : forall start, NoDup (map (fun i => lo + FIVE_MIN * Z.of_nat i) (seq start m))).
  { induction m as [|m IH]; intro start; [constructor|].
    cbn [seq map]. constructor; [|apply IH].
    intro Hin. apply in_map_iff in Hin. destruct Hin as [j [Hj Hin]].
    apply in_seq in Hin. unfold FIVE_MIN in Hj. lia. }
  apply H.
Qed.

Lemma date_range_5min_covers (lo hi x : Z) :
  lo <= x <= hi -> (x - lo) mod FIVE_MIN = 0 -> In x (date_range_5min lo hi).
Proof.
  intros [H1 H2] Hm. unfold date_range_5min.
  destruct (hi <? lo) eqn:E; [apply Z.ltb_lt in E; lia|].
  apply in_map_iff. exists (Z.to_nat ((x - lo) / FIVE_MIN)). split.
  - unfold FIVE_MIN in *. rewrite Z2Nat.id by (apply Z.div_pos; lia).
    pose proof (Z.div_mod (x - lo) 300). lia.
  - apply in_seq. split; [lia|]. simpl.
    assert ((x - lo) / FIVE_MIN <= (hi - lo) / FIVE_MIN)
      by (apply Z.div_le_mono; unfold FIVE_MIN; lia).
    assert (0 <= (x - lo) / FIVE_MIN) by (apply Z.div_pos; unfold FIVE_MIN; lia).
    lia.
Qed.

(** X8.  When [build_5min_series] returns a series, the input was not
    empty, the slot counts are non-negative and add up to the number of
    calls (no call is lost or counted twice), and every row carries a
    regime flag in {0, 1} and a slot-of-day index in [0, 288). *)
Theorem series_counts_every_call_once (times : list Q) (slots : list Slot) :
  build_5min_series times = Ok slots ->
  times <> []
  /\ Zsum (map count slots) = Z.of_nat (List.length times)
  /\ (forall s, In s slots -> 0 <= count s)
  /\ well_formed slots.
Proof.
  intro Hb. split; [intro E; subst times; discriminate|].
  split; [|split; [|apply (built_series_well_formed times slots Hb)]].
  - unfold build_5min_series in Hb.
    destruct (map floor_5min times) as [|b bs] eqn:Es; [discriminate|].
    injection Hb as <-.
    destruct (Zlist_min_spec bs b) as [Hlo_in Hlo_le].
    destruct (Zlist_max_spec bs b) as [Hhi_in Hhi_le].
    set (lo := Zlist_min b bs) in *. set (hi := Zlist_max b bs) in *.
    rewrite map_map. cbn [count].
    rewrite (map_ext _ (fun s => Z.of_nat (List.length
                                  (filter (fun r => Z.eqb (id r) s) (b :: bs))))).
    + rewrite (groups_cover_rows Z Z id Z.eqb Z.eqb_eq).
      * rewrite <- Es, length_map. reflexivity.
      * apply date_range_5min_NoDup.
      * intros r Hr. unfold id.
        assert (Hmult : forall x, In x (b :: bs) -> x mod FIVE_MIN = 0).
        { intros x Hx. rewrite <- Es in Hx. apply in_map_iff in Hx.
          destruct Hx as [t [Ht _]]. subst x. apply floor_5min_multiple. }
        apply date_range_5min_covers.
        -- split; [apply Hlo_le, Hr | apply Hhi_le, Hr].
        -- pose proof (Hmult r Hr) as H1. pose proof (Hmult lo Hlo_in) as H2.
           unfold FIVE_MIN in *. rewrite Zminus_mod, H1, H2. reflexivity.
    + intro s. rewrite reindex_at_counts. f_equal. f_equal.
      apply filter_ext. intro r. unfold id. apply Z.eqb_sym.
  - intros s Hs. unfold build_5min_series in Hb.
    destruct (map floor_5min times) as [|b bs]; [discriminate|].
    injection Hb as <-. apply in_map_iff in Hs. destruct Hs as [x [Hx _]].
    subst s. cbn [count]. rewrite reindex_at_counts. lia.
Qed.

Lemma series_counts_every_call_once_witness :
  exists slots,
    build_5min_series [(1000 # 1)%Q; (130 # 1)%Q; (1001 # 2)%Q; (1199 # 1)%Q] = Ok slots
    /\ Zsum (map count slots) = 4.
Proof.
  eexists. split; [vm_compute; reflexivity|].
  apply (series_counts_every_call_once
           [(1000 # 1)%Q; (130 # 1)%Q; (1001 # 2)%Q; (1199 # 1)%Q]).
  vm_compute. reflexivity.
Defined.

End SeriesConservation.

(** ** The forecaster *)
Module ForecastProperties.

Import Task1Model FitFacts FitDegenerate SeriesWellFormed.

Lemma baseline_length (series : list Slot) (wv : Z) (mu : list Q) :
  baseline series wv = Ok mu -> Z.of_nat (List.length mu) = N_INTERVALS_PER_DAY.
Proof.
  intro H. destruct (baseline_ok series wv) as [mu' [H' [L _]]].
  rewrite H in H'. injection H' as <-. exact L.
Qed.

Lemma estimate_arrays (series : list Slot) (fit : Fit) :
  estimate_baseline_and_phi series = Ok fit ->
  baseline series 0 = Ok (mu_w0 fit) /\ baseline series 1 = Ok (mu_w1 fit)
  /\ series <> [].
Proof.
  unfold estimate_baseline_and_phi. intro H.
  destruct (baseline series 0) as [mu0|] eqn:E0; cbn [bind] in H; [|discriminate].
  destruct (baseline series 1) as [mu1|] eqn:E1; cbn [bind] in H; [|discriminate].
  destruct (residuals series mu0 mu1) as [e|]; cbn [bind] in H; [|discriminate].
  destruct series as [|s0 rest]; [discriminate|].
  destruct (fit_phi e _ 0) as [p0|]; cbn [bind] in H; [|discriminate].
  destruct (fit_phi e _ 1) as [p1|]; cbn [bind] in H; [|discriminate].
  injection H as <-. cbn [mu_w0 mu_w1]. repeat split; discriminate.
Qed.

Lemma mu_lookup_in_range (mu0 mu1 : list Q) (wv tauv : Z) :
  Z.of_nat (List.length mu0) = N_INTERVALS_PER_DAY ->
  Z.of_nat (List.length mu1) = N_INTERVALS_PER_DAY ->
  wv = 0 \/ wv = 1 ->
  0 <= tauv < N_INTERVALS_PER_DAY ->
  mu_lookup mu0 mu1 wv tauv
  = Ok (nth (Z.to_nat tauv) (if wv =? 0 then mu0 else mu1) 0%Q).
Proof.
  intros L0 L1 Hw Ht. unfold mu_lookup.
  destruct Hw as [Hw|Hw]; subst wv;
    [change (0 =? 0) with true | change (1 =? 0) with false;
                                 change (1 =? 1) with true];
    cbn [bind]; [rewrite L0 | rewrite L1];
    (destruct (tauv <? 0) eqn:E1; [apply Z.ltb_lt in E1; lia|]);
    (destruct ((tauv <? 0) || (N_INTERVALS_PER_DAY <=? tauv)) eqn:E2;
     [apply orb_true_iff in E2; destruct E2 as [E2|E2];
      [apply Z.ltb_lt in E2 | apply Z.leb_le in E2]; lia | reflexivity]).
Qed.

(** X9.  A model fitted by [estimate_baseline_and_phi] can always be
    used: for every last slot and last count [predict_next] returns
    without raising, the forecast is for the slot five minutes later, and
    the forecast is never negative. *)
Theorem fitted_model_predicts_nonnegative
        (series : list Slot) (fit : Fit) (last_ts last_count : Z) :
  estimate_baseline_and_phi series = Ok fit ->
  exists y_hat,
    predict_next last_ts last_count fit = Ok (last_ts + 300, y_hat)
    /\ (0 <= y_hat)%Q.
Proof.
  intro Hfit. destruct (estimate_arrays series fit Hfit) as [H0 [H1 _]].
  pose proof (baseline_length series 0 _ H0) as L0.
  pose proof (baseline_length series 1 _ H1) as L1.
  unfold predict_next.
  assert (Hmod : forall x, 0 <= x mod N_INTERVALS_PER_DAY < N_INTERVALS_PER_DAY).
  { intro x. apply Z.mod_pos_bound. unfold N_INTERVALS_PER_DAY. lia. }
  rewrite (mu_lookup_in_range _ _ _ _ L0 L1 (regime_of_flag last_ts) (Hmod _)).
  cbn [bind].
  rewrite (mu_lookup_in_range _ _ _ _ L0 L1 (regime_of_flag (last_ts + FIVE_MIN)) (Hmod _)).
  cbn [bind].
  eexists. split; [reflexivity|].
  destruct (Qleb _ 0) eqn:E; [apply Qle_refl|].
  apply Qleb_gt in E. apply Qlt_le_weak, E.
Qed.

Lemma fitted_model_predicts_nonnegative_witness :
  let series := [mkSlot 0 3 1 0; mkSlot 300 5 1 1; mkSlot 600 2 0 2;
                 mkSlot 900 7 0 3; mkSlot 86400 3 1 0; mkSlot 173100 4 0 3] in
  exists fit y_hat,
    estimate_baseline_and_phi series = Ok fit
    /\ predict_next 900 0 fit = Ok (1200, y_hat)
    /\ (0 <= y_hat)%Q.
Proof.
  cbv zeta.
  destruct (estimate_baseline_and_phi
              [mkSlot 0 3 1 0; mkSlot 300 5 1 1; mkSlot 600 2 0 2;
               mkSlot 900 7 0 3; mkSlot 86400 3 1 0; mkSlot 173100 4 0 3])
    as [fit|e] eqn:E; [|vm_compute in E; discriminate].
  destruct (fitted_model_predicts_nonnegative _ fit 900 0 E) as [y [Hy H0]].
  exists fit, y. split; [reflexivity|]. split; [exact Hy | exact H0].
Defined.

(** *** Deviations of one slot of the day *)

Lemma filter_combine_fst {A B : Type} (f : A -> bool) (l : list A) (k : list B) :
  List.length l = List.length k ->
  map fst (filter (fun p => f (fst p)) (combine l k)) = filter f l.
Proof.
  revert k. induction l as [|a l IH]; intros [|b k] H; simpl in *;
    try discriminate; [reflexivity|].
  destruct (f a); simpl; rewrite IH by lia; reflexivity.
Qed.

Lemma Qsum_shifted (m : Q) (L : list (Slot * Q)) :
  (forall s x, In (s, x) L -> x = (inject_Z (count s) - m)%Q) ->
  (Qsum (map snd L)
   == Qsum (map (fun s => inject_Z (count s)) (map fst L))
      - inject_Z (Z.of_nat (List.length L)) * m)%Q.
Proof.
  induction L as [|[s x] L IH]; intro H.
  - simpl. ring.
  - cbn [map fst snd].
    change (Qsum (x :: map snd L)) with (x + Qsum (map snd L))%Q.
    change (Qsum (inject_Z (count s) :: map (fun s => inject_Z (count s)) (map fst L)))
      with (inject_Z (count s) + Qsum (map (fun s => inject_Z (count s)) (map fst L)))%Q.
    change (List.length ((s, x) :: L)) with (S (List.length L)).
    rewrite IH by (intros s' x' H'; apply H; right; exact H').
    rewrite (H s x (or_introl eq_refl)).
    rewrite Nat2Z.inj_succ. unfold Z.succ. rewrite inject_Z_plus.
    change (inject_Z 1) with 1%Q. ring.
Qed.

(** A sample whose exact sum is zero does not lie on one side of zero. *)
Lemma Qsum_zero_straddles (l : list Q) :
  l <> [] -> (Qsum l == 0)%Q ->
  (exists x, In x l /\ (x <= 0)%Q) /\ (exists x, In x l /\ (0 <= x)%Q).
Proof.
  intros Hne Hs.
  assert (Hpos : forall k : list Q, k <> [] ->
                   (forall x, In x k -> (0 < x)%Q) -> (0 < Qsum k)%Q).
  { induction k as [|a k IH]; [congruence|]. intros _ H.
    change (Qsum (a :: k)) with (a + Qsum k)%Q.
    pose proof (H a (or_introl eq_refl)) as Ha.
    destruct k as [|b k']; [change (Qsum []) with 0%Q; lra|].
    assert (0 < Qsum (b :: k'))%Q
      by (apply IH; [discriminate | intros x Hx; apply H; right; exact Hx]).
    lra. }
  assert (Hneg : forall k : list Q, k <> [] ->
                   (forall x, In x k -> (x < 0)%Q) -> (Qsum k < 0)%Q).
  { induction k as [|a k IH]; [congruence|]. intros _ H.
    change (Qsum (a :: k)) with (a + Qsum k)%Q.
    pose proof (H a (or_introl eq_refl)) as Ha.
    destruct k as [|b k']; [change (Qsum []) with 0%Q; lra|].
    assert (Qsum (b :: k') < 0)%Q
      by (apply IH; [discriminate | intros x Hx; apply H; right; exact Hx]).
    lra. }
  assert (Hdec : forall (P Q' : Q -> Prop),
             (forall x, {P x} + {Q' x}) ->
             forall k : list Q, (exists x, In x k /\ P x) \/ (forall x, In x k -> Q' x)).
  { intros P Q' D. induction k as [|a k IH]; [right; intros x []|].
    destruct (D a) as [Ha|Ha]; [left; exists a; split; [left; reflexivity | exact Ha]|].
    destruct IH as [[x [Hx Px]]|IH]; [left; exists x; split; [right; exact Hx | exact Px]|].
    right. intros x [Hx|Hx]; [subst x; exact Ha | apply IH, Hx]. }
  split.
  - destruct (Hdec (fun x => x <= 0)%Q (fun x => 0 < x)%Q
                   (fun x => match Qlt_le_dec 0 x with
                             | left h => right h
                             | right h => left h
                             end) l) as [H|H];
      [exact H|].
    pose proof (Hpos l Hne H). lra.
  - destruct (Hdec (fun x => 0 <= x)%Q (fun x => x < 0)%Q
                   (fun x => match Qlt_le_dec x 0 with
                             | left h => right h
                             | right h => left h
                             end) l) as [H|H];
      [exact H|].
    pose proof (Hneg l Hne H). lra.
Qed.

(** In the exact arithmetic of the model the deviations of one (regime,
    slot-of-day) cell add up to zero. *)
Lemma cell_deviations_sum (series : list Slot) :
  series <> [] ->
  well_formed series ->
  exists fit e,
    estimate_baseline_and_phi series = Ok fit
    /\ Z.of_nat (List.length (mu_w0 fit)) = 288
    /\ Z.of_nat (List.length (mu_w1 fit)) = 288
    /\ residuals series (mu_w0 fit) (mu_w1 fit) = Ok e
    /\ List.length e = List.length series
    /\ forall wv tauv,
         (Qsum (map snd
                    (filter (fun se => (w (fst se) =? wv) && (tau (fst se) =? tauv))
                            (combine series e))) == 0)%Q.
Proof.
  intros Hne Hwf.
  destruct (baseline_ok series 0) as [mu0 [H0 [L0 _]]].
  destruct (baseline_ok series 1) as [mu1 [H1 [L1 _]]].
  destruct (residuals_ok series Hwf mu0 mu1 H0 H1) as [e [He [Hlen Hent]]].
  destruct (fit_phi_ok e (map w series) 0) as [phi0 Hp0].
  destruct (fit_phi_ok e (map w series) 1) as [phi1 Hp1].
  exists (mkFit mu0 mu1 phi0 phi1), e. cbn [mu_w0 mu_w1].
  split.
  { unfold estimate_baseline_and_phi. rewrite H0, H1. cbn [bind]. rewrite He.
    cbn [bind]. destruct series as [|s0 rest] eqn:Es; [congruence|].
    rewrite <- Es in *. rewrite Hp0, Hp1. reflexivity. }
  split; [exact L0|]. split; [exact L1|]. split; [exact He|]. split; [exact Hlen|].
  intros wv tauv.
  set (grp := fun s : Slot => (w s =? wv) && (tau s =? tauv)).
  set (G := filter (fun se : Slot * Q => grp (fst se)) (combine series e)).
  destruct (slot_mean_ok series wv tauv) as [m Hm].
  assert (HG : forall s x, In (s, x) G -> x = (inject_Z (count s) - m)%Q).
  { intros s x Hin. subst G. apply filter_In in Hin. destruct Hin as [Hin Hg].
    cbn [fst] in Hg. subst grp. cbn beta in Hg.
    apply andb_true_iff in Hg. destruct Hg as [Hw Ht].
    apply Z.eqb_eq in Hw, Ht.
    destruct (Hent s x Hin) as [m' [Hm' Hx]].
    rewrite Hw, Ht, Hm in Hm'. injection Hm' as <-. exact Hx. }
  change (Qsum (map snd G) == 0)%Q.
  rewrite (Qsum_shifted m G HG).
  assert (Hfst : map fst G = filter grp series).
  { subst G. apply filter_combine_fst. symmetry. exact Hlen. }
  assert (HlenG : List.length G = List.length (filter grp series)).
  { rewrite <- Hfst, length_map. reflexivity. }
  rewrite Hfst, HlenG.
  unfold slot_mean in Hm. fold grp in Hm.
  destruct (map (fun s => inject_Z (count s)) (filter grp series)) as [|v vals] eqn:Ev.
  - apply map_eq_nil in Ev. rewrite Ev. simpl. ring.
  - assert (Hl : List.length (filter grp series) = List.length (v :: vals)).
    { rewrite <- Ev, length_map. reflexivity. }
    rewrite Hl. unfold checked_div in Hm.
    set (n := inject_Z (Z.of_nat (List.length (v :: vals)))) in *.
    destruct (Qeqb n 0) eqn:Ez; [discriminate|].
    injection Hm as <-.
    change (Qsum (v :: vals)) with (v + Qsum vals)%Q. field.
    intro E. apply Qeqb_eq in E. congruence.
Qed.

(** X10.  On a non-empty series of well-formed rows the fit succeeds, both
    baseline arrays have 288 entries, there is one deviation per row, and
    in every (regime, slot-of-day) cell that has a row the deviations from
    the baseline do not all lie on one side of zero: one of them is at
    most 0 and one of them is at least 0. *)
Theorem deviations_straddle_zero_within_each_slot (series : list Slot) (wv tauv : Z) :
  series <> [] ->
  well_formed series ->
  exists fit e,
    estimate_baseline_and_phi series = Ok fit
    /\ Z.of_nat (List.length (mu_w0 fit)) = 288
    /\ Z.of_nat (List.length (mu_w1 fit)) = 288
    /\ residuals series (mu_w0 fit) (mu_w1 fit) = Ok e
    /\ List.length e = List.length series
    /\ ((exists s, In s series /\ w s = wv /\ tau s = tauv) ->
        (exists s x, In (s, x) (combine series e)
                     /\ w s = wv /\ tau s = tauv /\ (x <= 0)%Q)
        /\ (exists s x, In (s, x) (combine series e)
                        /\ w s = wv /\ tau s = tauv /\ (0 <= x)%Q)).
Proof.
  intros Hne Hwf.
  destruct (cell_deviations_sum series Hne Hwf)
    as [fit [e [Hf [L0 [L1 [He [Hlen Hsum]]]]]]].
  exists fit, e. repeat (split; [assumption|]).
  intros [s0 [Hs0 [Hw0 Ht0]]].
  set (G := filter (fun se : Slot * Q => (w (fst se) =? wv) && (tau (fst se) =? tauv))
                   (combine series e)).
  assert (HG : map snd G <> []).
  { assert (Hin : In s0 (map fst G)).
    { subst G. rewrite (filter_combine_fst
                          (fun s => (w s =? wv) && (tau s =? tauv)) series e)
        by (symmetry; exact Hlen).
      apply filter_In. split; [exact Hs0|].
      rewrite Hw0, Ht0, !Z.eqb_refl. reflexivity. }
    intro E. apply map_eq_nil in E. rewrite E in Hin. contradiction. }
  assert (Hback : forall x, In x (map snd G) ->
                    exists s, In (s, x) (combine series e) /\ w s = wv /\ tau s = tauv).
  { intros x Hx. apply in_map_iff in Hx. destruct Hx as [[s x'] [Ex Hin]].
    cbn [snd] in Ex. subst x'. subst G. apply filter_In in Hin.
    destruct Hin as [Hin Hg]. cbn [fst] in Hg.
    apply andb_true_iff in Hg. destruct Hg as [Hw Ht].
    apply Z.eqb_eq in Hw, Ht. exists s. repeat split; assumption. }
  destruct (Qsum_zero_straddles (map snd G) HG (Hsum wv tauv))
    as [[x [Hx Hle]] [y [Hy Hge]]].
  split.
  - destruct (Hback x Hx) as [s [Hin [Hw Ht]]]. exists s, x. repeat split; assumption.
  - destruct (Hback y Hy) as [s [Hin [Hw Ht]]]. exists s, y. repeat split; assumption.
Qed.

Lemma deviations_straddle_zero_within_each_slot_witness :
  let series := [mkSlot 0 3 1 0; mkSlot 300 5 1 1; mkSlot 600 2 0 2;
                 mkSlot 900 7 0 3; mkSlot 86400 3 1 0; mkSlot 173100 4 0 3] in
  exists fit e,
    estimate_baseline_and_phi series = Ok fit
    /\ residuals series (mu_w0 fit) (mu_w1 fit) = Ok e
    /\ (exists s x, In (s, x) (combine series e)
                    /\ w s = 0 /\ tau s = 3 /\ (x <= 0)%Q)
    /\ (exists s x, In (s, x) (combine series e)
                    /\ w s = 0 /\ tau s = 3 /\ (0 <= x)%Q).
Proof.
  cbv zeta.
  set (series := [mkSlot 0 3 1 0; mkSlot 300 5 1 1; mkSlot 600 2 0 2;
                  mkSlot 900 7 0 3; mkSlot 86400 3 1 0; mkSlot 173100 4 0 3]).
  destruct (deviations_straddle_zero_within_each_slot series 0 3)
    as [fit [e [Hf [_ [_ [He [_ Hs]]]]]]].
  - discriminate.
  - intros s Hs. simpl in Hs.
    repeat (destruct Hs as [Hs|Hs]; [subst s; simpl; unfold N_INTERVALS_PER_DAY; lia|]).
    contradiction.
  - exists fit, e. split; [exact Hf|]. split; [exact He|].
    apply Hs. exists (mkSlot 900 7 0 3).
    split; [subst series; simpl; tauto | split; reflexivity].
Defined.

End ForecastProperties.

(** ** Means and order statistics stay within the sample *)
Module SampleBounds.

Import Percentiles.

Lemma Qleb_sorted (x : list Q) : StronglySorted Qle (sort_by Qleb x).
Proof.
  apply sort_by_sorted.
  - intros a b H. apply Qleb_le, H.
  - intros a b H. apply Qleb_gt in H. apply Qlt_le_weak, H.
  - intros a b c. apply Qle_trans.
Qed.

Lemma sort_by_nonempty {A : Type} (leb : A -> A -> bool) (l : list A) :
  l <> [] -> sort_by leb l <> [].
Proof.
  intros Hne E. apply Hne. pose proof (sort_by_length A leb l) as Hl.
  rewrite E in Hl. destruct l; [reflexivity|discriminate].
Qed.

(** A percentile of a sample lies between any two bounds of the sample. *)
Lemma percentile_within (x : list Q) (q lo hi : Q) :
  x <> [] ->
  (0 <= q)%Q -> (q <= 100)%Q ->
  (forall y, In y x -> (lo <= y)%Q /\ (y <= hi)%Q) ->
  (lo <= percentile x q)%Q /\ (percentile x q <= hi)%Q.
Proof.
  intros Hne H0 H1 Hb. rewrite percentile_interpolate.
  set (s := sort_by Qleb x).
  assert (Hs : StronglySorted Qle s) by apply Qleb_sorted.
  assert (Hsn : s <> []) by (apply sort_by_nonempty, Hne).
  pose proof (n_pos s Hs Hsn) as Hn.
  set (m := inject_Z (Z.of_nat (List.length s) - 1)) in *.
  assert (Hm : (0 <= m)%Q).
  { subst m. change 0%Q with (inject_Z 0). rewrite <- Zle_Qle. lia. }
  change (inject_Z 100) with 100%Q.
  assert (Hdiv : forall a b : Q, (a <= b)%Q -> (a / 100 <= b / 100)%Q).
  { intros a b Hab. unfold Qdiv. apply Qmult_le_compat_r; [exact Hab|]. discriminate. }
  assert (Hp0 : (0 <= m * q / 100)%Q).
  { setoid_replace 0%Q with (0 / 100)%Q by reflexivity. apply Hdiv.
    apply Qmult_le_0_compat; assumption. }
  assert (Hp1 : (m * q / 100 <= m)%Q).
  { setoid_replace m with (m * 100 / 100)%Q at 2 by field. apply Hdiv.
    rewrite (Qmult_comm m q), (Qmult_comm m 100).
    apply Qmult_le_compat_r; assumption. }
  destruct (interpolate_between s Hs Hsn (m * q / 100)%Q Hp0 Hp1) as [Hlo Hhi].
  destruct (floor_in_range s (m * q / 100)%Q Hp0 Hp1) as [Hf0 Hf1].
  assert (Hin : forall i, (i < List.length s)%nat ->
                          (lo <= nth i s 0)%Q /\ (nth i s 0 <= hi)%Q).
  { intros i Hi. apply Hb. apply (sort_by_In Q Qleb x). apply nth_In, Hi. }
  split.
  - eapply Qle_trans; [|exact Hlo]. apply Hin. lia.
  - eapply Qle_trans; [exact Hhi|]. apply Hin. lia.
Qed.

Lemma Qsum_within (x : list Q) (lo hi : Q) :
  (forall y, In y x -> (lo <= y)%Q /\ (y <= hi)%Q) ->
  (inject_Z (Z.of_nat (List.length x)) * lo <= Qsum x)%Q
  /\ (Qsum x <= inject_Z (Z.of_nat (List.length x)) * hi)%Q.
Proof.
  induction x as [|y x IH]; intro H.
  - change (Qsum []) with 0%Q. change (inject_Z (Z.of_nat (List.length (@nil Q)))) with 0%Q.
    split; lra.
  - change (Qsum (y :: x)) with (y + Qsum x)%Q.
    change (List.length (y :: x)) with (S (List.length x)).
    rewrite Nat2Z.inj_succ. unfold Z.succ. rewrite inject_Z_plus.
    change (inject_Z 1) with 1%Q.
    destruct IH as [I1 I2]; [intros z Hz; apply H; right; exact Hz|].
    destruct (H y (or_introl eq_refl)) as [Y1 Y2].
    split; lra.
Qed.

(** The mean of a non-empty sample lies between any two of its bounds. *)
Lemma mean_within (x : list Q) (lo hi : Q) :
  x <> [] ->
  (forall y, In y x -> (lo <= y)%Q /\ (y <= hi)%Q) ->
  (lo <= mean x)%Q /\ (mean x <= hi)%Q.
Proof.
  intros Hne Hb. unfold mean.
  destruct (Qsum_within x lo hi Hb) as [H1 H2].
  set (n := inject_Z (Z.of_nat (List.length x))) in *.
  assert (Hn : (0 < n)%Q).
  { subst n. change 0%Q with (inject_Z 0). rewrite <- Zlt_Qlt.
    destruct x; [congruence | simpl; lia]. }
  split.
  - apply Qle_shift_div_l; [exact Hn|]. rewrite Qmult_comm. exact H1.
  - apply Qle_shift_div_r; [exact Hn|]. rewrite Qmult_comm. exact H2.
Qed.

End SampleBounds.

(** ** The strategy table *)
Module SummaryProperties.

Import ReportTables Percentiles SampleBounds.

Lemma group_of_row (fr : Frame) (long_wait_threshold : Q) (row : Summary) :
  In row (summarize_task3 fr long_wait_threshold) ->
  exists strat,
    In strat (group_keys (rows fr))
    /\ row = summarize_group long_wait_threshold fr strat
    /\ filter (fun r => String.eqb (strategy r) strat) (rows fr) <> [].
Proof.
  unfold summarize_task3. intro H. apply sort_by_In in H.
  apply in_map_iff in H. destruct H as [strat [Hr Hk]].
  exists strat. split; [exact Hk|]. split; [symmetry; exact Hr|].
  apply group_nonempty, Hk.
Qed.

(** X11.  Every row of the strategy table stands for at least one call;
    its P90, P95 and P99 are numbers, in this order, between any lower
    and upper bound of the wait times in the log; when the log has no
    [is_long_wait] column and the flag is derived from the threshold, the
    long-wait rate is a percentage between 0 and 100. *)
Theorem summary_statistics_within_bounds
        (fr : Frame) (long_wait_threshold lo hi : Q) (row : Summary) :
  (forall r, In r (rows fr) -> (lo <= wait_time r)%Q /\ (wait_time r <= hi)%Q) ->
  In row (summarize_task3 fr long_wait_threshold) ->
  1 <= s_N row
  /\ (exists p90 p95 p99,
         P90 row = Val p90 /\ P95 row = Val p95 /\ P99 row = Val p99
         /\ (lo <= p90)%Q /\ (p99 <= hi)%Q
         /\ (p90 <= p95)%Q /\ (p95 <= p99)%Q)
  /\ (has_is_long_wait fr = false ->
      (0 <= LongWaitPct row)%Q /\ (LongWaitPct row <= 100)%Q).
Proof.
  intros Hb Hrow. destruct (group_of_row fr long_wait_threshold row Hrow)
    as [strat [Hk [Hr Hg]]].
  subst row. unfold summarize_group.
  set (g := filter (fun r => String.eqb (strategy r) strat) (rows fr)) in *.
  cbn [s_N AWT P90 P95 P99 LongWaitPct].
  assert (Hw : map wait_time g <> []).
  { intro E. apply Hg. apply map_eq_nil in E. exact E. }
  assert (Hwb : forall y, In y (map wait_time g) -> (lo <= y)%Q /\ (y <= hi)%Q).
  { intros y Hy. apply in_map_iff in Hy. destruct Hy as [r [Hy Hin]]. subst y.
    apply Hb. subst g. apply filter_In in Hin. apply Hin. }
  split; [destruct g; [congruence | simpl; lia]|].
  split.
  - unfold pctl. destruct (map wait_time g) as [|w0 ws] eqn:Ew; [congruence|].
    rewrite <- Ew in *.
    exists (percentile (map wait_time g) 90), (percentile (map wait_time g) 95),
           (percentile (map wait_time g) 99).
    repeat split; try reflexivity.
    + apply (percentile_within _ 90 lo hi Hw); try assumption; lra.
    + apply (percentile_within _ 99 lo hi Hw); try assumption; lra.
    + apply percentile_monotone; try assumption; lra.
    + apply percentile_monotone; try assumption; lra.
  - intro Hcol. rewrite Hcol.
    set (flags := map (fun r => if Qleb long_wait_threshold (wait_time r)
                                then 1%Q else 0%Q) g).
    assert (Hf : flags <> []).
    { subst flags. intro E. apply Hg. apply map_eq_nil in E. exact E. }
    assert (Hfb : forall y, In y flags -> (0 <= y)%Q /\ (y <= 1)%Q).
    { intros y Hy. subst flags. apply in_map_iff in Hy. destruct Hy as [r [Hy _]].
      subst y. destruct (Qleb _ _); split; lra. }
    destruct (mean_within flags 0 1 Hf Hfb) as [F1 F2]. split; lra.
Qed.

Lemma summary_statistics_within_bounds_witness :
  let fr := mkFrame [mkCallRow "lobby" 14 0 0; mkCallRow "zone" 8 0 0;
                     mkCallRow "lobby" 20 0 0; mkCallRow "zone" 11 0 0]
                    false false in
  Forall (fun row =>
            1 <= s_N row
            /\ (exists p90 p95 p99,
                   P90 row = Val p90 /\ P95 row = Val p95 /\ P99 row = Val p99
                   /\ (8 <= p90)%Q /\ (p99 <= 20)%Q
                   /\ (p90 <= p95)%Q /\ (p95 <= p99)%Q)
            /\ (0 <= LongWaitPct row)%Q /\ (LongWaitPct row <= 100)%Q)
         (summarize_task3 fr 12).
Proof.
  cbv zeta. apply Forall_forall. intros row Hrow.
  destruct (summary_statistics_within_bounds
              (mkFrame [mkCallRow "lobby" 14 0 0; mkCallRow "zone" 8 0 0;
                        mkCallRow "lobby" 20 0 0; mkCallRow "zone" 11 0 0]
                       false false) 12 8 20 row) as [HN [HP HL]].
  - intros r Hr. simpl in Hr.
    repeat (destruct Hr as [Hr|Hr]; [subst r; simpl; split; discriminate|]).
    contradiction.
  - exact Hrow.
  - split; [exact HN|]. split; [exact HP|]. apply HL. reflexivity.
Defined.

Lemma group_keys_NoDup (df : list CallRow) : NoDup (group_keys df).
Proof. unfold group_keys. apply sort_by_NoDup, nodup_string_NoDup. Qed.

Lemma group_keys_complete (df : list CallRow) (r : CallRow) :
  In r df -> In (strategy r) (group_keys df).
Proof.
  intro H. unfold group_keys. apply sort_by_In. apply nodup_string_complete.
  apply in_map, H.
Qed.

Lemma Zsum_perm (l1 l2 : list Z) : Permutation l1 l2 -> Zsum l1 = Zsum l2.
Proof.
  induction 1; simpl; try lia.
Qed.

(** X12.  The strategy table of [summarize_task3] partitions the log:
    every strategy of the log has exactly one row, the row counts add up
    to the number of calls in the log, and the rows come in
    non-decreasing order of mean wait. *)
Theorem summary_partitions_the_log (fr : Frame) (long_wait_threshold : Q) :
  let table := summarize_task3 fr long_wait_threshold in
  Zsum (map s_N table) = Z.of_nat (List.length (rows fr))
  /\ NoDup (map s_strategy table)
  /\ (forall r, In r (rows fr) -> In (strategy r) (map s_strategy table))
  /\ (forall row, In row table ->
                  s_N row
                  = Z.of_nat (List.length
                       (filter (fun r => String.eqb (strategy r) (s_strategy row))
                               (rows fr))))
  /\ StronglySorted (fun a b => (AWT a <= AWT b)%Q) table.
Proof.
  cbv zeta. unfold summarize_task3.
  set (raw := map (summarize_group long_wait_threshold fr) (group_keys (rows fr))).
  assert (Hperm : Permutation (sort_by (fun a b => Qleb (AWT a) (AWT b)) raw) raw)
    by apply sort_by_perm.
  assert (Hstrat : map s_strategy raw = group_keys (rows fr)).
  { subst raw. rewrite map_map. cbn [summarize_group s_strategy]. apply map_id. }
  split; [|split; [|split; [|split]]].
  - rewrite (Zsum_perm _ _ (Permutation_map s_N Hperm)).
    subst raw. rewrite map_map. cbn [summarize_group s_N].
    apply (groups_cover_rows CallRow string strategy String.eqb String.eqb_eq).
    + apply group_keys_NoDup.
    + apply group_keys_complete.
  - apply (Permutation_NoDup (Permutation_sym (Permutation_map s_strategy Hperm))).
    rewrite Hstrat. apply group_keys_NoDup.
  - intros r Hr.
    apply (Permutation_in _ (Permutation_sym (Permutation_map s_strategy Hperm))).
    rewrite Hstrat. apply group_keys_complete, Hr.
  - intros row Hrow. apply (Permutation_in _ Hperm) in Hrow.
    subst raw. apply in_map_iff in Hrow. destruct Hrow as [s [Hs _]]. subst row.
    reflexivity.
  - apply sort_by_sorted.
    + intros a b H. apply Qleb_le, H.
    + intros a b H. apply Qleb_gt in H. apply Qlt_le_weak, H.
    + intros a b c. apply Qle_trans.
Qed.

End SummaryProperties.

(** ** The long-wait threshold taken from the lobby baseline *)
Module LongWaitThreshold.

Import ReportTables Percentiles SampleBounds SummaryProperties.

Lemma exists_largest (x : list Q) :
  x <> [] -> exists y, In y x /\ forall z, In z x -> (z <= y)%Q.
Proof.
  induction x as [|a x IH]; [congruence|]. intros _.
  destruct x as [|b x'].
  - exists a. split; [left; reflexivity|]. intros z [Hz|[]]. subst z. apply Qle_refl.
  - destruct IH as [y [Hy Hmax]]; [discriminate|].
    destruct (Qlt_le_dec y a) as [Hlt|Hle].
    + exists a. split; [left; reflexivity|].
      intros z [Hz|Hz]; [subst z; apply Qle_refl|].
      apply Qlt_le_weak. eapply Qle_lt_trans; [apply Hmax, Hz | exact Hlt].
    + exists y. split; [right; exact Hy|].
      intros z [Hz|Hz]; [subst z; exact Hle | apply Hmax, Hz].
Qed.

Lemma exists_smallest (x : list Q) :
  x <> [] -> exists y, In y x /\ forall z, In z x -> (y <= z)%Q.
Proof.
  induction x as [|a x IH]; [congruence|]. intros _.
  destruct x as [|b x'].
  - exists a. split; [left; reflexivity|]. intros z [Hz|[]]. subst z. apply Qle_refl.
  - destruct IH as [y [Hy Hmin]]; [discriminate|].
    destruct (Qlt_le_dec a y) as [Hlt|Hle].
    + exists a. split; [left; reflexivity|].
      intros z [Hz|Hz]; [subst z; apply Qle_refl|].
      apply Qlt_le_weak. eapply Qlt_le_trans; [exact Hlt | apply Hmin, Hz].
    + exists y. split; [right; exact Hy|].
      intros z [Hz|Hz]; [subst z; exact Hle | apply Hmin, Hz].
Qed.

Lemma Qsum_nonneg (x : list Q) :
  (forall y, In y x -> (0 <= y)%Q) -> (0 <= Qsum x)%Q.
Proof.
  induction x as [|a x IH]; intro H; [apply Qle_refl|].
  change (Qsum (a :: x)) with (a + Qsum x)%Q.
  pose proof (H a (or_introl eq_refl)).
  assert (0 <= Qsum x)%Q by (apply IH; intros y Hy; apply H; right; exact Hy).
  lra.
Qed.

Lemma Qsum_has_one (x : list Q) :
  (forall y, In y x -> (0 <= y)%Q) -> In 1%Q x -> (1 <= Qsum x)%Q.
Proof.
  induction x as [|a x IH]; intros H Hin; [contradiction|].
  change (Qsum (a :: x)) with (a + Qsum x)%Q.
  destruct Hin as [Hin|Hin].
  - subst a.
    assert (0 <= Qsum x)%Q by (apply Qsum_nonneg; intros y Hy; apply H; right; exact Hy).
    lra.
  - pose proof (H a (or_introl eq_refl)).
    assert (1 <= Qsum x)%Q by (apply IH; [intros y Hy; apply H; right; exact Hy | exact Hin]).
    lra.
Qed.

Lemma threshold_is_lobby_p95 (fr : Frame) (mode : string) (absolute_value : Q) :
  strip (EvaluatorParking.lower mode) = "p95_lobby"%string ->
  filter (fun r => String.eqb (EvaluatorParking.lower (strategy r)) "lobby")
         (rows fr) <> [] ->
  compute_long_wait_threshold fr mode absolute_value
  = Ok (Val (percentile
               (map wait_time
                    (filter (fun r => String.eqb (EvaluatorParking.lower (strategy r))
                                                 "lobby") (rows fr))) 95)).
Proof.
  intros Hmode Hne. unfold compute_long_wait_threshold. rewrite Hmode.
  cbn [String.eqb Ascii.eqb Bool.eqb andb].
  destruct (filter _ (rows fr)) as [|l0 ls]; [congruence|]. reflexivity.
Qed.

(** X13.  With the long-wait mode [p95_lobby] (in any letter case, with
    surrounding blanks) and a log that has calls of the lobby strategy
    and no [is_long_wait] column of its own, the threshold is the P95 of
    the lobby waits, and in the table computed with that threshold some
    lobby row has a long-wait rate above zero. *)
Theorem lobby_baseline_has_long_waits (fr : Frame) (mode : string)
        (absolute_value : Q) :
  strip (EvaluatorParking.lower mode) = "p95_lobby"%string ->
  has_is_long_wait fr = false ->
  (exists r, In r (rows fr)
             /\ String.eqb (EvaluatorParking.lower (strategy r)) "lobby" = true) ->
  exists thr row,
    compute_long_wait_threshold fr mode absolute_value = Ok (Val thr)
    /\ thr = percentile
               (map wait_time
                    (filter (fun r => String.eqb (EvaluatorParking.lower (strategy r))
                                                 "lobby") (rows fr))) 95
    /\ In row (summarize_task3 fr thr)
    /\ String.eqb (EvaluatorParking.lower (s_strategy row)) "lobby" = true
    /\ (0 < LongWaitPct row)%Q.
Proof.
  intros Hmode Hcol [r0 [Hr0 Hl0]].
  set (lobby := filter (fun r => String.eqb (EvaluatorParking.lower (strategy r)) "lobby")
                       (rows fr)).
  assert (Hlobby : lobby <> []).
  { intro E. assert (Hin : In r0 lobby) by (apply filter_In; split; assumption).
    rewrite E in Hin. contradiction. }
  set (thr := percentile (map wait_time lobby) 95).
  assert (Hw : map wait_time lobby <> []).
  { intro E. apply Hlobby. apply map_eq_nil in E. exact E. }
  destruct (exists_largest (map wait_time lobby) Hw) as [top [Htop Hmax]].
  apply in_map_iff in Htop. destruct Htop as [r1 [Hr1 Hin1]].
  destruct (exists_smallest (map wait_time lobby) Hw) as [bot [_ Hmin]].
  assert (Hthr : (thr <= wait_time r1)%Q).
  { subst thr. rewrite Hr1.
    apply (percentile_within (map wait_time lobby) 95 bot top Hw); try lra.
    intros y Hy. split; [apply Hmin, Hy | apply Hmax, Hy]. }
  exists thr.
  exists (summarize_group thr fr (strategy r1)).
  split.
  { exact (threshold_is_lobby_p95 fr mode absolute_value Hmode Hlobby). }
  split; [reflexivity|].
  subst lobby. apply filter_In in Hin1. destruct Hin1 as [Hin1 Hlow1].
  split.
  { unfold summarize_task3. apply sort_by_In. apply in_map.
    apply group_keys_complete, Hin1. }
  split; [exact Hlow1|].
  unfold summarize_group. cbn [LongWaitPct]. rewrite Hcol.
  set (g := filter (fun row => String.eqb (strategy row) (strategy r1)) (rows fr)).
  set (flags := map (fun row => if Qleb thr (wait_time row) then 1%Q else 0%Q) g).
  assert (Hg1 : In r1 g).
  { subst g. apply filter_In. split; [exact Hin1 | apply String.eqb_refl]. }
  assert (Hone : In 1%Q flags).
  { subst flags. apply in_map_iff. exists r1. split; [|exact Hg1].
    apply Qleb_le in Hthr. rewrite Hthr. reflexivity. }
  assert (Hnn : forall y, In y flags -> (0 <= y)%Q).
  { intros y Hy. subst flags. apply in_map_iff in Hy. destruct Hy as [r [Hy _]].
    subst y. destruct (Qleb _ _); lra. }
  pose proof (Qsum_has_one flags Hnn Hone) as Hsum.
  unfold mean.
  assert (Hn : (0 < inject_Z (Z.of_nat (List.length flags)))%Q).
  { change 0%Q with (inject_Z 0). rewrite <- Zlt_Qlt.
    destruct flags; [contradiction | simpl; lia]. }
  assert (Hq : (0 < Qsum flags / inject_Z (Z.of_nat (List.length flags)))%Q).
  { apply Qlt_shift_div_l; [exact Hn|]. lra. }
  lra.
Qed.

Lemma lobby_baseline_has_long_waits_witness :
  let fr := mkFrame [mkCallRow "lobby" 10 0 0; mkCallRow "Lobby" 30 0 0;
                     mkCallRow "zone" 5 0 0] false false in
  exists thr row,
    compute_long_wait_threshold fr " P95_Lobby " 60 = Ok (Val thr)
    /\ thr = percentile
               (map wait_time
                    (filter (fun r => String.eqb (EvaluatorParking.lower (strategy r))
                                                 "lobby") (rows fr))) 95
    /\ In row (summarize_task3 fr thr)
    /\ String.eqb (EvaluatorParking.lower (s_strategy row)) "lobby" = true
    /\ (0 < LongWaitPct row)%Q.
Proof.
  intro fr.
  apply (lobby_baseline_has_long_waits fr " P95_Lobby " 60).
  - vm_compute. reflexivity.
  - reflexivity.
  - exists (mkCallRow "lobby" 10 0 0). split; [left; reflexivity | reflexivity].
Defined.

End LongWaitThreshold.

(** ** The mean absolute error of the forecast tables *)
Module ErrorMetrics.

Import ReportTables SampleBounds LongWaitThreshold.

Lemma Qsum_all_zero (x : list Q) :
  (forall y, In y x -> (y == 0)%Q) -> (Qsum x == 0)%Q.
Proof.
  induction x as [|a x IH]; intro H; [reflexivity|].
  change (Qsum (a :: x)) with (a + Qsum x)%Q.
  rewrite (H a (or_introl eq_refl)), IH; [reflexivity|].
  intros y Hy. apply H. right. exact Hy.
Qed.

Lemma mean_zero_iff (x : list Q) :
  x <> [] -> ((mean x == 0)%Q <-> (Qsum x == 0)%Q).
Proof.
  intro Hne. unfold mean.
  assert (Hn : ~ (inject_Z (Z.of_nat (List.length x)) == 0)%Q).
  { intro E. destruct x as [|a x]; [congruence|].
    assert (E' : (inject_Z (Z.of_nat (List.length (a :: x))) == inject_Z 0)%Q) by exact E.
    apply (proj1 (inject_Z_injective _ _)) in E'. cbn [List.length] in E'. lia. }
  split; intro H.
  - rewrite <- (Qmult_div_r (Qsum x) _ Hn). rewrite H. ring.
  - rewrite H. field. exact Hn.
Qed.

Lemma abs_err_combine_swap (a b : list Q) :
  map (fun ab => Qabs (fst ab - snd ab)) (combine b a)
  = map (fun ab => Qabs (snd ab - fst ab)) (combine a b).
Proof.
  revert b. induction a as [|x a IH]; intros [|y b]; simpl; try reflexivity.
  rewrite IH. reflexivity.
Qed.

Lemma Qsum_map_ext (A : Type) (f g : A -> Q) (l : list A) :
  (forall x, (f x == g x)%Q) -> (Qsum (map f l) == Qsum (map g l))%Q.
Proof.
  intro H. induction l as [|x l IH]; [reflexivity|].
  change (f x + Qsum (map f l) == g x + Qsum (map g l))%Q.
  rewrite H, IH. reflexivity.
Qed.

Lemma Qabs_swap (a b : Q) : (Qabs (a - b) == Qabs (b - a))%Q.
Proof.
  rewrite <- (Qabs_opp (a - b)). apply Qabs_wd. ring.
Qed.

Lemma mae_equal_length (y_true y_pred : list Q) :
  List.length y_true = List.length y_pred -> y_true <> [] ->
  mae y_true y_pred
  = Ok (Val (mean (map (fun ab => Qabs (fst ab - snd ab)) (combine y_true y_pred)))).
Proof.
  intros Hlen Hne. unfold mae. rewrite Hlen, Nat.eqb_refl.
  destruct y_true as [|a y_true]; [congruence|].
  destruct y_pred as [|b y_pred]; [discriminate|]. reflexivity.
Qed.

Lemma combine_abs_zero (a b : list Q) :
  List.length a = List.length b ->
  ((forall y, In y (map (fun ab => Qabs (fst ab - snd ab)) (combine a b)) -> (y == 0)%Q)
   <-> Forall2 Qeq a b).
Proof.
  revert b. induction a as [|x a IH]; intros [|y b] Hlen; try discriminate.
  - split; [constructor | intros _ z []].
  - simpl in Hlen. injection Hlen as Hlen. specialize (IH b Hlen).
    split.
    + intro H. constructor.
      * assert (E : (Qabs (x - y) == 0)%Q) by (apply H; left; reflexivity).
        assert (Hle : (Qabs (x - y) <= 0)%Q) by (rewrite E; apply Qle_refl).
        apply Qabs_Qle_condition in Hle. lra.
      * apply IH. intros z Hz. apply H. right. exact Hz.
    + intros H z Hz. inversion H as [|? ? ? ? Hxy Hab]; subst.
      destruct Hz as [Hz|Hz].
      * subst z. cbn [fst snd].
        assert (E : (x - y == 0)%Q) by lra. rewrite E. reflexivity.
      * apply (proj2 IH Hab z Hz).
Qed.



End ErrorMetrics.

(** ** Thresholds fitted on the classified table itself *)
Module FittedThresholds.

Import Task2Classifier Percentiles SampleBounds LongWaitThreshold.

(** X15.  When [classify_all] computes the thresholds from the table it
    classifies, the idle threshold is at most the high-volume threshold,
    the two high-volume thresholds coincide, every row gets a label, and a
    slot whose count is the largest of the table is never labelled
    Night Idle. *)
Theorem busiest_slot_is_never_idle (features : list Row) (i : nat) (row : Row) :
  nth_error features i = Some row ->
  (forall r', In r' features -> (count r' <= count row)%Q) ->
  let thr := compute_thresholds features 10 75 75 in
  (theta1 thr <= theta2 thr)%Q
  /\ theta2 thr = theta3 thr
  /\ List.length (classify_all features None) = List.length features
  /\ exists label, nth_error (classify_all features None) i = Some label
                   /\ label <> "Night Idle"%string.
Proof.
  intros Hi Hmax thr.
  assert (Hin : In row features) by (eapply nth_error_In; exact Hi).
  assert (Hne : map count features <> []).
  { destruct features; [contradiction | discriminate]. }
  split.
  { apply percentile_monotone; [exact Hne | lra | lra | lra]. }
  split; [reflexivity|].
  split; [unfold classify_all; apply length_map|].
  exists (classify_interval row thr). split.
  { unfold classify_all. fold thr. rewrite nth_error_map, Hi. reflexivity. }
  destruct (exists_smallest (map count features) Hne) as [bot [_ Hmin]].
  assert (Hth : (theta1 thr <= count row)%Q).
  { apply (percentile_within (map count features) 10 bot (count row) Hne); try lra.
    intros y Hy. split; [apply Hmin, Hy|].
    apply in_map_iff in Hy. destruct Hy as [r' [E Hr']]. subst y. apply Hmax, Hr'. }
  unfold classify_interval.
  assert (Hlt : Qltb (count row) (theta1 thr) = false) by (apply Qltb_ge; exact Hth).
  rewrite Hlt.
  destruct (w row =? 0); [discriminate|].
  destruct (_ && _ && _); [discriminate|].
  destruct (_ && _); [discriminate|].
  destruct (_ && _ && _); discriminate.
Qed.

Lemma busiest_slot_is_never_idle_witness :
  let features := [mkRow 2 (1#2) (1#2) 1; mkRow 9 (1#2) (1#2) 1; mkRow 4 (1#2) (1#2) 0] in
  let thr := compute_thresholds features 10 75 75 in
  (theta1 thr <= theta2 thr)%Q
  /\ theta2 thr = theta3 thr
  /\ List.length (classify_all features None) = List.length features
  /\ exists label, nth_error (classify_all features None) 1 = Some label
                   /\ label <> "Night Idle"%string.
Proof.
  intro features.
  apply (busiest_slot_is_never_idle features 1%nat (mkRow 9 (1#2) (1#2) 1)).
  - reflexivity.
  - intros r' [E|[E|[E|[]]]]; subst r'; vm_compute; discriminate.
Defined.

End FittedThresholds.

(** ** The nearest-car evaluator *)
Module SimpleEvaluatorProperties.

Import EvaluatorSimple.

Lemma skipn_cons_nth (A : Type) (d : A) (full : list A) :
  forall i x l, skipn i full = x :: l ->
                nth i full d = x /\ skipn (S i) full = l /\ (i < List.length full)%nat.
Proof.
  induction full as [|a full IH]; intros i x l H.
  - destruct i; discriminate.
  - destruct i as [|i].
    + simpl in H. injection H as -> ->. repeat split. simpl. lia.
    + simpl in H. destruct (IH i x l H) as [H1 [H2 H3]].
      repeat split; [exact H1 | exact H2 | simpl; lia].
Qed.

Lemma argmin_scan (full : list Q) :
  forall l i best_i best,
    skipn i full = l ->
    (i <= List.length full)%nat ->
    (best_i < i)%nat ->
    nth best_i full 0%Q = best ->
    (forall j, (j < i)%nat -> (best <= nth j full 0)%Q) ->
    (forall j, (j < best_i)%nat -> (best < nth j full 0)%Q) ->
    let c := argbest_from Qltb l i best_i best in
    (c < List.length full)%nat
    /\ (forall j, (j < List.length full)%nat -> (nth c full 0 <= nth j full 0)%Q)
    /\ (forall j, (j < c)%nat -> (nth c full 0 < nth j full 0)%Q).
Proof.
  induction l as [|x l IH]; intros i best_i best Hskip Hi Hb Hnth Hall Hstrict.
  - cbn [argbest_from].
    assert (Hlen : i = List.length full).
    { destruct (Nat.eq_dec i (List.length full)) as [E|E]; [exact E|].
      assert (Hlt : (i < List.length full)%nat) by lia.
      pose proof (length_skipn i full) as Hs. rewrite Hskip in Hs. simpl in Hs. lia. }
    subst i. rewrite Hnth. repeat split; [lia | exact Hall | exact Hstrict].
  - destruct (skipn_cons_nth Q 0%Q full i x l Hskip) as [Hx [Hskip' Hlt]].
    cbn [argbest_from]. destruct (Qltb x best) eqn:Hcmp.
    + apply Qltb_lt in Hcmp.
      apply (IH (S i) i x Hskip'); [lia | lia | exact Hx | |].
      * intros j Hj. destruct (Nat.eq_dec j i) as [->|Hne].
        { rewrite Hx. apply Qle_refl. }
        { apply Qlt_le_weak. eapply Qlt_le_trans; [exact Hcmp|]. apply Hall. lia. }
      * intros j Hj. eapply Qlt_le_trans; [exact Hcmp|]. apply Hall, Hj.
    + apply Qltb_ge in Hcmp.
      apply (IH (S i) best_i best Hskip'); [lia | lia | exact Hnth | | exact Hstrict].
      intros j Hj. destruct (Nat.eq_dec j i) as [->|Hne].
      { rewrite Hx. exact Hcmp. }
      { apply Hall. lia. }
Qed.

Lemma nth_dist (elevator_pos : list Z) (call_floor : Z) (j : nat) :
  (j < List.length elevator_pos)%nat ->
  nth j (map (fun p => inject_Z (Z.abs (p - call_floor))) elevator_pos) 0%Q
  = inject_Z (Z.abs (nth j elevator_pos 0 - call_floor)).
Proof.
  intro Hj.
  rewrite (nth_indep _ 0%Q (inject_Z (Z.abs (0 - call_floor))))
    by (rewrite length_map; exact Hj).
  apply (map_nth (fun p => inject_Z (Z.abs (p - call_floor)))).
Qed.

(** X16.  [nearest_car] (the [np.argmin] of the distances) returns a car
    of the fleet that is at least as close to the call as every other car
    and strictly closer than every car before it. *)
Theorem nearest_car_is_nearest (elevator_pos : list Z) (call_floor : Z) :
  elevator_pos <> [] ->
  let c := nearest_car elevator_pos call_floor in
  (c < List.length elevator_pos)%nat
  /\ (forall j, (j < List.length elevator_pos)%nat ->
                Z.abs (nth c elevator_pos 0 - call_floor)
                <= Z.abs (nth j elevator_pos 0 - call_floor))
  /\ (forall j, (j < c)%nat ->
                Z.abs (nth c elevator_pos 0 - call_floor)
                < Z.abs (nth j elevator_pos 0 - call_floor)).
Proof.
  intros Hne c.
  set (dists := map (fun p => inject_Z (Z.abs (p - call_floor))) elevator_pos).
  assert (Hlen : List.length dists = List.length elevator_pos) by apply length_map.
  destruct elevator_pos as [|p0 ps]; [congruence|].
  assert (Hscan : (c < List.length dists)%nat
                  /\ (forall j, (j < List.length dists)%nat ->
                                (nth c dists 0 <= nth j dists 0)%Q)
                  /\ (forall j, (j < c)%nat -> (nth c dists 0 < nth j dists 0)%Q)).
  { subst c. unfold nearest_car. fold dists.
    change dists with (inject_Z (Z.abs (p0 - call_floor))
                         :: map (fun p => inject_Z (Z.abs (p - call_floor))) ps).
    apply (argmin_scan
             (inject_Z (Z.abs (p0 - call_floor))
                :: map (fun p => inject_Z (Z.abs (p - call_floor))) ps));
      try reflexivity; try (simpl; lia).
    all: intros j Hj; try lia.
    assert (j = 0%nat) by lia. subst j. apply Qle_refl. }
  destruct Hscan as [Hc [Hmin Hfirst]]. rewrite Hlen in Hc, Hmin.
  split; [exact Hc|]. split.
  - intros j Hj. specialize (Hmin j Hj). unfold dists in Hmin.
    rewrite !nth_dist in Hmin by assumption. rewrite Zle_Qle. exact Hmin.
  - intros j Hj. specialize (Hfirst j Hj). unfold dists in Hfirst.
    rewrite !nth_dist in Hfirst by lia. rewrite Zlt_Qlt. exact Hfirst.
Qed.

Lemma nearest_car_is_nearest_witness :
  let c := nearest_car [1; 7; 4; 7] 6 in
  (c < List.length [1; 7; 4; 7])%nat
  /\ (forall j, (j < List.length [1; 7; 4; 7])%nat ->
                Z.abs (nth c [1; 7; 4; 7] 0 - 6) <= Z.abs (nth j [1; 7; 4; 7] 0 - 6))
  /\ (forall j, (j < c)%nat ->
                Z.abs (nth c [1; 7; 4; 7] 0 - 6) < Z.abs (nth j [1; 7; 4; 7] 0 - 6)).
Proof.
  apply (nearest_car_is_nearest [1; 7; 4; 7] 6). discriminate.
Defined.

Lemma evaluate_calls_length (strat : string) (hall : list HallCall) :
  forall elevator_pos,
    List.length (evaluate_calls strat elevator_pos hall) = List.length hall.
Proof.
  induction hall as [|row hall IH]; intro pos; [reflexivity|].
  cbn [evaluate_calls List.length]. rewrite IH. reflexivity.
Qed.

Lemma evaluate_calls_relabel (s1 s2 : string) (hall : list HallCall) :
  forall elevator_pos,
    map (fun row => (call_time row, wait_time row))
        (evaluate_calls s1 elevator_pos hall)
    = map (fun row => (call_time row, wait_time row))
          (evaluate_calls s2 elevator_pos hall).
Proof.
  induction hall as [|row hall IH]; intro pos; [reflexivity|].
  cbn [evaluate_calls map call_time wait_time]. rewrite IH. reflexivity.
Qed.

Lemma evaluate_calls_wait (strat : string) (hall : list HallCall) :
  forall elevator_pos row,
    In row (evaluate_calls strat elevator_pos hall) ->
    strategy row = strat /\ (DOOR_TIME <= wait_time row)%Q.
Proof.
  induction hall as [|call hall IH]; intros pos row Hin; [contradiction|].
  cbn [evaluate_calls] in Hin. destruct Hin as [E|Hin].
  - subst row. cbn [strategy wait_time]. split; [reflexivity|].
    set (d := Z.abs _).
    assert (Hd : (0 <= inject_Z d)%Q).
    { change 0%Q with (inject_Z 0). rewrite <- Zle_Qle. subst d. apply Z.abs_nonneg. }
    unfold V_FLOOR, DOOR_TIME. lra.
  - exact (IH _ row Hin).
Qed.

(** X17.  In the simple evaluator the strategy name only labels the
    rows: the log has four rows per call, the (time, wait) columns of the
    run do not depend on the strategy name, and every wait is at least
    the door time. *)
Theorem simple_evaluator_ignores_the_strategy (hall : list HallCall) :
  List.length (evaluate hall) = (4 * List.length hall)%nat
  /\ (forall s1 s2,
         map (fun row => (call_time row, wait_time row))
             (evaluate_calls s1 (py_repeat 1 K_ELEVATORS) hall)
         = map (fun row => (call_time row, wait_time row))
               (evaluate_calls s2 (py_repeat 1 K_ELEVATORS) hall))
  /\ (forall row, In row (evaluate hall) -> (DOOR_TIME <= wait_time row)%Q).
Proof.
  split; [|split].
  - unfold evaluate. cbn [flat_map]. rewrite !length_app, !evaluate_calls_length.
    simpl. lia.
  - intros s1 s2. apply evaluate_calls_relabel.
  - intros row Hin. unfold evaluate in Hin. apply in_flat_map in Hin.
    destruct Hin as [strat [_ Hin]].
    exact (proj2 (evaluate_calls_wait strat hall _ row Hin)).
Qed.

End SimpleEvaluatorProperties.

(** ** Quantile parking floors and the matching distance *)
Module QuantileFloors.

Import EvaluatorParking.

Lemma Zleb_sorted (x : list Z) : StronglySorted Z.le (sort_by Z.leb x).
Proof.
  apply sort_by_sorted.
  - intros a b H. apply Z.leb_le. exact H.
  - intros a b H. apply Z.leb_gt in H. lia.
  - intros a b c. apply Z.le_trans.
Qed.

Lemma Zsorted_nth_le (s : list Z) :
  StronglySorted Z.le s ->
  forall i j, (i <= j)%nat -> (j < List.length s)%nat -> nth i s 0 <= nth j s 0.
Proof.
  induction 1 as [|a s Hs IH Hall]; intros i j Hij Hj; simpl in Hj.
  - lia.
  - destruct j as [|j].
    + assert (i = O) by lia. subst i. apply Z.le_refl.
    + destruct i as [|i].
      * simpl. rewrite Forall_forall in Hall. apply Hall. apply nth_In. lia.
      * simpl. apply IH; lia.
Qed.

Lemma py_round_monotone (a b : Q) : (a <= b)%Q -> py_round a <= py_round b.
Proof.
  intro Hab.
  pose proof (Qfloor_resp_le a b Hab) as Hf.
  pose proof (Qfloor_le a) as Ha1. pose proof (Qlt_floor a) as Ha2.
  pose proof (Qfloor_le b) as Hb1. pose proof (Qlt_floor b) as Hb2.
  unfold py_round.
  destruct (Z.eq_dec (Qfloor a) (Qfloor b)) as [E|E].
  - rewrite <- E in *.
    destruct (Qltb (a - inject_Z (Qfloor a)) (1#2)) eqn:A1;
      destruct (Qltb (b - inject_Z (Qfloor a)) (1#2)) eqn:B1;
      destruct (Qltb (1#2) (a - inject_Z (Qfloor a))) eqn:A2;
      destruct (Qltb (1#2) (b - inject_Z (Qfloor a))) eqn:B2;
      destruct (Z.even (Qfloor a));
      try lia;
      repeat match goal with
             | H : Qltb _ _ = true |- _ => apply Qltb_lt in H
             | H : Qltb _ _ = false |- _ => apply Qltb_ge in H
             end; exfalso; lra.
  - assert (Hlt : Qfloor a + 1 <= Qfloor b) by lia.
    destruct (Qltb (a - inject_Z (Qfloor a)) (1#2));
      destruct (Qltb (b - inject_Z (Qfloor b)) (1#2));
      destruct (Qltb (1#2) (a - inject_Z (Qfloor a)));
      destruct (Qltb (1#2) (b - inject_Z (Qfloor b)));
      destruct (Z.even (Qfloor a)); destruct (Z.even (Qfloor b)); lia.
Qed.

Lemma map_seq_sorted (g : nat -> Z) :
  (forall i j, (i <= j)%nat -> g i <= g j) ->
  forall n a, StronglySorted Z.le (map g (seq a n)).
Proof.
  intros Hg. induction n as [|n IH]; intro a; [constructor|].
  cbn [seq map]. constructor; [apply IH|].
  apply Forall_forall. intros y Hy. apply in_map_iff in Hy.
  destruct Hy as [j [E Hj]]. subst y. apply in_seq in Hj. apply Hg. lia.
Qed.

(** X18.  On a non-empty history [weighted_quantile_floors] returns [k]
    parking floors (none for [k <= 0]); each of them is a floor of the
    history, and they are listed in non-decreasing order. *)
Theorem quantile_floors_come_from_history (floors : list Z) (k : Z) :
  floors <> [] ->
  let parks := weighted_quantile_floors floors k in
  List.length parks = Z.to_nat k
  /\ (forall f, In f parks -> In f floors)
  /\ StronglySorted Z.le parks.
Proof.
  intros Hne parks. subst parks. unfold weighted_quantile_floors.
  destruct floors as [|f0 fs]; [congruence|].
  set (s := sort_by Z.leb (f0 :: fs)).
  assert (Hs : StronglySorted Z.le s) by apply Zleb_sorted.
  assert (Hlen : (1 <= List.length s)%nat).
  { subst s. rewrite sort_by_length. simpl. lia. }
  set (n := Z.of_nat (List.length s)).
  split; [|split].
  - rewrite !length_map. apply FitDegenerate.py_range_length.
  - intros f Hf. apply in_map_iff in Hf. destruct Hf as [i [E Hi]].
    apply in_map_iff in Hi. destruct Hi as [q [Ei _]].
    apply (sort_by_In Z Z.leb (f0 :: fs)). fold s. rewrite <- E.
    apply nth_In. subst i n. lia.
  - destruct (Z_le_gt_dec k 0) as [Hk|Hk].
    { unfold py_range. replace (Z.to_nat k) with 0%nat by lia. constructor. }
    unfold py_range. rewrite !map_map.
    apply map_seq_sorted. intros i j Hij.
    apply Zsorted_nth_le; [exact Hs | | subst n; lia].
      apply Z2Nat.inj_le; try (subst n; lia).
      apply Z.min_le_compat_l, Z.max_le_compat_l, py_round_monotone.
      assert (Hn : (0 <= inject_Z (n - 1))%Q).
      { change 0%Q with (inject_Z 0). rewrite <- Zle_Qle. subst n. lia. }
      assert (Hij' : (inject_Z (Z.of_nat i) <= inject_Z (Z.of_nat j))%Q).
      { rewrite <- Zle_Qle. lia. }
      assert (Hk' : (0 < inject_Z k)%Q).
      { change 0%Q with (inject_Z 0). rewrite <- Zlt_Qlt. lia. }
      apply Qmult_le_compat_r; [|exact Hn].
      apply Qmult_le_compat_r; [lra|].
      apply Qlt_le_weak, Qinv_lt_0_compat, Hk'.
Qed.

Lemma quantile_floors_come_from_history_witness :
  let parks := weighted_quantile_floors [9; 2; 5; 2; 7; 1] 3 in
  List.length parks = Z.to_nat 3
  /\ (forall f, In f parks -> In f [9; 2; 5; 2; 7; 1])
  /\ StronglySorted Z.le parks.
Proof.
  apply (quantile_floors_come_from_history [9; 2; 5; 2; 7; 1] 3). discriminate.
Defined.

Lemma sorted_perm_eq (a : list Z) :
  forall b, StronglySorted Z.le a -> StronglySorted Z.le b -> Permutation a b -> a = b.
Proof.
  induction a as [|x a IH]; intros b Ha Hb Hp.
  - apply Permutation_nil in Hp. symmetry. exact Hp.
  - destruct b as [|y b].
    + apply Permutation_sym, Permutation_nil in Hp. discriminate.
    + apply StronglySorted_inv in Ha. destruct Ha as [Ha Hxa].
      apply StronglySorted_inv in Hb. destruct Hb as [Hb Hyb].
      rewrite Forall_forall in Hxa, Hyb.
      assert (Hxy : x = y).
      { assert (Hy : In y (x :: a)).
        { apply (Permutation_in y (Permutation_sym Hp)). left. reflexivity. }
        assert (Hx : In x (y :: b)).
        { apply (Permutation_in x Hp). left. reflexivity. }
        destruct Hy as [Hy|Hy]; [exact Hy|].
        destruct Hx as [Hx|Hx]; [symmetry; exact Hx|].
        specialize (Hxa y Hy). specialize (Hyb x Hx). lia. }
      subst y. f_equal. apply IH; [exact Ha | exact Hb|].
      eapply Permutation_cons_inv. exact Hp.
Qed.

Lemma paired_distance_swap (a : list Z) :
  forall b, Zsum (map (fun ab => Z.abs (fst ab - snd ab)) (combine a b))
            = Zsum (map (fun ab => Z.abs (fst ab - snd ab)) (combine b a)).
Proof.
  induction a as [|x a IH]; intros [|y b]; try reflexivity.
  cbn [combine map Zsum fold_right fst snd].
  fold (Zsum (map (fun ab => Z.abs (fst ab - snd ab)) (combine a b))).
  fold (Zsum (map (fun ab => Z.abs (fst ab - snd ab)) (combine b a))).
  rewrite IH. lia.
Qed.

Lemma paired_distance_nonneg (l : list (Z * Z)) :
  0 <= Zsum (map (fun ab => Z.abs (fst ab - snd ab)) l).
Proof.
  induction l as [|p l IH]; [apply Z.le_refl|].
  cbn [map Zsum fold_right]. fold (Zsum (map (fun ab => Z.abs (fst ab - snd ab)) l)).
  lia.
Qed.

Lemma paired_distance_self (a : list Z) :
  Zsum (map (fun ab => Z.abs (fst ab - snd ab)) (combine a a)) = 0.
Proof.
  induction a as [|x a IH]; [reflexivity|].
  cbn [combine map Zsum fold_right fst snd].
  fold (Zsum (map (fun ab => Z.abs (fst ab - snd ab)) (combine a a))).
  rewrite IH. lia.
Qed.

(** X19.  The repositioning cost [match_sorted_distance] is never
    negative, is the same in both directions, and is zero between two
    plans that park the same multiset of floors; in particular a plan that
    does not change costs nothing. *)
Theorem matching_distance_is_symmetric_and_zero_on_equal_plans (prev curr : list Z) :
  (0 <= match_sorted_distance prev curr)%Q
  /\ match_sorted_distance prev curr = match_sorted_distance curr prev
  /\ (Permutation prev curr -> match_sorted_distance prev curr = 0%Q).
Proof.
  split; [|split].
  - unfold match_sorted_distance.
    destruct prev as [|p prev]; [apply Qle_refl|].
    destruct curr as [|c curr]; [apply Qle_refl|].
    change 0%Q with (inject_Z 0). rewrite <- Zle_Qle. apply paired_distance_nonneg.
  - unfold match_sorted_distance.
    destruct prev as [|p prev]; destruct curr as [|c curr]; try reflexivity.
    rewrite paired_distance_swap. reflexivity.
  - intro Hp. unfold match_sorted_distance.
    destruct prev as [|p prev]; [reflexivity|].
    destruct curr as [|c curr]; [reflexivity|].
    assert (E : sort_by Z.leb (p :: prev) = sort_by Z.leb (c :: curr)).
    { apply sorted_perm_eq; try apply Zleb_sorted.
      eapply Permutation_trans; [apply sort_by_perm|].
      eapply Permutation_trans; [exact Hp | apply Permutation_sym, sort_by_perm]. }
    rewrite E, paired_distance_self. reflexivity.
Qed.

End QuantileFloors.

(** ** The epoch evaluator of the parking strategies *)
Module ParkingEvaluatorProperties.

Import EvaluatorParking LogViews ParkingZoneFacts QuantileFloors.

Lemma pdict_get_set (d : pdict) (s s' : string) (v : list Z) :
  pdict_get (pdict_set d s v) s' = if String.eqb s s' then v else pdict_get d s'.
Proof.
  induction d as [|[s0 v0] d IH]; cbn [pdict_set pdict_get].
  - destruct (String.eqb s s'); reflexivity.
  - destruct (String.eqb s0 s) eqn:E0; cbn [pdict_get].
    + apply String.eqb_eq in E0. subst s0. destruct (String.eqb s s'); reflexivity.
    + rewrite IH. destruct (String.eqb s0 s') eqn:E1; [|reflexivity].
      apply String.eqb_eq in E1. subst s0. rewrite String.eqb_sym, E0. reflexivity.
Qed.

Lemma py_repeat_cons (k : Z) :
  1 <= k -> py_repeat 1 k = 1 :: py_repeat 1 (k - 1).
Proof.
  intro Hk. unfold py_repeat.
  replace (Z.to_nat k) with (S (Z.to_nat (k - 1))) by lia. reflexivity.
Qed.

Lemma py_repeat_nil (k : Z) : k <= 0 -> py_repeat 1 k = [].
Proof.
  intro Hk. unfold py_repeat. replace (Z.to_nat k) with 0%nat by lia. reflexivity.
Qed.

Lemma parking_last_stop_keeps_lobby (k : Z) :
  parking_last_stop (py_repeat 1 k) k = py_repeat 1 k.
Proof.
  unfold parking_last_stop.
  destruct (py_repeat 1 k) as [|p ps] eqn:E; [|destruct (_ =? _)]; reflexivity.
Qed.

Lemma parking_zone_nonempty (hist : list Z) (k lm mm F_min F_max : Z) :
  1 <= k -> parking_zone hist k lm mm F_min F_max <> [].
Proof.
  intros Hk E.
  destruct hist as [|h hist].
  - unfold parking_zone in E. rewrite (Qceiling_scaled 5 10 k) in E.
    assert (H : 1 <= - (- (5 * k) / 10)) by (Z.div_mod_to_equations; lia).
    rewrite (py_repeat_cons _ H) in E. discriminate.
  - assert (Hne : h :: hist <> []) by discriminate.
    pose proof (parking_zone_length_history (h :: hist) k lm mm F_min F_max Hne
                                            ltac:(lia)) as Hl.
    rewrite E in Hl. simpl in Hl. lia.
Qed.

Lemma plan_ok (args : Args) (F_min F_max : Z) (strat : string)
      (prev hist : list Z) :
  1 <= k args -> In strat strategies ->
  exists p parks, plan args F_min F_max strat prev hist = Ok (p :: parks).
Proof.
  intros Hk Hin.
  assert (Hones : exists p parks, py_repeat 1 (k args) = p :: parks).
  { rewrite (py_repeat_cons _ Hk). eauto. }
  assert (Hzone : exists p parks,
             parking_zone hist (k args) (lobby_max args) (mid_max args) F_min F_max
             = p :: parks).
  { pose proof (parking_zone_nonempty hist (k args) (lobby_max args) (mid_max args)
                                      F_min F_max Hk) as Hn.
    destruct (parking_zone _ _ _ _ _ _) as [|p parks]; [congruence | eauto]. }
  unfold strategies in Hin.
  destruct Hin as [<-|[<-|[<-|[<-|[]]]]]; unfold plan;
    cbn [String.eqb Ascii.eqb Bool.eqb andb].
  - destruct Hones as [p [parks E]].
    unfold parking_last_stop. destruct prev as [|p0 prev]; [rewrite E; eauto|].
    destruct (_ =? _); [eauto | rewrite E; eauto].
  - unfold parking_lobby. destruct Hones as [p [parks E]]. rewrite E. eauto.
  - destruct Hzone as [p [parks E]]. rewrite E. eauto.
  - unfold parking_dynamic. destruct hist as [|h hist].
    + destruct Hzone as [p [parks E]]. rewrite E. eauto.
    + assert (Hl : List.length (weighted_quantile_floors (h :: hist) (k args))
                   = Z.to_nat (k args)).
      { unfold weighted_quantile_floors. rewrite !length_map.
        apply FitDegenerate.py_range_length. }
      destruct (weighted_quantile_floors (h :: hist) (k args)) as [|p parks];
        [simpl in Hl; lia | eauto].
Qed.

Lemma plan_last_stop (args : Args) (F_min F_max : Z) (hist : list Z) :
  plan args F_min F_max "last_stop" (py_repeat 1 (k args)) hist
  = Ok (py_repeat 1 (k args)).
Proof.
  unfold plan. cbn [String.eqb Ascii.eqb Bool.eqb andb].
  rewrite parking_last_stop_keeps_lobby. reflexivity.
Qed.

Lemma plan_lobby (args : Args) (F_min F_max : Z) (prev hist : list Z) :
  plan args F_min F_max "lobby" prev hist = Ok (py_repeat 1 (k args)).
Proof. reflexivity. Qed.

(** The rows [log_calls] writes for the calls of one bin. *)
Lemma log_calls_ok (args : Args) (strat st : string) (p : Z) (parks : list Z)
      (et : Q) (calls : list HallCall) :
  exists rows,
    log_calls args strat st (p :: parks) et calls = Ok rows
    /\ List.length rows = List.length calls
    /\ (forall r, In r rows ->
                  strategy r = strat
                  /\ empty_travel r
                     = (et / inject_Z (Z.of_nat (List.length calls)))%Q
                  /\ ((0 <= v_floor args)%Q -> (door args <= wait_time r)%Q)).
Proof.
  destruct calls as [|c calls].
  - exists []. repeat split; try reflexivity; contradiction.
  - eexists. split; [reflexivity|]. split; [apply length_map|].
    intros r Hr. apply in_map_iff in Hr. destruct Hr as [c' [E _]]. subst r.
    cbn [strategy empty_travel wait_time]. repeat split.
    intro Hv.
    set (dist := Zlist_min _ _).
    assert (Hd : 0 <= dist).
    { subst dist.
      destruct (SeriesFacts.Zlist_min_spec
                  (map (fun q => Z.abs (q - Floor c')) parks)
                  (Z.abs (p - Floor c'))) as [Hin _].
      destruct Hin as [Hin|Hin]; [rewrite <- Hin; apply Z.abs_nonneg|].
      apply in_map_iff in Hin. destruct Hin as [q [Hq _]].
      rewrite <- Hq. apply Z.abs_nonneg. }
    assert (Hd' : (0 <= inject_Z dist)%Q).
    { change 0%Q with (inject_Z 0). rewrite <- Zle_Qle. exact Hd. }
    pose proof (Qmult_le_0_compat _ _ Hd' Hv). lra.
Qed.

Lemma log_calls_relabel (args : Args) (s1 s2 st : string) (curr : list Z)
      (et : Q) (calls : list HallCall) (r1 r2 : list LogRow) :
  log_calls args s1 st curr et calls = Ok r1 ->
  log_calls args s2 st curr et calls = Ok r2 ->
  map columns r1 = map columns r2.
Proof.
  unfold log_calls. destruct calls as [|c calls].
  - intros H1 H2. injection H1 as <-. injection H2 as <-. reflexivity.
  - destruct curr as [|p parks]; [discriminate|].
    intros H1 H2. injection H1 as <-. injection H2 as <-.
    cbn [map]. rewrite !map_map. reflexivity.
Qed.

Lemma rows_of_all (strat : string) (log : list LogRow) :
  (forall r, In r log -> strategy r = strat) -> rows_of strat log = log.
Proof.
  intro H. unfold rows_of. induction log as [|r log IH]; [reflexivity|].
  cbn [filter]. rewrite (H r (or_introl eq_refl)), String.eqb_refl.
  rewrite IH; [reflexivity|]. intros r' Hr'. apply H. right. exact Hr'.
Qed.

Lemma rows_of_none (strat : string) (log : list LogRow) :
  (forall r, In r log -> strategy r <> strat) -> rows_of strat log = [].
Proof.
  intro H. unfold rows_of. induction log as [|r log IH]; [reflexivity|].
  cbn [filter]. destruct (String.eqb (strategy r) strat) eqn:E.
  - apply String.eqb_eq in E. exfalso. exact (H r (or_introl eq_refl) E).
  - apply IH. intros r' Hr'. apply H. right. exact Hr'.
Qed.

Lemma rows_of_app (strat : string) (a b : list LogRow) :
  rows_of strat (a ++ b) = rows_of strat a ++ rows_of strat b.
Proof. apply filter_app. Qed.

Lemma matching_distance_self (a : list Z) : match_sorted_distance a a = 0%Q.
Proof.
  unfold match_sorted_distance. destruct a as [|x a]; [reflexivity|].
  rewrite paired_distance_self. reflexivity.
Qed.

(** What the evaluation of one bin, and of any run of bins, writes: four
    rows per call; waits of at least the door time; the rows of
    [last_stop] equal to the rows of [lobby] but for the name; and no
    empty travel in either. *)
Lemma run_strategies_ok (args : Args) (F_min F_max : Z) (st : string)
      (hist : list Z) (calls : list HallCall) (d : pdict) :
  1 <= k args ->
  pdict_get d "last_stop" = py_repeat 1 (k args) ->
  pdict_get d "lobby" = py_repeat 1 (k args) ->
  exists d' rows,
    run_strategies args F_min F_max strategies st hist calls d = Ok (d', rows)
    /\ pdict_get d' "last_stop" = py_repeat 1 (k args)
    /\ pdict_get d' "lobby" = py_repeat 1 (k args)
    /\ Z.of_nat (List.length rows) = 4 * Z.of_nat (List.length calls)
    /\ (forall r, In r rows -> (0 <= v_floor args)%Q -> (door args <= wait_time r)%Q)
    /\ map columns (rows_of "last_stop" rows) = map columns (rows_of "lobby" rows)
    /\ (forall r, In r (rows_of "last_stop" rows ++ rows_of "lobby" rows) ->
                  (empty_travel r == 0)%Q).
Proof.
  intros Hk Hls Hlb.
  destruct (py_repeat 1 (k args)) as [|o ones] eqn:Eones.
  { rewrite (py_repeat_cons _ Hk) in Eones. discriminate. }
  unfold strategies. cbn [run_strategies].
  (* last_stop *)
  rewrite Hls, <- Eones, plan_last_stop, Eones. cbn [bind].
  destruct (log_calls_ok args "last_stop" st o ones
              (match_sorted_distance (o :: ones) (o :: ones)) calls)
    as [r1 [E1 [L1 P1]]].
  rewrite E1. cbn [bind].
  (* lobby *)
  rewrite pdict_get_set. cbn [String.eqb Ascii.eqb Bool.eqb andb].
  rewrite Hlb, plan_lobby, Eones. cbn [bind].
  destruct (log_calls_ok args "lobby" st o ones
              (match_sorted_distance (o :: ones) (o :: ones)) calls)
    as [r2 [E2 [L2 P2]]].
  rewrite E2. cbn [bind].
  (* zone *)
  set (d2 := pdict_set (pdict_set d "last_stop" (o :: ones)) "lobby" (o :: ones)).
  destruct (plan_ok args F_min F_max "zone" (pdict_get d2 "zone") hist Hk)
    as [pz [parksz Ez]]; [unfold strategies; simpl; tauto|].
  rewrite Ez. cbn [bind].
  destruct (log_calls_ok args "zone" st pz parksz
              (match_sorted_distance (pdict_get d2 "zone") (pz :: parksz)) calls)
    as [r3 [E3 [L3 P3]]].
  rewrite E3. cbn [bind].
  (* dynamic *)
  set (d3 := pdict_set d2 "zone" (pz :: parksz)).
  destruct (plan_ok args F_min F_max "dynamic" (pdict_get d3 "dynamic") hist Hk)
    as [pd [parksd Ed]]; [unfold strategies; simpl; tauto|].
  rewrite Ed. cbn [bind].
  destruct (log_calls_ok args "dynamic" st pd parksd
              (match_sorted_distance (pdict_get d3 "dynamic") (pd :: parksd)) calls)
    as [r4 [E4 [L4 P4]]].
  rewrite E4. cbn [bind fst snd].
  eexists. eexists. split; [reflexivity|].
  assert (S1 : forall r, In r r1 -> strategy r = "last_stop"%string)
    by (intros r Hr; apply (P1 r Hr)).
  assert (S2 : forall r, In r r2 -> strategy r = "lobby"%string)
    by (intros r Hr; apply (P2 r Hr)).
  assert (S3 : forall r, In r r3 -> strategy r = "zone"%string)
    by (intros r Hr; apply (P3 r Hr)).
  assert (S4 : forall r, In r r4 -> strategy r = "dynamic"%string)
    by (intros r Hr; apply (P4 r Hr)).
  assert (Fls : rows_of "last_stop" (r1 ++ r2 ++ r3 ++ r4 ++ []) = r1).
  { rewrite !rows_of_app. rewrite (rows_of_all "last_stop" r1 S1).
    rewrite (rows_of_none "last_stop" r2), (rows_of_none "last_stop" r3),
      (rows_of_none "last_stop" r4).
    - cbn [rows_of filter app]. rewrite app_nil_r. reflexivity.
    - intros r Hr. rewrite (S4 r Hr). discriminate.
    - intros r Hr. rewrite (S3 r Hr). discriminate.
    - intros r Hr. rewrite (S2 r Hr). discriminate. }
  assert (Flb : rows_of "lobby" (r1 ++ r2 ++ r3 ++ r4 ++ []) = r2).
  { rewrite !rows_of_app. rewrite (rows_of_all "lobby" r2 S2).
    rewrite (rows_of_none "lobby" r1), (rows_of_none "lobby" r3),
      (rows_of_none "lobby" r4).
    - cbn [rows_of filter app]. rewrite app_nil_r. reflexivity.
    - intros r Hr. rewrite (S4 r Hr). discriminate.
    - intros r Hr. rewrite (S3 r Hr). discriminate.
    - intros r Hr. rewrite (S1 r Hr). discriminate. }
  rewrite Fls, Flb.
  repeat split.
  - subst d3 d2. rewrite !pdict_get_set.
    cbn [String.eqb Ascii.eqb Bool.eqb andb]. reflexivity.
  - subst d3 d2. rewrite !pdict_get_set.
    cbn [String.eqb Ascii.eqb Bool.eqb andb]. reflexivity.
  - rewrite !length_app, L1, L2, L3, L4. cbn [List.length]. lia.
  - intros r Hr Hv. rewrite !in_app_iff in Hr.
    destruct Hr as [Hr|[Hr|[Hr|[Hr|[]]]]];
      [apply (P1 r Hr) | apply (P2 r Hr) | apply (P3 r Hr) | apply (P4 r Hr)];
      exact Hv.
  - exact (log_calls_relabel args _ _ st (o :: ones) _ calls r1 r2 E1 E2).
  - intros r Hr. apply in_app_iff in Hr.
    assert (Et : empty_travel r
                 = (match_sorted_distance (o :: ones) (o :: ones)
                    / inject_Z (Z.of_nat (List.length calls)))%Q).
    { destruct Hr as [Hr|Hr]; [apply (P1 r Hr) | apply (P2 r Hr)]. }
    rewrite Et, matching_distance_self. unfold Qdiv. ring.
Qed.

Lemma run_bins_ok (args : Args) (df : list HallCall) (F_min F_max : Z)
      (q25 q75 : Q) (floors_by_bin : list (list Z)) :
  1 <= k args ->
  forall (bins : list (Z * Interval)) (d : pdict),
    pdict_get d "last_stop" = py_repeat 1 (k args) ->
    pdict_get d "lobby" = py_repeat 1 (k args) ->
    exists rows,
      run_bins args df F_min F_max q25 q75 floors_by_bin bins d = Ok rows
      /\ Z.of_nat (List.length rows)
         = 4 * Zsum (map (fun ir => Z.of_nat (List.length
                                                (calls_of_bin df (bin5 (snd ir)))))
                         bins)
      /\ (forall r, In r rows -> (0 <= v_floor args)%Q -> (door args <= wait_time r)%Q)
      /\ map columns (rows_of "last_stop" rows) = map columns (rows_of "lobby" rows)
      /\ (forall r, In r (rows_of "last_stop" rows ++ rows_of "lobby" rows) ->
                    (empty_travel r == 0)%Q).
Proof.
  intro Hk. induction bins as [|[i row] bins IH]; intros d Hls Hlb.
  - exists []. repeat split; try reflexivity; intros r [].
  - cbn [run_bins].
    destruct (run_strategies_ok args F_min F_max (state_of q25 q75 row)
                (history_window floors_by_bin i (history_bins args))
                (calls_of_bin df (bin5 row)) d Hk Hls Hlb)
      as [d' [rows1 [E1 [Hls' [Hlb' [L1 [W1 [C1 T1]]]]]]]].
    rewrite E1. cbn [bind fst snd].
    destruct (IH d' Hls' Hlb') as [rows2 [E2 [L2 [W2 [C2 T2]]]]].
    rewrite E2. cbn [bind].
    exists (rows1 ++ rows2). split; [reflexivity|].
    split; [|split; [|split]].
    + rewrite length_app, Nat2Z.inj_add, L1, L2.
      cbn [map Zsum fold_right snd].
      fold (Zsum (map (fun ir : Z * Interval =>
                         Z.of_nat (List.length (calls_of_bin df (bin5 (snd ir)))))
                      bins)).
      lia.
    + intros r Hr. apply in_app_iff in Hr.
      destruct Hr as [Hr|Hr]; [apply (W1 r Hr) | apply (W2 r Hr)].
    + rewrite !rows_of_app, !map_app, C1, C2. reflexivity.
    + intros r Hr. rewrite !rows_of_app in Hr. rewrite !in_app_iff in Hr.
      destruct Hr as [[Hr|Hr]|[Hr|Hr]].
      * apply T1. apply in_app_iff. left. exact Hr.
      * apply T2. apply in_app_iff. left. exact Hr.
      * apply T1. apply in_app_iff. right. exact Hr.
      * apply T2. apply in_app_iff. right. exact Hr.
Qed.

Lemma map_snd_combine (A B C : Type) (F : B -> C) (a : list A) :
  forall b : list B,
    List.length a = List.length b ->
    map (fun ab => F (snd ab)) (combine a b) = map F b.
Proof.
  induction a as [|x a IH]; intros [|y b] H; try discriminate; [reflexivity|].
  cbn [combine map snd]. rewrite IH; [reflexivity|]. simpl in H. lia.
Qed.

(** The bins of [build_interval] hold every call once. *)
Lemma bins_cover_calls (df : list HallCall) :
  Zsum (map (fun row => Z.of_nat (List.length (calls_of_bin df (bin5 row))))
            (build_interval df))
  = Z.of_nat (List.length df).
Proof.
  unfold build_interval. rewrite map_map. cbn [bin5]. unfold calls_of_bin.
  apply (groups_cover_rows HallCall Z (fun c => floor_5min (Time c)) Z.eqb Z.eqb_eq).
  - apply sort_by_NoDup, nodup_Z_NoDup.
  - intros r Hr. apply (sort_by_In Z Z.leb). apply SeriesFacts.nodup_Z_In.
    apply (in_map (fun c => floor_5min (Time c))). exact Hr.
Qed.

Lemma main_ok (args : Args) (df : list HallCall) :
  1 <= k args -> df <> [] ->
  exists rows,
    main args df = Ok rows
    /\ Z.of_nat (List.length rows) = 4 * Z.of_nat (List.length df)
    /\ (forall r, In r rows -> (0 <= v_floor args)%Q -> (door args <= wait_time r)%Q)
    /\ map columns (rows_of "last_stop" rows) = map columns (rows_of "lobby" rows)
    /\ (forall r, In r (rows_of "last_stop" rows ++ rows_of "lobby" rows) ->
                  (empty_travel r == 0)%Q).
Proof.
  intros Hk Hne. destruct df as [|c df']; [congruence|].
  unfold main.
  set (df := c :: df').
  set (interval := build_interval df).
  destruct (run_bins_ok args df
              (Zlist_min (Floor c) (map Floor df'))
              (Zlist_max (Floor c) (map Floor df'))
              (percentile (map (fun r => inject_Z (count r)) interval) 25)
              (percentile (map (fun r => inject_Z (count r)) interval) 75)
              (map floors interval) Hk
              (combine (py_range (Z.of_nat (List.length interval))) interval)
              (map (fun s => (s, py_repeat 1 (k args))) strategies)
              eq_refl eq_refl)
    as [rows [E [L H]]].
  exists rows. split; [exact E|]. split; [|exact H].
  rewrite L. f_equal.
  rewrite (map_snd_combine Z Interval Z
             (fun row => Z.of_nat (List.length (calls_of_bin df (bin5 row))))).
  - apply bins_cover_calls.
  - rewrite FitDegenerate.py_range_length. lia.
Qed.



(** X21.  In [main] the plan of [last_stop] starts as [k] cars at the
    lobby and is only ever replaced by itself, so the strategy never
    leaves the lobby: its log rows are those of [lobby] under another
    name, and neither strategy records any empty travel. *)
Theorem last_stop_rows_equal_lobby_rows (args : Args) (df : list HallCall) :
  1 <= k args -> df <> [] ->
  exists rows,
    main args df = Ok rows
    /\ map columns (rows_of "last_stop" rows) = map columns (rows_of "lobby" rows)
    /\ (forall r, In r (rows_of "last_stop" rows ++ rows_of "lobby" rows) ->
                  (empty_travel r == 0)%Q).
Proof.
  intros Hk Hne. destruct (main_ok args df Hk Hne) as [rows [E [_ [_ H]]]].
  exists rows. split; [exact E | exact H].
Qed.

Lemma last_stop_rows_equal_lobby_rows_witness :
  let args := mkArgs 2 (3#2) 8 3 3 8 in
  let df := [mkHallCall 0 5 "Up"; mkHallCall 20 9 "Down"; mkHallCall 400 1 "Up"] in
  exists rows,
    main args df = Ok rows
    /\ map columns (rows_of "last_stop" rows) = map columns (rows_of "lobby" rows)
    /\ (forall r, In r (rows_of "last_stop" rows ++ rows_of "lobby" rows) ->
                  (empty_travel r == 0)%Q).
Proof.
  intros args df.
  apply (last_stop_rows_equal_lobby_rows args df); [cbn; lia | discriminate].
Defined.

Lemma build_interval_first_bin (c : HallCall) (df : list HallCall) :
  exists row rest c' calls,
    build_interval (c :: df) = row :: rest
    /\ calls_of_bin (c :: df) (bin5 row) = c' :: calls.
Proof.
  unfold build_interval.
  set (keys := sort_by Z.leb (nodup_Z (map (fun c0 => floor_5min (Time c0)) (c :: df)))).
  assert (Hc : In (floor_5min (Time c)) keys).
  { subst keys. apply (sort_by_In Z Z.leb). apply SeriesFacts.nodup_Z_In.
    left. reflexivity. }
  assert (Hall : forall b, In b keys -> calls_of_bin (c :: df) b <> []).
  { intros b Hb. subst keys. apply (proj1 (sort_by_In Z Z.leb _ b)) in Hb.
    apply (proj1 (SeriesFacts.nodup_Z_In _ b)) in Hb. apply in_map_iff in Hb.
    destruct Hb as [c0 [E Hc0]]. intro Hnil.
    assert (Hin : In c0 (calls_of_bin (c :: df) b)).
    { unfold calls_of_bin. apply filter_In. split; [exact Hc0|].
      apply Z.eqb_eq. exact E. }
    rewrite Hnil in Hin. contradiction. }
  destruct keys as [|b keys]; [contradiction|].
  specialize (Hall b (or_introl eq_refl)).
  destruct (calls_of_bin (c :: df) b) as [|c' calls] eqn:E; [congruence|].
  cbn [map]. do 4 eexists. split; [reflexivity|]. cbn [bin5]. exact E.
Qed.

(** X22.  Without a car ([k <= 0]), [main] on a non-empty call table
    raises the [ValueError] of [np.min] on an empty array. *)
Theorem evaluator_without_cars_raises (args : Args) (df : list HallCall) :
  k args <= 0 -> df <> [] ->
  main args df
  = Raise (ValueError
             "zero-size array to reduction operation minimum which has no identity").
Proof.
  intros Hk Hne. destruct df as [|c df]; [congruence|].
  unfold main.
  destruct (build_interval_first_bin c df) as [row [rest [c' [calls [Eb Ec]]]]].
  rewrite Eb. cbn [List.length].
  replace (py_range (Z.of_nat (S (List.length rest))))
    with (0 :: map Z.of_nat (seq 1 (List.length rest))).
  2:{ unfold py_range. rewrite Nat2Z.id. reflexivity. }
  cbn [combine run_bins]. unfold strategies. cbn [run_strategies].
  cbn [map pdict_get String.eqb Ascii.eqb Bool.eqb andb].
  unfold plan at 1. cbn [String.eqb Ascii.eqb Bool.eqb andb].
  rewrite (py_repeat_nil _ Hk). cbn [parking_last_stop bind].
  rewrite (py_repeat_nil _ Hk). rewrite Ec. reflexivity.
Qed.

Lemma evaluator_without_cars_raises_witness :
  main (mkArgs 0 (3#2) 8 3 3 8) [mkHallCall 0 5 "Up"; mkHallCall 400 1 "Down"]
  = Raise (ValueError
             "zero-size array to reduction operation minimum which has no identity").
Proof.
  apply (evaluator_without_cars_raises (mkArgs 0 (3#2) 8 3 3 8)
           [mkHallCall 0 5 "Up"; mkHallCall 400 1 "Down"]);
    [cbn; lia | discriminate].
Defined.

End ParkingEvaluatorProperties.

(** ** Invariants of the dispatch simulator *)
Module SimulatorInvariants.

Import StressTests SimulatorFacts SampleBounds LongWaitThreshold.

Lemma set_car_length (elevators : list ElevatorState) (e : nat) (st : ElevatorState) :
  (e < List.length elevators)%nat ->
  List.length (set_car elevators e st) = List.length elevators.
Proof.
  intro He. unfold set_car.
  rewrite length_app, length_firstn. cbn [List.length]. rewrite length_skipn. lia.
Qed.

Lemma fold_set_car_length (X : Type) (idx : X -> nat)
      (g : list ElevatorState -> X -> ElevatorState) (l : list X) :
  forall elevators,
    (forall x, In x l -> (idx x < List.length elevators)%nat) ->
    List.length (fold_left (fun els x => set_car els (idx x) (g els x)) l elevators)
    = List.length elevators.
Proof.
  induction l as [|x l IH]; intros els H; [reflexivity|].
  cbn [fold_left]. rewrite IH.
  - apply set_car_length. apply H. left. reflexivity.
  - intros y Hy. rewrite set_car_length by (apply H; left; reflexivity).
    apply H. right. exact Hy.
Qed.

Lemma later_ge (a b : Q) : (b <= later a b)%Q /\ (a <= later a b)%Q.
Proof.
  unfold later. destruct (Qltb a b) eqn:E.
  - apply Qltb_lt in E. split; [apply Qle_refl | apply Qlt_le_weak, E].
  - apply Qltb_ge in E. split; [exact E | apply Qle_refl].
Qed.

Lemma travel_time_nonneg (f1 f2 : Z) (seconds_per_floor : Q) :
  (0 <= seconds_per_floor)%Q -> (0 <= travel_time_seconds f1 f2 seconds_per_floor)%Q.
Proof.
  intro H. unfold travel_time_seconds. apply Qmult_le_0_compat; [|exact H].
  change 0%Q with (inject_Z 0). rewrite <- Zle_Qle. apply Z.abs_nonneg.
Qed.

Section Run.
Variable FeatRow : Type.
Variable predict : FeatRow -> Z.
Variable sort_values : forall A : Type, (A -> Q) -> list A -> list A.
Variable strategy : string.
Variable hall : HallFrame.
Variable stop : StopFrame.
Variable feats : FeatFrame FeatRow.
Variable demand_by_cluster_floor : DemandFrame.
Variables start_time end_time : Q.
Variables seconds_per_floor door_time long_wait_threshold : Q.

Lemma apply_parking_policy_length (hall_sim : list HallCall) (t : Q)
      (elevators elevators' : list ElevatorState) :
  apply_parking_policy predict sort_values strategy feats demand_by_cluster_floor
                       seconds_per_floor hall_sim t elevators = Ok elevators' ->
  List.length elevators' = List.length elevators.
Proof.
  unfold apply_parking_policy.
  set (idle := filter _ (seq 0 (List.length elevators))).
  assert (Hidle : forall e, In e idle -> (e < List.length elevators)%nat).
  { intros e He. subst idle. apply filter_In in He. destruct He as [He _].
    apply in_seq in He. lia. }
  destruct idle as [|i0 idle'] eqn:Eidle; [intro H; injection H as <-; reflexivity|].
  destruct (String.eqb strategy "last_stop");
    [intro H; injection H as <-; reflexivity|].
  destruct (String.eqb strategy "lobby").
  { intro H. injection H as <-.
    apply (fold_set_car_length nat (fun e => e)
             (fun els e => reposition seconds_per_floor t LOBBY_FLOOR
                                      (nth e els (mkElevatorState 0 0)))
             (i0 :: idle') elevators).
    exact Hidle. }
  destruct (String.eqb strategy "dynamic");
    [|intro H; injection H as <-; reflexivity].
  destruct (get_cluster_at _ _ _ _) as [cl|e]; cbn [bind]; [|discriminate].
  destruct (dynamic_targets _ _ _ _ _) as [targets|e]; cbn [bind]; [|discriminate].
  intro H. injection H as <-.
  apply (fold_set_car_length (nat * Z) fst
           (fun els et => reposition seconds_per_floor t (snd et)
                                     (nth (fst et) els (mkElevatorState 0 0)))
           (combine (i0 :: idle') targets) elevators).
  intros [e tg] Hin. apply in_combine_l in Hin. apply Hidle. exact Hin.
Qed.

Lemma run_decisions_length (hall_sim : list HallCall) (call_time : Q)
      (pending : list Q) :
  forall elevators pending' elevators',
    run_decisions predict sort_values strategy feats demand_by_cluster_floor
                  seconds_per_floor hall_sim call_time pending elevators
    = Ok (pending', elevators') ->
    List.length elevators' = List.length elevators.
Proof.
  induction pending as [|d pending IH]; intros els p' els' H; cbn [run_decisions] in H.
  - injection H as _ <-. reflexivity.
  - destruct (Qleb d call_time); [|injection H as _ <-; reflexivity].
    destruct (apply_parking_policy _ _ _ _ _ _ _ _ _) as [els1|e] eqn:E;
      cbn [bind] in H; [|discriminate].
    rewrite (IH els1 p' els' H). exact (apply_parking_policy_length _ _ _ _ E).
Qed.

Lemma serve_call_ok (r : HallCall) (elevators : list ElevatorState) :
  elevators <> [] ->
  exists wait e elevators',
    serve_call seconds_per_floor door_time r elevators = Ok (wait, e, elevators')
    /\ List.length elevators' = List.length elevators
    /\ ((0 <= seconds_per_floor)%Q -> (0 <= wait)%Q).
Proof.
  intro Hne. unfold serve_call.
  destruct (choose_best_spec seconds_per_floor (Time r) (Floor r) elevators Hne)
    as [e [a [E [Ha [He _]]]]].
  rewrite E. do 3 eexists. split; [reflexivity|]. split.
  - apply set_car_length. exact He.
  - intro Hs. rewrite Ha. unfold arrival.
    pose proof (proj1 (later_ge (available_time (nth e elevators (mkElevatorState 0 0)))
                                (Time r))).
    pose proof (travel_time_nonneg (floor (nth e elevators (mkElevatorState 0 0)))
                                   (Floor r) seconds_per_floor Hs).
    lra.
Qed.

Lemma run_calls_waits (hall_sim : list HallCall) :
  forall todo pending elevators waits,
    elevators <> [] ->
    run_calls predict sort_values strategy feats demand_by_cluster_floor
              seconds_per_floor door_time hall_sim todo pending elevators = Ok waits ->
    List.length waits = List.length todo
    /\ ((0 <= seconds_per_floor)%Q -> forall x, In x waits -> (0 <= x)%Q).
Proof.
  induction todo as [|r todo IH]; intros pending els waits Hne H; cbn [run_calls] in H.
  - injection H as <-. split; [reflexivity | intros _ x []].
  - destruct (run_decisions _ _ _ _ _ _ _ _ _ _) as [[p els1]|e] eqn:Ed;
      cbn [bind fst snd] in H; [|discriminate].
    pose proof (run_decisions_length _ _ _ _ _ _ Ed) as Hl1.
    assert (Hne1 : els1 <> []).
    { intro E. subst els1. destruct els; [congruence | discriminate]. }
    destruct (serve_call_ok r els1 Hne1) as [w [e [els2 [Es [Hl2 Hw]]]]].
    rewrite Es in H. cbn [bind fst snd] in H.
    destruct (run_calls _ _ _ _ _ _ _ _ _ _ _) as [ws|e'] eqn:Er;
      cbn [bind] in H; [|discriminate].
    injection H as <-.
    assert (Hne2 : els2 <> []).
    { intro E. subst els2. destruct els1; [congruence | discriminate]. }
    destruct (IH p els2 ws Hne2 Er) as [Hlen Hpos].
    split; [cbn [List.length]; rewrite Hlen; reflexivity|].
    intros Hs x [Hx|Hx]; [subst x; exact (Hw Hs) | exact (Hpos Hs x Hx)].
Qed.

Lemma simulate_waits_spec (waits : list Q) :
  simulate_waits predict sort_values strategy hall stop feats
                 demand_by_cluster_floor start_time end_time
                 seconds_per_floor door_time = Ok (Some waits) ->
  waits <> []
  /\ List.length waits
     = List.length (window sort_values start_time end_time (hall_rows hall))
  /\ ((0 <= seconds_per_floor)%Q -> forall x, In x waits -> (0 <= x)%Q).
Proof.
  unfold simulate_waits.
  destruct (pick_col _ _ _) as [c|e]; cbn [bind]; [|discriminate].
  destruct (existsb _ _); [|discriminate].
  destruct (window _ _ _ _) as [|c0 hs]; [discriminate|].
  destruct (infer_initial_positions _ _ _) as [pos|e]; cbn [bind]; [|discriminate].
  destruct (demand_lookup_columns _) as [[]|e]; cbn [bind]; [|discriminate].
  destruct (feats_index_columns _) as [[]|e]; cbn [bind]; [|discriminate].
  destruct (run_calls _ _ _ _ _ _ _ _ _ _ _) as [ws|e] eqn:Er; cbn [bind];
    [|discriminate].
  intro H. injection H as <-.
  apply run_calls_waits in Er; [|discriminate].
  destruct Er as [Hl Hp]. split; [|split; assumption].
  intro E. subst ws. discriminate.
Qed.

Lemma simulate_waits_none :
  simulate_waits predict sort_values strategy hall stop feats
                 demand_by_cluster_floor start_time end_time
                 seconds_per_floor door_time = Ok None ->
  window sort_values start_time end_time (hall_rows hall) = [].
Proof.
  unfold simulate_waits.
  destruct (pick_col _ _ _) as [c|e]; cbn [bind]; [|discriminate].
  destruct (existsb _ _); [|discriminate].
  destruct (window _ _ _ _) as [|c0 hs]; [reflexivity|].
  destruct (infer_initial_positions _ _ _) as [pos|e]; cbn [bind]; [|discriminate].
  destruct (demand_lookup_columns _) as [[]|e]; cbn [bind]; [|discriminate].
  destruct (feats_index_columns _) as [[]|e]; cbn [bind]; [|discriminate].
  destruct (run_calls _ _ _ _ _ _ _ _ _ _ _) as [ws|e]; cbn [bind]; discriminate.
Qed.

Lemma apply_parking_policy_static_ok (hall_sim : list HallCall) (t : Q)
      (elevators : list ElevatorState) :
  strategy <> "dynamic"%string ->
  exists elevators',
    apply_parking_policy predict sort_values strategy feats demand_by_cluster_floor
                         seconds_per_floor hall_sim t elevators = Ok elevators'.
Proof.
  intro Hd. apply String.eqb_neq in Hd. unfold apply_parking_policy.
  destruct (filter _ _); [eauto|].
  destruct (String.eqb strategy "last_stop"); [eauto|].
  destruct (String.eqb strategy "lobby"); [eauto|].
  rewrite Hd. eauto.
Qed.

Lemma run_decisions_static_ok (hall_sim : list HallCall) (call_time : Q)
      (pending : list Q) :
  strategy <> "dynamic"%string ->
  forall elevators,
  exists pending' elevators',
    run_decisions predict sort_values strategy feats demand_by_cluster_floor
                  seconds_per_floor hall_sim call_time pending elevators
    = Ok (pending', elevators').
Proof.
  intro Hd. induction pending as [|d pending IH]; intro els; cbn [run_decisions].
  - eauto.
  - destruct (Qleb d call_time); [|eauto].
    destruct (apply_parking_policy_static_ok hall_sim d els Hd) as [els1 E].
    rewrite E. cbn [bind]. apply IH.
Qed.

Lemma run_calls_static_ok (hall_sim : list HallCall) :
  strategy <> "dynamic"%string ->
  forall todo pending elevators,
    elevators <> [] ->
    exists waits,
      run_calls predict sort_values strategy feats demand_by_cluster_floor
                seconds_per_floor door_time hall_sim todo pending elevators = Ok waits.
Proof.
  intro Hd. induction todo as [|r todo IH]; intros pending els Hne; cbn [run_calls].
  - eauto.
  - destruct (run_decisions_static_ok hall_sim (Time r) pending Hd els)
      as [p [els1 Ed]].
    rewrite Ed. cbn [bind fst snd].
    pose proof (run_decisions_length _ _ _ _ _ _ Ed) as Hl1.
    assert (Hne1 : els1 <> []).
    { intro E. subst els1. destruct els; [congruence | discriminate]. }
    destruct (serve_call_ok r els1 Hne1) as [w [e [els2 [Es [Hl2 _]]]]].
    rewrite Es. cbn [bind fst snd].
    assert (Hne2 : els2 <> []).
    { intro E. subst els2. destruct els1; [congruence | discriminate]. }
    destruct (IH p els2 Hne2) as [ws Ew]. rewrite Ew. cbn [bind]. eauto.
Qed.

Lemma infer_initial_positions_ok :
  stop_rows stop = [] \/ In "Time"%string (stop_columns stop) ->
  exists pos, infer_initial_positions sort_values stop start_time = Ok pos.
Proof.
  intro H. unfold infer_initial_positions, pick_col.
  destruct (find _ _) as [c1|]; cbn [bind];
    (destruct (find _ _) as [c2|]; cbn [bind]);
    try (destruct (stop_columns stop), (stop_rows stop); eauto; fail).
  destruct H as [H|H].
  - rewrite H. destruct (stop_columns stop); eauto.
  - apply existsb_eqb_In in H. rewrite H.
    destruct (stop_columns stop), (stop_rows stop); eauto.
Qed.

End Run.

(** X23.  Whatever the strategy, a run of [simulate] that returns has
    served every call of the window exactly once ([N] is the size of the
    window) and, the travel time per floor being non-negative, no call
    before it was placed: the mean and the 95th percentile of the waits
    are non-negative numbers and the long-wait rate lies between 0 and
    100. *)
Theorem simulated_calls_are_served_once_and_not_early
        (FeatRow : Type) (predict : FeatRow -> Z)
        (sort_values : forall A : Type, (A -> Q) -> list A -> list A)
        (strategy : string) (hall : HallFrame) (stop : StopFrame)
        (feats : FeatFrame FeatRow) (demand_by_cluster_floor : DemandFrame)
        (start_time end_time seconds_per_floor door_time long_wait_threshold : Q)
        (m : Metrics) :
  simulate predict sort_values strategy hall stop feats demand_by_cluster_floor
           start_time end_time seconds_per_floor door_time long_wait_threshold
  = Ok m ->
  (0 <= seconds_per_floor)%Q ->
  N m = Z.of_nat (List.length (window sort_values start_time end_time (hall_rows hall)))
  /\ (0 < N m ->
      exists a p l,
        AWT m = Val a /\ P95 m = Val p /\ LongWaitPct m = Val l
        /\ (0 <= a)%Q /\ (0 <= p)%Q /\ (0 <= l)%Q /\ (l <= 100)%Q).
Proof.
  intros H Hs. unfold simulate in H.
  destruct (simulate_waits _ _ _ _ _ _ _ _ _ _ _) as [[waits|]|e] eqn:Ew;
    cbn [bind] in H; [| |discriminate].
  - injection H as <-. cbn [N AWT P95 LongWaitPct].
    destruct (simulate_waits_spec _ _ _ _ _ _ _ _ _ _ _ _ _ Ew) as [Hne [Hl Hp]].
    split; [rewrite Hl; reflexivity|]. intros _.
    do 3 eexists. repeat split; try reflexivity.
    + destruct (exists_largest waits Hne) as [top [_ Htop]].
      apply (mean_within waits 0 top Hne).
      intros y Hy. split; [apply (Hp Hs y Hy) | apply Htop, Hy].
    + destruct (exists_largest waits Hne) as [top [_ Htop]].
      apply (percentile_within waits 95 0 top Hne); try lra.
      intros y Hy. split; [apply (Hp Hs y Hy) | apply Htop, Hy].
    + set (flags := map _ waits).
      assert (Hf : flags <> []).
      { subst flags. destruct waits; [congruence | discriminate]. }
      assert (Hb : (0 <= mean flags)%Q /\ (mean flags <= 1)%Q).
      { apply (mean_within flags 0 1 Hf). intros y Hy. subst flags.
        apply in_map_iff in Hy. destruct Hy as [x [E _]]. subst y.
        destruct (Qleb _ _); split; lra. }
      lra.
    + set (flags := map _ waits).
      assert (Hf : flags <> []).
      { subst flags. destruct waits; [congruence | discriminate]. }
      assert (Hb : (0 <= mean flags)%Q /\ (mean flags <= 1)%Q).
      { apply (mean_within flags 0 1 Hf). intros y Hy. subst flags.
        apply in_map_iff in Hy. destruct Hy as [x [E _]]. subst y.
        destruct (Qleb _ _); split; lra. }
      lra.
  - injection H as <-. cbn [N].
    rewrite (simulate_waits_none _ _ _ _ _ _ _ _ _ _ _ _ Ew).
    split; [reflexivity | intro H0; inversion H0].
Qed.

Lemma simulated_calls_are_served_once_and_not_early_witness :
  exists m,
    Scenarios.run "lobby" Scenarios.up_then_lobby 0 400 = Ok m
    /\ N m = Z.of_nat (List.length
                         (window stable_sort_values 0 400
                                 (hall_rows (Scenarios.frame_of Scenarios.up_then_lobby))))
    /\ (0 < N m ->
        exists a p l,
          AWT m = Val a /\ P95 m = Val p /\ LongWaitPct m = Val l
          /\ (0 <= a)%Q /\ (0 <= p)%Q /\ (0 <= l)%Q /\ (l <= 100)%Q).
Proof.
  eexists. split; [vm_compute; reflexivity|].
  apply (simulated_calls_are_served_once_and_not_early
           unit (fun _ => 0) stable_sort_values "lobby"
           (Scenarios.frame_of Scenarios.up_then_lobby) Scenarios.no_stops
           Scenarios.no_feats Scenarios.no_demand
           0 400 SECONDS_PER_FLOOR_BASE DOOR_TIME_BASE LONG_WAIT_THRESHOLD_BASE);
    [vm_compute; reflexivity | vm_compute; discriminate].
Defined.

(** X24.  For every strategy name other than [dynamic], [simulate]
    raises nothing once the frames have the columns it reads: a floor
    column and [Time] in the hall calls, [Time] in the stop records
    unless there are none, [cluster], [floor] and [cnt] in the demand
    table and [Time] in the feature table. *)
Theorem static_strategies_never_raise
        (FeatRow : Type) (predict : FeatRow -> Z)
        (sort_values : forall A : Type, (A -> Q) -> list A -> list A)
        (strategy : string) (hall : HallFrame) (stop : StopFrame)
        (feats : FeatFrame FeatRow) (demand_by_cluster_floor : DemandFrame)
        (start_time end_time seconds_per_floor door_time long_wait_threshold : Q) :
  strategy <> "dynamic"%string ->
  (exists c, In c floor_candidates /\ In c (hall_columns hall)) ->
  In "Time"%string (hall_columns hall) ->
  stop_rows stop = [] \/ In "Time"%string (stop_columns stop) ->
  (forall c, In c ["cluster"; "floor"; "cnt"]%string ->
             In c (demand_columns demand_by_cluster_floor)) ->
  In "Time"%string (feat_columns feats) ->
  exists m,
    simulate predict sort_values strategy hall stop feats demand_by_cluster_floor
             start_time end_time seconds_per_floor door_time long_wait_threshold
    = Ok m.
Proof.
  intros Hd Hfloor Htime Hstop Hdemand Hfeats. unfold simulate, simulate_waits.
  destruct (pick_col_required_found _ _ Hfloor) as [c Hc]. rewrite Hc. cbn [bind].
  apply existsb_eqb_In in Htime. rewrite Htime.
  destruct (window _ _ _ _) as [|c0 hs]; [cbn [bind]; eauto|].
  destruct (infer_initial_positions_ok sort_values stop start_time Hstop) as [pos Ep].
  rewrite Ep. cbn [bind].
  assert (Ed : demand_lookup_columns demand_by_cluster_floor = Ok tt).
  { unfold demand_lookup_columns.
    rewrite (proj2 (existsb_eqb_In _ _) (Hdemand "cluster"%string (or_introl eq_refl))).
    rewrite (proj2 (existsb_eqb_In _ _)
                   (Hdemand "floor"%string (or_intror (or_introl eq_refl)))).
    rewrite (proj2 (existsb_eqb_In _ _)
                   (Hdemand "cnt"%string (or_intror (or_intror (or_introl eq_refl))))).
    destruct (demand_rows demand_by_cluster_floor); reflexivity. }
  assert (Ef : feats_index_columns feats = Ok tt).
  { unfold feats_index_columns.
    rewrite (proj2 (existsb_eqb_In _ _) Hfeats). reflexivity. }
  rewrite Ed, Ef. cbn [bind].
  edestruct (run_calls_static_ok FeatRow predict sort_values strategy feats
               demand_by_cluster_floor seconds_per_floor door_time (c0 :: hs) Hd
               (c0 :: hs)) as [ws Ew]; [|rewrite Ew; cbn [bind]; eauto].
  discriminate.
Qed.

Lemma static_strategies_never_raise_witness :
  exists m, Scenarios.run "lobby" Scenarios.up_then_lobby 0 400 = Ok m.
Proof.
  apply (static_strategies_never_raise
           unit (fun _ => 0) stable_sort_values "lobby"
           (Scenarios.frame_of Scenarios.up_then_lobby) Scenarios.no_stops
           Scenarios.no_feats Scenarios.no_demand
           0 400 SECONDS_PER_FLOOR_BASE DOOR_TIME_BASE LONG_WAIT_THRESHOLD_BASE).
  - discriminate.
  - exists "Floor"%string. split; [left; reflexivity | right; left; reflexivity].
  - left. reflexivity.
  - left. reflexivity.
  - intros c Hc. exact Hc.
  - left. reflexivity.
Defined.

End SimulatorInvariants.

(** ** The lobby policy, the initial positions and the rule timeline *)
Module ParkingEpochs.

Import StressTests SimulatorFacts SimulatorInvariants.

Lemma nth_set_car (elevators : list ElevatorState) (e i : nat)
      (st d : ElevatorState) :
  (e < List.length elevators)%nat ->
  nth i (set_car elevators e st) d = if Nat.eqb i e then st else nth i elevators d.
Proof.
  intro He. unfold set_car.
  assert (Hf : List.length (firstn e elevators) = e)
    by (rewrite length_firstn; lia).
  destruct (Nat.eqb i e) eqn:E.
  - apply Nat.eqb_eq in E. subst i.
    rewrite app_nth2 by lia. rewrite Hf, Nat.sub_diag. reflexivity.
  - apply Nat.eqb_neq in E.
    destruct (Nat.lt_ge_cases i e) as [Hlt|Hge].
    + rewrite app_nth1 by lia.
      rewrite <- (firstn_skipn e elevators) at 2.
      rewrite app_nth1 by lia. reflexivity.
    + rewrite app_nth2 by lia. rewrite Hf.
      destruct (i - e)%nat as [|j] eqn:Ej; [lia|].
      cbn [nth].
      rewrite <- (firstn_skipn (S e) elevators) at 2.
      rewrite app_nth2 by (rewrite length_firstn; lia).
      rewrite length_firstn. f_equal. lia.
Qed.

Lemma fold_set_car_nth (h : ElevatorState -> ElevatorState) (d : ElevatorState)
      (idle : list nat) :
  NoDup idle ->
  forall elevators,
    (forall e, In e idle -> (e < List.length elevators)%nat) ->
    forall i,
      nth i (fold_left (fun els e => set_car els e (h (nth e els d))) idle elevators) d
      = if existsb (Nat.eqb i) idle then h (nth i elevators d) else nth i elevators d.
Proof.
  induction 1 as [|e idle Hnin Hnd IH]; intros els Hlt i; [reflexivity|].
  cbn [fold_left existsb].
  assert (He : (e < List.length els)%nat) by (apply Hlt; left; reflexivity).
  rewrite IH.
  2:{ intros e' He'. rewrite set_car_length by exact He. apply Hlt. right. exact He'. }
  rewrite (nth_set_car els e i _ d He).
  destruct (Nat.eqb i e) eqn:E; cbn [orb]; [|reflexivity].
  apply Nat.eqb_eq in E. subst i.
  destruct (existsb (Nat.eqb e) idle) eqn:Ex; [|reflexivity].
  exfalso. apply Hnin. apply existsb_exists in Ex. destruct Ex as [x [Hx Ee]].
  apply Nat.eqb_eq in Ee. subst x. exact Hx.
Qed.

(** X25.  At a decision epoch the [lobby] policy sends every idle car
    that is not at the lobby there (it becomes available again after the
    travel time), leaves idle cars at the lobby and busy cars as they
    are, and keeps the fleet size. *)
Theorem lobby_policy_recalls_idle_cars
        (FeatRow : Type) (predict : FeatRow -> Z)
        (sort_values : forall A : Type, (A -> Q) -> list A -> list A)
        (feats : FeatFrame FeatRow) (demand_by_cluster_floor : DemandFrame)
        (seconds_per_floor : Q) (hall_sim : list HallCall) (t : Q)
        (elevators : list ElevatorState) :
  exists elevators',
    apply_parking_policy predict sort_values "lobby" feats demand_by_cluster_floor
                         seconds_per_floor hall_sim t elevators = Ok elevators'
    /\ List.length elevators' = List.length elevators
    /\ forall e, (e < List.length elevators)%nat ->
         let st := nth e elevators (mkElevatorState 0 0) in
         let st' := nth e elevators' (mkElevatorState 0 0) in
         ((t < available_time st)%Q -> st' = st)
         /\ ((available_time st <= t)%Q ->
             floor st' = LOBBY_FLOOR
             /\ (floor st = LOBBY_FLOOR -> st' = st)
             /\ (floor st <> LOBBY_FLOOR ->
                 available_time st'
                 = (t + travel_time_seconds (floor st) LOBBY_FLOOR seconds_per_floor)%Q)).
Proof.
  set (d := mkElevatorState 0 0).
  set (idle := filter (fun e => Qleb (available_time (nth e elevators d)) t)
                      (seq 0 (List.length elevators))).
  assert (Hin : forall e, In e idle <-> (e < List.length elevators)%nat
                                        /\ (available_time (nth e elevators d) <= t)%Q).
  { intro e. subst idle. rewrite filter_In, in_seq, Qleb_le.
    split; intros [H1 H2]; (split; [lia | exact H2]). }
  assert (Hnd : NoDup idle) by (subst idle; apply NoDup_filter, seq_NoDup).
  assert (Hex : forall e, existsb (Nat.eqb e) idle = true <-> In e idle).
  { intro e. rewrite existsb_exists. split.
    - intros [x [Hx E]]. apply Nat.eqb_eq in E. subst x. exact Hx.
    - intro H. exists e. split; [exact H | apply Nat.eqb_refl]. }
  exists (fold_left (fun els e => set_car els e
                                   (reposition seconds_per_floor t LOBBY_FLOOR (nth e els d)))
                    idle elevators).
  split; [|split].
  - unfold apply_parking_policy. fold d. fold idle.
    destruct idle as [|i0 idle']; reflexivity.
  - apply (fold_set_car_length nat (fun e => e)
             (fun els e => reposition seconds_per_floor t LOBBY_FLOOR (nth e els d))
             idle elevators).
    intros e He. apply Hin in He. tauto.
  - intros e He st st'. subst st st'.
    rewrite (fold_set_car_nth (reposition seconds_per_floor t LOBBY_FLOOR) d idle Hnd)
      by (intros e' He'; apply Hin in He'; tauto).
    destruct (existsb (Nat.eqb e) idle) eqn:Ex.
    + apply Hex, Hin in Ex. destruct Ex as [_ Hidle]. split.
      * intro Hbusy. exfalso. apply (Qlt_not_le _ _ Hbusy Hidle).
      * intros _. unfold reposition.
        destruct (floor (nth e elevators d) =? LOBBY_FLOOR) eqn:Ef.
        { apply Z.eqb_eq in Ef.
          split; [exact Ef|]. split; [reflexivity | intro Hn; congruence]. }
        { apply Z.eqb_neq in Ef. cbn [floor available_time].
          split; [reflexivity|]. split; [intro Hn; congruence | reflexivity]. }
    + split; [reflexivity|]. intro Hidle. exfalso.
      assert (In e idle) by (apply Hin; split; assumption).
      apply Hex in H. congruence.
Qed.

Lemma fold_positions (s : list StopRow) :
  forall (pos : Z -> option Z) (i : Z),
    let pos' :=
      fold_left (fun (pos : Z -> option Z) (r : StopRow) =>
                   fun i => if i =? stop_elevator r then Some (stop_floor r) else pos i)
                s pos in
    (pos' i = pos i \/ exists r, In r s /\ stop_elevator r = i
                                 /\ pos' i = Some (stop_floor r))
    /\ ((forall r, In r s -> stop_elevator r <> i) -> pos' i = pos i).
Proof.
  set (F := fun (pos : Z -> option Z) (r : StopRow) (i : Z) =>
              if i =? stop_elevator r then Some (stop_floor r) else pos i).
  induction s as [|r s IH]; intros pos i; cbn [fold_left].
  - split; [left; reflexivity | intros _; reflexivity].
  - cbv zeta in IH. destruct (IH (F pos r) i) as [H1 H2].
    assert (HF : F pos r i = if i =? stop_elevator r then Some (stop_floor r) else pos i)
      by reflexivity.
    split.
    + destruct H1 as [H1|[r' [Hr' [He Hp]]]].
      * destruct (i =? stop_elevator r) eqn:E.
        { apply Z.eqb_eq in E. right. exists r. split; [left; reflexivity|].
          split; [symmetry; exact E|]. rewrite H1. exact HF. }
        { left. rewrite H1. exact HF. }
      * right. exists r'. split; [right; exact Hr' | split; assumption].
    + intro Hno. rewrite H2 by (intros r' Hr'; apply Hno; right; exact Hr').
      rewrite HF.
      destruct (i =? stop_elevator r) eqn:E; [|reflexivity].
      apply Z.eqb_eq in E. exfalso. apply (Hno r (or_introl eq_refl)). symmetry. exact E.
Qed.

(** X26.  [infer_initial_positions] places every car of the fleet: each
    of the eight car numbers gets a floor, which is the floor of a stop
    record of that car at or before the start time, or else the lobby;
    a car without such a record starts at the lobby.  Records of the
    future are never used. *)
Theorem initial_positions_place_every_car
        (sort_values : forall A : Type, (A -> Q) -> list A -> list A)
        (stop : StopFrame) (start_time : Q) (pos : Z -> option Z) (i : Z) :
  sorts sort_values ->
  infer_initial_positions sort_values stop start_time = Ok pos ->
  0 <= i < N_ELEVATORS ->
  exists f,
    pos i = Some f
    /\ (f = LOBBY_FLOOR
        \/ exists r, In r (stop_rows stop) /\ stop_elevator r = i
                     /\ stop_floor r = f /\ (stop_time r <= start_time)%Q)
    /\ ((forall r, In r (stop_rows stop) -> stop_elevator r = i ->
                   (start_time < stop_time r)%Q) ->
        f = LOBBY_FLOOR).
Proof.
  intros Hsort H Hi.
  set (pos0 := fun j : Z =>
                 if (0 <=? j) && (j <? N_ELEVATORS) then Some LOBBY_FLOOR else None).
  assert (H0 : pos0 i = Some LOBBY_FLOOR).
  { subst pos0. cbv beta.
    destruct (Z.leb_spec 0 i); [|lia]. destruct (Z.ltb_spec i N_ELEVATORS); [|lia].
    reflexivity. }
  assert (Hdefault : pos = pos0 ->
                     exists f, pos i = Some f
                               /\ (f = LOBBY_FLOOR
                                   \/ exists r, In r (stop_rows stop) /\ stop_elevator r = i
                                                /\ stop_floor r = f
                                                /\ (stop_time r <= start_time)%Q)
                               /\ ((forall r, In r (stop_rows stop) -> stop_elevator r = i ->
                                              (start_time < stop_time r)%Q) ->
                                   f = LOBBY_FLOOR)).
  { intros ->. exists LOBBY_FLOOR. split; [exact H0|]. split; [left; reflexivity|].
    intros _. reflexivity. }
  unfold infer_initial_positions, pick_col in H.
  destruct (find _ _) as [c1|]; cbn [bind] in H;
    (destruct (find _ _) as [c2|]; cbn [bind] in H);
    try (destruct (stop_columns stop), (stop_rows stop);
         injection H as <-; apply Hdefault; reflexivity).
  destruct (stop_columns stop) as [|col cols] eqn:Ec;
    [injection H as <-; apply Hdefault; reflexivity|].
  destruct (stop_rows stop) as [|r0 rs] eqn:Er;
    [injection H as <-; apply Hdefault; reflexivity|].
  destruct (existsb _ _); [|discriminate].
  injection H as <-.
  set (s := sort_values StopRow stop_time
              (filter (fun r => Qleb (stop_time r) start_time) (r0 :: rs))).
  assert (Hs : forall r, In r s -> In r (r0 :: rs) /\ (stop_time r <= start_time)%Q).
  { intros r Hr. subst s.
    apply (Permutation_in _ (proj1 (Hsort _ stop_time _))) in Hr.
    apply filter_In in Hr. destruct Hr as [Hr Ht]. apply Qleb_le in Ht. tauto. }
  destruct (fold_positions s pos0 i) as [H1 H2]. cbv zeta in H1, H2.
  fold pos0.
  change (if Qleb (stop_time r0) start_time
          then r0 :: filter (fun r => Qleb (stop_time r) start_time) rs
          else filter (fun r => Qleb (stop_time r) start_time) rs)
    with (filter (fun r => Qleb (stop_time r) start_time) (r0 :: rs)).
  fold s.
  destruct H1 as [H1|[r [Hr [He Hp]]]].
  - exists LOBBY_FLOOR. rewrite H1. split; [exact H0|]. split; [left; reflexivity|].
    intros _. reflexivity.
  - exists (stop_floor r). split; [exact Hp|]. split.
    + right. exists r. destruct (Hs r Hr) as [Hin Ht]. repeat split; assumption.
    + intro Hfuture. exfalso. destruct (Hs r Hr) as [Hin Ht].
      apply (Qlt_not_le _ _ (Hfuture r Hin He) Ht).
Qed.

Lemma initial_positions_place_every_car_witness :
  let stop := mkStopFrame ["Time"; "Elevator"; "Floor"]%string
                          [mkStopRow 10 2 7; mkStopRow 5 2 4; mkStopRow 90 3 9] in
  exists pos f,
    infer_initial_positions stable_sort_values stop 50 = Ok pos
    /\ pos 2 = Some f
    /\ (f = LOBBY_FLOOR
        \/ exists r, In r (stop_rows stop) /\ stop_elevator r = 2
                     /\ stop_floor r = f /\ (stop_time r <= 50)%Q)
    /\ ((forall r, In r (stop_rows stop) -> stop_elevator r = 2 ->
                   (50 < stop_time r)%Q) ->
        f = LOBBY_FLOOR).
Proof.
  intro stop.
  destruct (infer_initial_positions stable_sort_values stop 50) as [pos|e] eqn:E;
    [|vm_compute in E; discriminate].
  destruct (initial_positions_place_every_car stable_sort_values stop 50 pos 2
              stable_sort_values_sorts E ltac:(unfold N_ELEVATORS; lia))
    as [f Hf].
  exists pos, f. split; [reflexivity | exact Hf].
Defined.

(** The bisection stays within its interval, and [hi - lo] turns are
    enough for it to end by its guard. *)
Lemma bisect_right_bounds (arr : list Q) (t : Q) (fuel : nat) :
  forall lo hi, (lo <= hi)%nat ->
                (lo <= bisect_right fuel arr t lo hi <= hi)%nat.
Proof.
  induction fuel as [|fuel IH]; intros lo hi H; cbn [bisect_right]; [lia|].
  destruct (Nat.ltb_spec lo hi) as [Hlt|Hge]; [|lia].
  pose proof (Nat.lt_div2 (hi - lo) ltac:(lia)) as Hd.
  set (d := Nat.div2 (hi - lo)) in *. clearbody d.
  destruct (Qleb _ t).
  - specialize (IH (S (lo + d)) hi ltac:(lia)).
    set (k := bisect_right _ _ _ _ _) in *. clearbody k. lia.
  - specialize (IH lo (lo + d)%nat ltac:(lia)).
    set (k := bisect_right _ _ _ _ _) in *. clearbody k. lia.
Qed.

Lemma bisect_right_step (arr : list Q) (t : Q) (fuel lo hi : nat) :
  bisect_right (S fuel) arr t lo hi
  = if Nat.ltb lo hi
    then if Qleb (nth (lo + Nat.div2 (hi - lo)) arr 0%Q) t
         then bisect_right fuel arr t (S (lo + Nat.div2 (hi - lo))) hi
         else bisect_right fuel arr t lo (lo + Nat.div2 (hi - lo))
    else lo.
Proof. reflexivity. Qed.

Lemma bisect_right_enough_fuel (arr : list Q) (t : Q) (fuel : nat) :
  forall lo hi, (hi - lo <= fuel)%nat ->
                bisect_right (S fuel) arr t lo hi = bisect_right fuel arr t lo hi.
Proof.
  induction fuel as [|fuel IH]; intros lo hi H.
  - cbn [bisect_right]. destruct (Nat.ltb_spec lo hi); [lia | reflexivity].
  - rewrite (bisect_right_step arr t (S fuel) lo hi).
    rewrite (bisect_right_step arr t fuel lo hi).
    destruct (Nat.ltb_spec lo hi) as [Hlt|Hge]; [|reflexivity].
    pose proof (Nat.lt_div2 (hi - lo) ltac:(lia)) as Hd.
    set (d := Nat.div2 (hi - lo)) in *. clearbody d.
    destruct (Qleb _ t); apply IH; lia.
Qed.

(** On a non-decreasing array the bisection ends on the boundary between
    the entries that are not after [t] and those that are. *)
Lemma bisect_right_sorted (arr : list Q) (t : Q) :
  StronglySorted Qle arr ->
  forall fuel lo hi,
    (hi - lo <= fuel)%nat -> (lo <= hi <= List.length arr)%nat ->
    (forall i, (i < lo)%nat -> (nth i arr 0 <= t)%Q) ->
    (forall i, (hi <= i < List.length arr)%nat -> (t < nth i arr 0)%Q) ->
    let k := bisect_right fuel arr t lo hi in
    (k <= List.length arr)%nat
    /\ (forall i, (i < k)%nat -> (nth i arr 0 <= t)%Q)
    /\ (forall i, (k <= i < List.length arr)%nat -> (t < nth i arr 0)%Q).
Proof.
  intros Hs. induction fuel as [|fuel IH]; intros lo hi Hf Hb Hlo Hhi;
    cbn [bisect_right].
  - cbv zeta. assert (lo = hi) by lia. subst hi. repeat split; [lia | exact Hlo | exact Hhi].
  - destruct (Nat.ltb_spec lo hi) as [Hlt|Hge].
    + pose proof (Nat.lt_div2 (hi - lo) ltac:(lia)) as Hd.
      set (d := Nat.div2 (hi - lo)) in *. clearbody d.
      set (mid := (lo + d)%nat) in *.
      destruct (Qleb (nth mid arr 0%Q) t) eqn:E.
      * apply Qleb_le in E. apply IH; [lia | lia | | exact Hhi].
        intros i Hi. eapply Qle_trans; [|exact E].
        apply Percentiles.sorted_nth_le; [exact Hs | lia | lia].
      * apply Qleb_gt in E. apply IH; [lia | lia | exact Hlo |].
        intros i Hi. eapply Qlt_le_trans; [exact E|].
        apply Percentiles.sorted_nth_le; [exact Hs | lia | lia].
    + cbv zeta. assert (lo = hi) by lia. subst hi.
      repeat split; [lia | exact Hlo | exact Hhi].
Qed.

Lemma sorted_times (rule_timeline : list (Q * string)) :
  StronglySorted (fun a b => (fst a <= fst b)%Q) rule_timeline ->
  StronglySorted Qle (map fst rule_timeline).
Proof.
  induction 1 as [|a l Hs IH Hall]; cbn [map]; constructor; [exact IH|].
  apply Forall_forall. intros x Hx. apply in_map_iff in Hx.
  destruct Hx as [b [E Hb]]. subst x. rewrite Forall_forall in Hall. apply Hall, Hb.
Qed.

(** X27.  [get_rule_label_at] never fails, whatever the timeline.  On a
    timeline in time order it returns the label of the latest row at or
    before [t], and Normal when every row is after [t]. *)
Theorem rule_label_is_the_latest_at_or_before
        (t : Q) (rule_timeline : list (Q * string)) :
  exists label,
    get_rule_label_at t rule_timeline = Ok label
    /\ (StronglySorted (fun a b => (fst a <= fst b)%Q) rule_timeline ->
        ((forall row, In row rule_timeline -> (t < fst row)%Q) ->
         label = "Normal"%string)
        /\ (forall before row after,
               rule_timeline = before ++ row :: after ->
               (fst row <= t)%Q ->
               (forall r, In r after -> (t < fst r)%Q) ->
               label = snd row)).
Proof.
  unfold get_rule_label_at, searchsorted_right.
  set (arr := map fst rule_timeline).
  assert (Hlen : List.length arr = List.length rule_timeline) by apply length_map.
  pose proof (bisect_right_bounds arr t (List.length arr) 0 (List.length arr)
                                  ltac:(lia)) as Hk.
  set (k := bisect_right (List.length arr) arr t 0 (List.length arr)) in *.
  assert (Hnth : forall i, (i < List.length rule_timeline)%nat ->
                           nth i arr 0%Q = fst (nth i rule_timeline (0%Q, EmptyString))).
  { intros i Hi. subst arr.
    rewrite (nth_indep _ 0%Q (fst (0%Q, EmptyString))) by (rewrite length_map; exact Hi).
    apply (map_nth fst). }
  assert (Hspec : StronglySorted (fun a b => (fst a <= fst b)%Q) rule_timeline ->
                  (forall i, (i < k)%nat -> (nth i arr 0 <= t)%Q)
                  /\ (forall i, (k <= i < List.length arr)%nat -> (t < nth i arr 0)%Q)).
  { intro Hs.
    destruct (bisect_right_sorted arr t (sorted_times _ Hs) (List.length arr) 0
                (List.length arr) ltac:(lia) ltac:(lia)) as [_ H].
    - intros i Hi. lia.
    - intros i Hi. lia.
    - exact H. }
  destruct (Z.of_nat k - 1 <? 0) eqn:E.
  - exists "Normal"%string. split; [reflexivity|]. intro Hs.
    split; [reflexivity|].
    intros before row after Hsplit Hrow Hafter. exfalso.
    apply Z.ltb_lt in E. assert (Hk0 : k = 0%nat) by lia.
    destruct (Hspec Hs) as [_ Hhi].
    assert (Hi : (k <= List.length before < List.length arr)%nat).
    { rewrite Hlen, Hsplit, length_app. cbn [List.length]. lia. }
    specialize (Hhi _ Hi). rewrite Hnth in Hhi by lia.
    rewrite Hsplit, nth_middle in Hhi. cbn [fst] in Hhi.
    apply (Qlt_not_le _ _ Hhi Hrow).
  - apply Z.ltb_ge in E.
    destruct (nth_error rule_timeline (Z.to_nat (Z.of_nat k - 1))) as [row0|] eqn:En.
    2:{ apply nth_error_None in En. lia. }
    exists (snd row0). split; [reflexivity|]. intro Hs.
    destruct (Hspec Hs) as [Hlo Hhi]. split.
    + intro Hall. exfalso.
      assert (H0 : (0 < k)%nat) by lia.
      specialize (Hlo 0%nat H0). rewrite Hnth in Hlo by lia.
      assert (Hin : In (nth 0 rule_timeline (0%Q, EmptyString)) rule_timeline)
        by (apply nth_In; lia).
      apply (Qlt_not_le _ _ (Hall _ Hin) Hlo).
    + intros before row after Hsplit Hrow Hafter.
      assert (Hn : k = S (List.length before)).
      { assert (Hlt : (List.length before < List.length rule_timeline)%nat).
        { rewrite Hsplit, length_app. cbn [List.length]. lia. }
        destruct (Nat.lt_trichotomy k (S (List.length before))) as [H|[H|H]];
          [|exact H|]; exfalso.
        - assert (Hi : (k <= List.length before < List.length arr)%nat) by lia.
          specialize (Hhi _ Hi). rewrite Hnth in Hhi by lia.
          rewrite Hsplit, nth_middle in Hhi. cbn [fst] in Hhi.
          apply (Qlt_not_le _ _ Hhi Hrow).
        - specialize (Hlo (S (List.length before)) H).
          rewrite Hnth in Hlo by lia.
          assert (Hin : In (nth (S (List.length before)) rule_timeline
                                (0%Q, EmptyString)) after).
          { rewrite Hsplit.
            rewrite app_nth2 by lia.
            replace (S (List.length before) - List.length before)%nat with 1%nat by lia.
            cbn [nth]. apply nth_In.
            assert (Hl : List.length rule_timeline
                         = (List.length before + S (List.length after))%nat)
              by (rewrite Hsplit, length_app; reflexivity).
            lia. }
          apply (Qlt_not_le _ _ (Hafter _ Hin) Hlo). }
      rewrite Hn in En.
      replace (Z.to_nat (Z.of_nat (S (List.length before)) - 1))
        with (List.length before) in En by lia.
      rewrite Hsplit, nth_error_app2, Nat.sub_diag in En by lia.
      injection En as <-. reflexivity.
Qed.

Lemma rule_label_is_the_latest_at_or_before_witness :
  let rule_timeline := [(0%Q, "Idle/Low"); (300%Q, "Up-Peak"); (600%Q, "Mixed")]%string in
  exists label,
    get_rule_label_at 450 rule_timeline = Ok label /\ label = "Up-Peak"%string.
Proof.
  intro rule_timeline.
  destruct (rule_label_is_the_latest_at_or_before 450 rule_timeline)
    as [label [Hl Hs]].
  exists label. split; [exact Hl|].
  apply (proj2 (Hs ltac:(repeat constructor; vm_compute; discriminate))
               [(0%Q, "Idle/Low"%string)] (300%Q, "Up-Peak"%string)
               [(600%Q, "Mixed"%string)] eq_refl).
  - vm_compute. discriminate.
  - intros r [<-|[]]. vm_compute. reflexivity.
Defined.

End ParkingEpochs.

(** ** The moves of a repositioning plan *)
Module RepositionMoves.

Import Task3Parking.

Lemma zone_eqb_eq (a b : Zone) : zone_eqb a b = true <-> a = b.
Proof. destruct a, b; simpl; split; intro H; try reflexivity; discriminate. Qed.

Lemma in_enumerate_from (A : Type) (l : list A) :
  forall (a : nat) (i : Z) (x : A),
    In (i, x) (combine (map Z.of_nat (seq a (List.length l))) l) <->
    (Z.of_nat a <= i /\ nth_error l (Z.to_nat i - a) = Some x).
Proof.
  induction l as [|y l IH]; intros a i x; cbn [List.length seq map combine].
  - split; [intros [] | intros [_ H]]. destruct (Z.to_nat i - a)%nat; discriminate.
  - cbn [In]. rewrite IH. split.
    + intros [H|[H1 H2]].
      * injection H as <- <-. split; [lia|].
        replace (Z.to_nat (Z.of_nat a) - a)%nat with 0%nat by lia. reflexivity.
      * split; [lia|].
        replace (Z.to_nat i - a)%nat with (S (Z.to_nat i - S a)) by lia. exact H2.
    + intros [H1 H2].
      destruct (Z.eq_dec i (Z.of_nat a)) as [->|Hne].
      * left. replace (Z.to_nat (Z.of_nat a) - a)%nat with 0%nat in H2 by lia.
        injection H2 as <-. reflexivity.
      * right. split; [lia|].
        replace (Z.to_nat i - a)%nat with (S (Z.to_nat i - S a)) in H2 by lia.
        exact H2.
Qed.

Lemma in_enumerate (A : Type) (l : list A) (i : Z) (x : A) :
  In (i, x) (enumerate l) <-> (0 <= i /\ nth_error l (Z.to_nat i) = Some x).
Proof.
  unfold enumerate. rewrite (in_enumerate_from A l 0 i x).
  rewrite Nat.sub_0_r. reflexivity.
Qed.

Lemma enumerate_functional (A : Type) (l : list A) (i : Z) (x y : A) :
  In (i, x) (enumerate l) -> In (i, y) (enumerate l) -> x = y.
Proof.
  rewrite !in_enumerate. intros [_ H1] [_ H2]. congruence.
Qed.

Lemma map_fst_combine_same (A B : Type) (a : list A) :
  forall b : list B, List.length a = List.length b -> map fst (combine a b) = a.
Proof.
  induction a as [|x a IH]; intros [|y b] H; try discriminate; [reflexivity|].
  cbn [combine map fst]. rewrite IH; [reflexivity|]. simpl in H. lia.
Qed.

Lemma enumerate_NoDup (A : Type) (l : list A) : NoDup (map fst (enumerate l)).
Proof.
  unfold enumerate.
  rewrite map_fst_combine_same by (rewrite length_map, length_seq; reflexivity).
  generalize (seq_NoDup (List.length l) 0). generalize (seq 0 (List.length l)).
  induction 1 as [|n ns Hn Hns IH]; cbn [map]; constructor; [|exact IH].
  intro H. apply in_map_iff in H. destruct H as [m [E Hm]].
  apply Nat2Z.inj in E. subst m. exact (Hn Hm).
Qed.

Lemma pop_last_spec (A : Type) (l : list A) (x : A) (r : list A) :
  pop_last l = Some (x, r) -> l = r ++ [x].
Proof.
  unfold pop_last. destruct (rev l) as [|y rv] eqn:E; [discriminate|].
  intro H. injection H as <- <-.
  rewrite <- (rev_involutive l), E. reflexivity.
Qed.

Lemma in_surplus_zones (cc des : zdict Z) (z : Zone) :
  zone_in z (surplus_zones cc des) = true -> des z < cc z.
Proof.
  unfold zone_in. rewrite existsb_exists. intros [z' [Hin E]].
  apply zone_eqb_eq in E. subst z'.
  unfold surplus_zones in Hin. apply in_flat_map in Hin.
  destruct Hin as [z0 [_ Hin]]. cbv zeta in Hin.
  destruct (0 <? cc z0 - des z0) eqn:Ed; [|contradiction].
  apply repeat_spec in Hin. subst z0. apply Z.ltb_lt in Ed. lia.
Qed.

Lemma in_deficit_zones (cc des : zdict Z) (z : Zone) :
  In z (deficit_zones cc des) -> cc z < des z.
Proof.
  unfold deficit_zones. intro Hin. apply in_flat_map in Hin.
  destruct Hin as [z0 [_ Hin]]. cbv zeta in Hin.
  destruct (0 <? cc z0 - des z0); [contradiction|].
  destruct (cc z0 - des z0 <? 0) eqn:Ed; [|contradiction].
  apply repeat_spec in Hin. subst z0. apply Z.ltb_lt in Ed. lia.
Qed.

Lemma deficit_zones_length (cc des : zdict Z) :
  Z.of_nat (List.length (deficit_zones cc des))
  = Z.max 0 (des Lobby - cc Lobby) + Z.max 0 (des Mid - cc Mid)
    + Z.max 0 (des Upper - cc Upper).
Proof.
  unfold deficit_zones, ZONES. cbn [flat_map]. rewrite app_nil_r, !length_app.
  assert (H : forall z,
             Z.of_nat (List.length
                         (if 0 <? cc z - des z then []
                          else if cc z - des z <? 0 then py_repeat z (- (cc z - des z))
                               else []))
             = Z.max 0 (des z - cc z)).
  { intro z. destruct (Z.ltb_spec 0 (cc z - des z)); [simpl; lia|].
    destruct (Z.ltb_spec (cc z - des z) 0); [|simpl; lia].
    rewrite ParkingZoneFacts.py_repeat_length. lia. }
  rewrite !Nat2Z.inj_add, !H. lia.
Qed.

Section Moves.
Variable current_alloc_list : list Zone.
Variable desired_alloc : zdict Z.

Local Abbreviation cc := (count_zone current_alloc_list).

(** The candidate lists hold cars of their zone, each once, and only for
    zones with a surplus. *)
Local Abbreviation candidates ibz :=
  ((forall z, NoDup (ibz z))
   /\ (forall z i, In i (ibz z) ->
                   In (i, z) (enumerate current_alloc_list) /\ desired_alloc z < cc z)).

Lemma indices_by_zone_fold (todo : list (Z * Zone)) :
  NoDup (map fst todo) ->
  (forall iz, In iz todo -> In iz (enumerate current_alloc_list)) ->
  forall acc : zdict (list Z),
    candidates acc ->
    (forall z i, In i (acc z) -> ~ In i (map fst todo)) ->
    candidates
      (fold_left
         (fun (acc : zdict (list Z)) (iz : Z * Zone) =>
            let (i, z) := iz in
            if zone_in z (surplus_zones cc desired_alloc)
               || (desired_alloc z <? cc z)
            then zupd acc z (acc z ++ [i])
            else acc)
         todo acc).
Proof.
  induction todo as [|[i z] todo IH]; intros Hnd Hin acc Hacc Hfresh; [exact Hacc|].
  cbn [fold_left]. cbn [map fst] in Hnd. apply NoDup_cons_iff in Hnd.
  destruct Hnd as [Hi Hnd].
  assert (Hin' : forall iz, In iz todo -> In iz (enumerate current_alloc_list))
    by (intros iz H; apply Hin; right; exact H).
  destruct (zone_in z (surplus_zones cc desired_alloc) || (desired_alloc z <? cc z))
    eqn:Ec.
  - assert (Hsur : desired_alloc z < cc z).
    { apply orb_true_iff in Ec. destruct Ec as [Ec|Ec];
        [apply in_surplus_zones, Ec | apply Z.ltb_lt, Ec]. }
    apply (IH Hnd Hin').
    + destruct Hacc as [Hn Hc]. split.
      * intro z'. unfold zupd. destruct (zone_eqb z z') eqn:Ez; [|apply Hn].
        apply NoDup_app; [apply Hn | repeat constructor; intros [] |].
        intros x Hx [Hx'|[]]. subst x.
        apply (Hfresh z i Hx). left. reflexivity.
      * intros z' j Hj. unfold zupd in Hj. destruct (zone_eqb z z') eqn:Ez;
          [|apply Hc, Hj].
        apply zone_eqb_eq in Ez. subst z'. apply in_app_iff in Hj.
        destruct Hj as [Hj|[Hj|[]]]; [apply Hc, Hj|]. subst j.
        split; [apply Hin; left; reflexivity | exact Hsur].
    + intros z' j Hj Hjt. unfold zupd in Hj. destruct (zone_eqb z z') eqn:Ez.
      * apply in_app_iff in Hj. destruct Hj as [Hj|[Hj|[]]].
        -- apply (Hfresh z j Hj). right. exact Hjt.
        -- subst j. exact (Hi Hjt).
      * apply (Hfresh z' j Hj). right. exact Hjt.
  - apply (IH Hnd Hin' acc Hacc).
    intros z' j Hj Hjt. apply (Hfresh z' j Hj). right. exact Hjt.
Qed.

Lemma indices_by_zone_candidates :
  candidates (indices_by_zone current_alloc_list
                              (surplus_zones cc desired_alloc) cc desired_alloc).
Proof.
  unfold indices_by_zone. apply indices_by_zone_fold.
  - apply enumerate_NoDup.
  - intros iz H. exact H.
  - split; [intro z; constructor | intros z i []].
  - intros z i [].
Qed.

Lemma pair_moves_well_formed (deficits : list Zone) :
  (forall t, In t deficits -> cc t < desired_alloc t) ->
  forall (ibz : zdict (list Z)) (curr_counts : zdict Z) (moves : list (Z * Zone)),
    candidates ibz ->
    NoDup (map fst moves) ->
    (forall z i, In i (ibz z) -> ~ In i (map fst moves)) ->
    (forall idx tgt, In (idx, tgt) moves ->
       exists src, In (idx, src) (enumerate current_alloc_list)
                   /\ desired_alloc src < cc src /\ cc tgt < desired_alloc tgt) ->
    let out := pair_moves deficits ibz curr_counts moves in
    NoDup (map fst out)
    /\ (forall idx tgt, In (idx, tgt) out ->
          exists src, In (idx, src) (enumerate current_alloc_list)
                      /\ desired_alloc src < cc src /\ cc tgt < desired_alloc tgt)
    /\ (List.length out <= List.length moves + List.length deficits)%nat.
Proof.
  induction deficits as [|target deficits IH];
    intros Hdef ibz curr_counts moves Hc Hnd Hfresh Hmoves; cbn [pair_moves].
  - cbv zeta. repeat split; [exact Hnd | exact Hmoves | lia].
  - cbv zeta.
    destruct (pick_src ibz) as [src|]; [|repeat split; [exact Hnd | exact Hmoves | lia]].
    destruct (pop_last (ibz src)) as [[idx rest]|] eqn:Ep;
      [|repeat split; [exact Hnd | exact Hmoves | lia]].
    apply pop_last_spec in Ep.
    destruct Hc as [Hn Hcand].
    assert (Hidx : In idx (ibz src)) by (rewrite Ep; apply in_or_app; right; left; reflexivity).
    destruct (Hcand src idx Hidx) as [Henum Hsur].
    assert (Hrest : NoDup (rest ++ [idx])) by (rewrite <- Ep; apply Hn).
    match goal with
    | |- context [pair_moves deficits ?i ?c ?m] =>
        destruct (IH (fun t H => Hdef t (or_intror H)) i c m) as [R1 [R2 R3]]
    end.
    + split.
      * intro z. unfold zupd. destruct (zone_eqb src z); [|apply Hn].
        apply NoDup_app_remove_r in Hrest. exact Hrest.
      * intros z i Hi. unfold zupd in Hi. destruct (zone_eqb src z) eqn:Ez;
          [|apply Hcand, Hi].
        apply zone_eqb_eq in Ez. subst z. apply Hcand. rewrite Ep.
        apply in_or_app. left. exact Hi.
    + rewrite map_app. cbn [map fst].
      apply NoDup_app; [exact Hnd | repeat constructor; intros [] |].
      intros x Hx [Hx'|[]]. subst x. exact (Hfresh src idx Hidx Hx).
    + intros z i Hi Him. rewrite map_app in Him. cbn [map fst] in Him.
      apply in_app_iff in Him. unfold zupd in Hi.
      destruct (zone_eqb src z) eqn:Ez.
      * apply zone_eqb_eq in Ez. subst z.
        destruct Him as [Him|[Him|[]]].
        -- apply (Hfresh src i); [rewrite Ep; apply in_or_app; left; exact Hi | exact Him].
        -- subst i. apply NoDup_remove_2 in Hrest. rewrite app_nil_r in Hrest.
           exact (Hrest Hi).
      * destruct Him as [Him|[Him|[]]]; [exact (Hfresh z i Hi Him)|].
        subst i. destruct (Hcand z idx Hi) as [Henum' _].
        pose proof (enumerate_functional _ _ _ _ _ Henum Henum') as E.
        subst z. rewrite (proj2 (zone_eqb_eq src src) eq_refl) in Ez. discriminate.
    + intros i tgt Hi. apply in_app_iff in Hi. destruct Hi as [Hi|[Hi|[]]];
        [apply Hmoves, Hi|].
      injection Hi as <- <-. exists src. repeat split; try assumption.
      apply Hdef. left. reflexivity.
    + repeat split; [exact R1 | exact R2|].
      rewrite length_app in R3. cbn [List.length] in *. lia.
Qed.

End Moves.

(** X28.  Every move of [compute_reposition_moves] takes a car out of a
    zone that holds more cars than desired and sends it to a zone that
    holds fewer than desired; no car is moved twice; and there are at
    most as many moves as cars are missing over the three zones. *)
Theorem reposition_moves_go_from_surplus_to_deficit
        (current_alloc_list : list Zone) (desired_alloc : zdict Z) :
  let moves := compute_reposition_moves current_alloc_list desired_alloc in
  let curr_counts := count_zone current_alloc_list in
  NoDup (map fst moves)
  /\ (forall idx tgt, In (idx, tgt) moves ->
        exists src,
          0 <= idx
          /\ nth_error current_alloc_list (Z.to_nat idx) = Some src
          /\ desired_alloc src < curr_counts src
          /\ curr_counts tgt < desired_alloc tgt)
  /\ Z.of_nat (List.length moves)
     <= Z.max 0 (desired_alloc Lobby - curr_counts Lobby)
        + Z.max 0 (desired_alloc Mid - curr_counts Mid)
        + Z.max 0 (desired_alloc Upper - curr_counts Upper).
Proof.
  cbv zeta. unfold compute_reposition_moves.
  destruct (pair_moves_well_formed current_alloc_list desired_alloc
              (deficit_zones (count_zone current_alloc_list) desired_alloc)
              (in_deficit_zones _ _)
              (indices_by_zone current_alloc_list
                 (surplus_zones (count_zone current_alloc_list) desired_alloc)
                 (count_zone current_alloc_list) desired_alloc)
              (count_zone current_alloc_list) []
              (indices_by_zone_candidates current_alloc_list desired_alloc)
              (NoDup_nil _)
              (fun _ _ _ H => H)
              (fun _ _ H => match H with end))
    as [R1 [R2 R3]].
  split; [exact R1|]. split.
  - intros idx tgt H. destruct (R2 idx tgt H) as [src [He [Hs Hd]]].
    apply in_enumerate in He. exists src. tauto.
  - rewrite <- deficit_zones_length. cbn [List.length] in R3. lia.
Qed.

End RepositionMoves.

(** ** The back-test of the parking plan *)
Module BacktestProperties.

Import Task3Parking BacktestTask3 Task3ParkingFacts Task3ProportionFacts RepositionMoves.

Lemma count_zone_app (a b : list Zone) (z : Zone) :
  count_zone (a ++ b) z = count_zone a z + count_zone b z.
Proof. unfold count_zone. rewrite filter_app, length_app. lia. Qed.

Lemma count_zone_repeat (z' z : Zone) (k : Z) :
  0 <= k -> count_zone (py_repeat z' k) z = if zone_eqb z z' then k else 0.
Proof.
  intro Hk. unfold count_zone, py_repeat.
  destruct (zone_eqb z z') eqn:E.
  - assert (H : filter (zone_eqb z) (repeat z' (Z.to_nat k)) = repeat z' (Z.to_nat k)).
    { induction (Z.to_nat k) as [|n IH]; [reflexivity|].
      cbn [repeat filter]. rewrite E, IH. reflexivity. }
    rewrite H, repeat_length. lia.
  - assert (H : filter (zone_eqb z) (repeat z' (Z.to_nat k)) = []).
    { induction (Z.to_nat k) as [|n IH]; [reflexivity|].
      cbn [repeat filter]. rewrite E, IH. reflexivity. }
    rewrite H. reflexivity.
Qed.

(** The allocation carried over holds the desired number of cars in
    every zone. *)
Lemma next_alloc_realises (n : Z) (desired : zdict Z) :
  (forall z, 0 <= desired z) ->
  desired Lobby + desired Mid + desired Upper = n ->
  Z.of_nat (List.length (next_alloc n desired)) = n
  /\ forall z, count_zone (next_alloc n desired) z = desired z.
Proof.
  intros Hnn Hsum. unfold next_alloc, ZONES. cbn [flat_map].
  set (new_alloc := py_repeat Lobby (desired Lobby)
                      ++ py_repeat Mid (desired Mid)
                      ++ py_repeat Upper (desired Upper) ++ []).
  assert (Hlen : Z.of_nat (List.length new_alloc) = n).
  { subst new_alloc. rewrite !length_app, !ParkingZoneFacts.py_repeat_length.
    cbn [List.length]. pose proof (Hnn Lobby). pose proof (Hnn Mid).
    pose proof (Hnn Upper). lia. }
  rewrite Hlen, Z.sub_diag.
  change (py_repeat Lobby 0) with (@nil Zone). rewrite app_nil_r.
  unfold py_take. destruct (Z.ltb_spec n 0) as [Hneg|Hpos].
  { pose proof (Hnn Lobby). pose proof (Hnn Mid). pose proof (Hnn Upper). lia. }
  rewrite firstn_all2 by lia.
  split; [exact Hlen|].
  intro z. subst new_alloc. rewrite !count_zone_app, !count_zone_repeat by apply Hnn.
  destruct z; cbn [zone_eqb]; unfold count_zone; cbn [filter List.length]; lia.
Qed.



Lemma py_nth_in_range (A : Type) (l : list A) (i : Z) :
  - Z.of_nat (List.length l) <= i < Z.of_nat (List.length l) ->
  exists x, py_nth l i = Ok x.
Proof.
  intro H. unfold py_nth.
  set (n := Z.of_nat (List.length l)) in *.
  set (j := if i <? 0 then i + n else i).
  assert (Hj : 0 <= j < n).
  { subst j. destruct (Z.ltb_spec i 0); lia. }
  destruct (Z.ltb_spec j 0); [lia|]. destruct (Z.leb_spec n j); [lia|].
  cbn [orb]. destruct (nth_error l (Z.to_nat j)) as [x|] eqn:E; [eauto|].
  apply nth_error_None in E. lia.
Qed.

Lemma predict_next_ok (train : list Task1Model.Slot) (fit : Task1Model.Fit)
      (last_ts last_count : Z) :
  Task1Model.estimate_baseline_and_phi train = Ok fit ->
  exists y_hat,
    Task1Model.predict_next last_ts last_count fit = Ok (last_ts + 300, y_hat)
    /\ (0 <= y_hat)%Q.
Proof.
  intro Hfit.
  destruct (ForecastProperties.estimate_arrays train fit Hfit) as [H0 [H1 _]].
  pose proof (ForecastProperties.baseline_length train 0 _ H0) as L0.
  pose proof (ForecastProperties.baseline_length train 1 _ H1) as L1.
  unfold Task1Model.predict_next.
  assert (Hmod : forall x, 0 <= x mod Task1Model.N_INTERVALS_PER_DAY
                           < Task1Model.N_INTERVALS_PER_DAY).
  { intro x. apply Z.mod_pos_bound. unfold Task1Model.N_INTERVALS_PER_DAY. lia. }
  rewrite (ForecastProperties.mu_lookup_in_range _ _ _ _ L0 L1
             (SeriesWellFormed.regime_of_flag last_ts) (Hmod _)).
  cbn [bind].
  rewrite (ForecastProperties.mu_lookup_in_range _ _ _ _ L0 L1
             (SeriesWellFormed.regime_of_flag (last_ts + FIVE_MIN)) (Hmod _)).
  cbn [bind].
  eexists. split; [reflexivity|].
  destruct (Qleb _ 0) eqn:E; [apply Qle_refl|].
  apply Qleb_gt in E. apply Qlt_le_weak, E.
Qed.

Lemma backtest_step_ok (p : Params) (last_ts next_ts : Z) (st : string)
      (yhat ytrue : Q) (current_alloc : list Zone) :
  0 <= n_elevators p ->
  exists entry alloc,
    backtest_step p last_ts next_ts st yhat ytrue current_alloc = Ok (entry, alloc)
    /\ allocated_elevators entry = n_elevators p
    /\ (baseline_wait_s p <= awt_s entry)%Q
    /\ y_hat entry = yhat.
Proof.
  intro Hn.
  destruct (compute_desired_allocation_total st yhat (n_elevators p) Hn)
    as [desired [Ed [Hsum Hnn]]].
  do 2 eexists. split.
  { unfold backtest_step, parking_policy. rewrite Ed. cbn [bind]. reflexivity. }
  cbn [allocated_elevators awt_s desired_alloc y_hat].
  split; [unfold ZONES; cbn [map Zsum fold_right]; lia|].
  split; [|reflexivity].
  match goal with
  | |- context [Qltb 0 ?o] => destruct (Qltb 0 o) eqn:E
  end.
  - apply Qltb_lt in E. lra.
  - lra.
Qed.



End BacktestProperties.
